(** * The director's queue worker and the cross-process channel

    A shallow embedding of [python/cog/director/queue_worker.py] and of the
    channel exercised by [python/tests/server/test_connection.py].

    The worker is single-threaded; everything it shares with other execution
    contexts (the two [threading.Event] flags, the duplex pipe, the Redis
    consumer, the HTTP endpoints of the model container) is kept in an
    explicit [world], and what those other contexts do while the worker is
    inside a blocking call (a dequeue, an HTTP request, a bounded wait) is
    supplied by a script.  Every function below returns an outcome, the new
    world and the list of events it produced, in program order.  A script is
    finite: a loop that outlives its script is reported as still running. *)

From Stdlib Require Import Strings.Byte.
From Stdlib Require Import List String Ascii ZArith NArith Bool Lia Arith.
Import ListNotations.
Local Open Scope string_scope.
Local Open Scope list_scope.
Local Open Scope Z_scope.

(** ** Values *)

(** What [json.loads] produces.  A Python [dict] keeps insertion order, so an
    object is an association list. *)
#[local] Set Warnings "-register-all".
Inductive json : Type :=
| JNull
| JBool (b : bool)
| JNum (n : Z)
| JStr (s : string)
| JArr (items : list json)
| JObj (fields : list (string * json)).

Fixpoint dict_get (d : list (string * json)) (k : string) : option json :=
  match d with
  | [] => None
  | (k', v) :: rest => if String.eqb k' k then Some v else dict_get rest k
  end.
#[local] Set Warnings "register-all".

(** [d[k] = v]: an existing key keeps its position, a new key goes last. *)
Fixpoint dict_set (d : list (string * json)) (k : string) (v : json)
  : list (string * json) :=
  match d with
  | [] => [(k, v)]
  | (k', v') :: rest =>
      if String.eqb k' k then (k', v) :: rest else (k', v') :: dict_set rest k v
  end.

(** [x == "literal"] for a value that came out of JSON. *)
Definition py_eq_str (x : json) (s : string) : bool :=
  match x with
  | JStr t => String.eqb t s
  | _ => false
  end.

(** [x is None] *)
Definition py_is_none (x : json) : bool :=
  match x with
  | JNull => true
  | _ => false
  end.

(** ** Exceptions and outcomes *)

Inductive exn : Type :=
| EmptyRedisStream
| RedisError
| JSONDecodeError
| AttributeError
| KeyError (key : string)
| TypeError
| RequestException
| HTTPError (status : Z).

(** A call returns, raises, or is still running when the script of the
    environment ends ([Pend]). *)
Inductive outcome (A : Type) : Type :=
| Ret (a : A)
| Exc (e : exn)
| Pend.
Arguments Ret {A} a.
Arguments Exc {A} e.
Arguments Pend {A}.

(** ** The shared world *)

(** [prediction_event] and [shutdown_event] are the two [threading.Event]
    objects handed to [QueueWorker.__init__].  [prediction_request_pipe] is one
    end of a duplex [multiprocessing] pipe: [pipe_inbox] holds what the other
    end has sent and this end has not yet received, [pipe_peer_inbox] what this
    end has sent and the other end has not yet received (compare
    [test_async_connection_rt]: what [c1] sends is what [c2] receives, and the
    other way round).  [send] pickles its argument, so the peer holds a copy of
    the value as it was at the time of the call. *)
Record world : Type := {
  prediction_event : bool;
  shutdown_event : bool;
  pipe_inbox : list json;
  pipe_peer_inbox : list json
}.

(** What the other execution contexts do during one blocking call of the
    worker, one step at a time: the webhook handler sets [prediction_event],
    the signal handler sets [shutdown_event], the process at the other end of
    the pipe receives a pending message or sends one.  Nobody but the worker
    clears an event. *)
Inductive env_atom : Type :=
| FireComplete
| FireShutdown
| PeerRecv
| PeerSend (m : json).

(** The steps of the environment during one call, in their order. *)
Definition env_act : Type := list env_atom.

Definition quiet : env_act := [].

Definition fires_complete (a : env_act) : bool :=
  existsb (fun x => match x with FireComplete => true | _ => false end) a.

Definition fires_shutdown (a : env_act) : bool :=
  existsb (fun x => match x with FireShutdown => true | _ => false end) a.

Definition peer_receives (a : env_act) : nat :=
  List.length
    (filter (fun x => match x with PeerRecv => true | _ => false end) a).

Definition peer_sends (a : env_act) : list json :=
  flat_map (fun x => match x with PeerSend m => [m] | _ => [] end) a.

Inductive event : Type :=
| EnvComplete
| EnvShutdown
| ShutdownIsSet (b : bool)
| PredictionClear
| PredictionWait (b : bool)
| PipePoll (b : bool)
| PipeRecv (m : json)
| PipeSend (m : json)
| RedisGet
| RedisChecker (cancel_key : json)
| RedisShouldCancel (b : bool)
| RedisAck (message_id : string)
| HttpGet (url : string)
| HttpPost (url : string) (body : option json) (headers : list (string * string))
| Sleep (milliseconds : Z)
| LogInfo (text : string)
| LogException (text : string) (e : exn).

(** ** The monad: state, event log, exceptions *)

Definition M (A : Type) : Type := world -> outcome A * world * list event.

Definition ret {A} (a : A) : M A := fun w => (Ret a, w, []).

Definition bind {A B} (m : M A) (k : A -> M B) : M B := fun w =>
  match m w with
  | (Ret a, w1, t1) =>
      match k a w1 with
      | (r, w2, t2) => (r, w2, t1 ++ t2)
      end
  | (Exc e, w1, t1) => (Exc e, w1, t1)
  | (Pend, w1, t1) => (Pend, w1, t1)
  end.

Definition raise {A} (e : exn) : M A := fun w => (Exc e, w, []).
Definition pend {A} : M A := fun w => (Pend, w, []).
Definition emit (e : event) : M unit := fun w => (Ret tt, w, [e]).

(** [try: m  except <handles>: h] *)
Definition try_except {A} (m : M A) (handles : exn -> bool) (h : exn -> M A)
  : M A := fun w =>
  match m w with
  | (Exc e, w1, t1) =>
      if handles e then
        match h e w1 with
        | (r, w2, t2) => (r, w2, t1 ++ t2)
        end
      else (Exc e, w1, t1)
  | other => other
  end.

Declare Scope worker_scope.
Delimit Scope worker_scope with worker.
Notation "x <- m ;; k" := (bind m (fun x => k))
  (at level 61, m at next level, right associativity) : worker_scope.
Notation "m ;; k" := (bind m (fun _ => k))
  (at level 61, right associativity) : worker_scope.
Local Open Scope worker_scope.

Definition result {A} (x : outcome A * world * list event) : outcome A :=
  fst (fst x).
Definition final {A} (x : outcome A * world * list event) : world :=
  snd (fst x).
Definition events {A} (x : outcome A * world * list event) : list event :=
  snd x.

(** ** Primitive operations on the shared objects *)

(** The firings of the two signals, in the order in which they happen. *)
Definition env_events (a : env_act) : list event :=
  flat_map (fun x => match x with
                     | FireComplete => [EnvComplete]
                     | FireShutdown => [EnvShutdown]
                     | _ => []
                     end) a.

(** The steps of the environment act on different parts of the world, so the
    world after them does not depend on their order. *)
Definition env_apply (a : env_act) (w : world) : world :=
  {| prediction_event := prediction_event w || fires_complete a;
     shutdown_event := shutdown_event w || fires_shutdown a;
     pipe_inbox := pipe_inbox w ++ peer_sends a;
     pipe_peer_inbox := skipn (peer_receives a) (pipe_peer_inbox w) |}.

Definition env_step (a : env_act) : M unit := fun w =>
  (Ret tt, env_apply a w, env_events a).

(** [shutdown_event.is_set()] *)
Definition shutdown_event_is_set : M bool := fun w =>
  (Ret (shutdown_event w), w, [ShutdownIsSet (shutdown_event w)]).

(** [prediction_event.clear()] *)
Definition prediction_event_clear : M unit := fun w =>
  (Ret tt,
   {| prediction_event := false;
      shutdown_event := shutdown_event w;
      pipe_inbox := pipe_inbox w;
      pipe_peer_inbox := pipe_peer_inbox w |},
   [PredictionClear]).

(** [prediction_event.wait(timeout)]: true when the flag is set by the time
    the call returns. *)
Definition prediction_event_wait (during : env_act) : M bool :=
  env_step during ;;
  fun w => (Ret (prediction_event w), w, [PredictionWait (prediction_event w)]).

(** [prediction_request_pipe.poll()]: is there something to receive at this
    end?  Returns at once. *)
Definition prediction_request_pipe_poll : M bool := fun w =>
  match pipe_inbox w with
  | [] => (Ret false, w, [PipePoll false])
  | _ :: _ => (Ret true, w, [PipePoll true])
  end.

(** [prediction_request_pipe.recv()]; it would block on an empty inbox, which
    the caller excludes by polling first. *)
Definition prediction_request_pipe_recv : M json := fun w =>
  match pipe_inbox w with
  | [] => (Pend, w, [])
  | m :: rest =>
      (Ret m,
       {| prediction_event := prediction_event w;
          shutdown_event := shutdown_event w;
          pipe_inbox := rest;
          pipe_peer_inbox := pipe_peer_inbox w |},
       [PipeRecv m])
  end.

(** [prediction_request_pipe.send(obj)], for a call that returns: the object
    is then on its way to the other end, behind what that end has not yet
    received.  A call that waits for the other end to make room in a full
    buffer is not scripted; what is stated of the state after a send is stated
    of calls that returned. *)
Definition prediction_request_pipe_send (m : json) : M unit := fun w =>
  (Ret tt,
   {| prediction_event := prediction_event w;
      shutdown_event := shutdown_event w;
      pipe_inbox := pipe_inbox w;
      pipe_peer_inbox := pipe_peer_inbox w ++ [m] |},
   [PipeSend m]).

(** [time.sleep]; intervals are kept in milliseconds. *)
Definition time_sleep (milliseconds : Z) : M unit := emit (Sleep milliseconds).

Definition log_info (text : string) : M unit := emit (LogInfo text).
Definition log_exception (text : string) (e : exn) : M unit :=
  emit (LogException text e).

(** ** Python operations on JSON values *)

(** [x[k]] *)
Definition py_getitem (x : json) (k : string) : M json :=
  match x with
  | JObj d =>
      match dict_get d k with
      | Some v => ret v
      | None => raise (KeyError k)
      end
  | _ => raise TypeError
  end.

(** [x.get(k)] *)
Definition py_get (x : json) (k : string) : M json :=
  match x with
  | JObj d =>
      match dict_get d k with
      | Some v => ret v
      | None => ret JNull
      end
  | _ => raise AttributeError
  end.

(** [x[k] = v], giving the updated object *)
Definition py_setitem (x : json) (k : string) (v : json) : M json :=
  match x with
  | JObj d => ret (JObj (dict_set d k v))
  | _ => raise TypeError
  end.

(** [prefix + x + suffix] with [prefix] and [suffix] of type [str] *)
Definition py_str_concat (prefix : string) (x : json) (suffix : string)
  : M string :=
  match x with
  | JStr s => ret (prefix ++ s ++ suffix)%string
  | _ => raise TypeError
  end.

(** ** HTTP *)

(** What one call of the HTTP client ends in, after whatever retries the
    mounted adapter makes: an exception of [requests], or a response. *)
Record response : Type := {
  status_code : Z;
  body : option json
}.

Inductive http_result : Type :=
| Unreachable
| Response (resp : response).

Definition http_call (ev : event) (res : http_result) (during : env_act)
  : M response :=
  emit ev ;;
  env_step during ;;
  match res with
  | Unreachable => raise RequestException
  | Response resp => ret resp
  end.

(** [requests.get(url, timeout=1)] *)
Definition requests_get (url : string) (res : http_result) (during : env_act)
  : M response :=
  http_call (HttpGet url) res during.

(** [cog_client.post(url, json=..., headers=..., timeout=...)].  The event
    [HttpPost] stands for this one call of the client and [res] for what the
    call ends in.  The session that [_make_local_http_client] builds may send
    the request again before the call returns (up to three more times, on a
    connection error and on the statuses 429, 500, 502, 503 and 504), so the
    events count the calls the worker makes, not the requests that reach the
    container. *)
Definition cog_client_post (url : string) (payload : option json)
  (headers : list (string * string)) (res : http_result) (during : env_act)
  : M response :=
  http_call (HttpPost url payload headers) res during.

(** [resp.raise_for_status()]: client and server errors raise. *)
Definition raise_for_status (resp : response) : M unit :=
  if (400 <=? status_code resp) && (status_code resp <? 600)
  then raise (HTTPError (status_code resp))
  else ret tt.

(** [resp.json()] *)
Definition resp_json (resp : response) : M json :=
  match body resp with
  | Some v => ret v
  | None => raise JSONDecodeError
  end.

(** ** The scripts of the environment *)

(** One pass through the setup loop: the answer to the health check and what
    happens around the worker during the request and the sleep after it. *)
Record health_poll : Type := {
  health_result : http_result;
  during_health : env_act
}.

(** What [redis_consumer.get()] does: [EmptyRedisStream], another failure, or
    a message id with the message text.  The text is represented by what
    [json.loads] makes of it, [None] when it is not JSON. *)
Inductive get_result : Type :=
| GetEmpty
| GetFails
| GetMessage (message_id : string) (message_json : option json).

(** One pass through the polling loop of a running prediction. *)
Record wait_tick : Type := {
  during_wait : env_act;
  cancel_requested : bool;
  cancel_result : http_result;
  during_cancel : env_act
}.

(** One iteration of the main loop: what happens around the worker between
    the test of [shutdown_event.is_set()] and the dequeue ([before_get]), and
    the call of [handle_message]. *)
Record job_script : Type := {
  before_get : env_act;
  get_res : get_result;
  during_get : env_act;
  post_res : http_result;
  during_post : env_act;
  ticks : list wait_tick
}.

Record run_script : Type := {
  setup_polls : list health_poll;
  jobs : list job_script
}.

(** ** Constants *)

(** [SETUP_POLL_INTERVAL = 0.1] and [POLL_INTERVAL = 0.1] seconds. *)
Definition SETUP_POLL_INTERVAL : Z := 100.
Definition POLL_INTERVAL : Z := 100.

(** [int(5 / SETUP_POLL_INTERVAL)] *)
Definition liveness_period : Z := 5000 / SETUP_POLL_INTERVAL.

(** Modelled from the spec: [schema.Status.SUCCEEDED] is declared in
    [cog/schema.py], which is not part of the sources at hand; the spec gives
    the setup sub-status that means readiness as "succeeded". *)
Definition Status_SUCCEEDED : string := "succeeded".

Definition webhook_url : string := "http://localhost:4900/webhook".

(** ** The Redis consumer *)

Definition is_EmptyRedisStream (e : exn) : bool :=
  match e with
  | EmptyRedisStream => true
  | _ => false
  end.

Definition is_RequestException (e : exn) : bool :=
  match e with
  | RequestException => true
  | HTTPError _ => true
  | _ => false
  end.

(** [except Exception] *)
Definition is_Exception (e : exn) : bool := true.

(** [redis_consumer.get()]: the call blocks, so the environment acts while it
    runs ([during_get]).  What happens before the call, after the main loop
    tested the shutdown flag, is [before_get] in [main_loop]. *)
Definition redis_consumer_get (j : job_script) : M (string * option json) :=
  emit RedisGet ;;
  env_step (during_get j) ;;
  match get_res j with
  | GetEmpty => raise EmptyRedisStream
  | GetFails => raise RedisError
  | GetMessage message_id message_json => ret (message_id, message_json)
  end.

(** [redis_consumer.checker(cancel_key)] builds the predicate; each call of
    the predicate is answered by the current tick. *)
Definition redis_consumer_checker (cancel_key : json) : M unit :=
  emit (RedisChecker cancel_key).

Definition should_cancel (t : wait_tick) : M bool :=
  emit (RedisShouldCancel (cancel_requested t)) ;;
  ret (cancel_requested t).

Definition redis_consumer_ack (message_id : string) : M unit :=
  emit (RedisAck message_id).

(** [json.loads] *)
Definition json_loads (text : option json) : M json :=
  match text with
  | Some v => ret v
  | None => raise JSONDecodeError
  end.

(** ** QueueWorker *)

(** The fields of [self] that are plain values.  [redis_consumer],
    [prediction_event], [shutdown_event], [prediction_request_pipe] and
    [cog_client] refer to the shared objects above. *)
Record QueueWorker : Type := {
  predict_timeout : Z;
  cog_http_base : string
}.

Definition QueueWorker_init (predict_timeout : Z) : QueueWorker :=
  {| predict_timeout := predict_timeout;
     cog_http_base := "http://localhost:5000" |}.

(** The loop that polls [prediction_request_pipe] and receives while there is
    something to receive.  Nothing arrives between two polls, so the loop runs
    once per message in the inbox; [fuel] bounds the number of passes. *)
Fixpoint clear_pipe (fuel : nat) : M unit :=
  match fuel with
  | O => pend
  | S fuel' =>
      more <- prediction_request_pipe_poll ;;
      if more then (_ <- prediction_request_pipe_recv ;; clear_pipe fuel')
      else ret tt
  end.

Definition clear_prediction_request_pipe : M unit := fun w =>
  clear_pipe (S (List.length (pipe_inbox w))) w.

(** The [while True] loop of [handle_message]: [true] stands for [break],
    [false] for [return]. *)
Fixpoint wait_loop (self : QueueWorker) (prediction_id : json)
  (ts : list wait_tick) : M bool :=
  match ts with
  | [] => pend
  | t :: rest =>
      done <- prediction_event_wait (during_wait t) ;;
      if done then ret true
      else
        cancel <- should_cancel t ;;
        (if cancel then
           url <- py_str_concat (cog_http_base self ++ "/predictions/")%string
                    prediction_id "/cancel" ;;
           resp <- cog_client_post url None [] (cancel_result t)
                     (during_cancel t) ;;
           raise_for_status resp
         else ret tt) ;;
        stop <- shutdown_event_is_set ;;
        if stop then ret false else wait_loop self prediction_id rest
  end.

Definition handle_message (self : QueueWorker) (j : job_script) : M unit :=
  got <- try_except
           (x <- redis_consumer_get j ;; ret (Some x))
           is_EmptyRedisStream
           (fun _ => time_sleep POLL_INTERVAL ;; ret None) ;;
  match got with
  | None => ret tt
  | Some (message_id, message_json) =>
      message <- json_loads message_json ;;
      cancel_key <- py_get message "cancel_key" ;;
      redis_consumer_checker cancel_key ;;
      prediction_id <- py_getitem message "id" ;;
      clear_prediction_request_pipe ;;
      prediction_request_pipe_send message ;;
      prediction_event_clear ;;
      message <- py_setitem message "webhook" (JStr webhook_url) ;;
      resp <- cog_client_post (cog_http_base self ++ "/predictions")%string
                (Some message) [("Prefer", "respond-async")]
                (post_res j) (during_post j) ;;
      raise_for_status resp ;;
      completed <- wait_loop self prediction_id (ticks j) ;;
      if completed then redis_consumer_ack message_id else ret tt
  end.

(** The condition under which the setup loop breaks. *)
Definition setup_succeeded (body : json) : M bool :=
  status <- py_getitem body "status" ;;
  if py_eq_str status "healthy" then
    setup <- py_getitem body "setup" ;;
    if py_is_none setup then ret false
    else
      setup <- py_getitem body "setup" ;;
      setup_status <- py_getitem setup "status" ;;
      ret (py_eq_str setup_status Status_SUCCEEDED)
  else ret false.

(** One health check of the setup loop, from [try] to the end of the [else]
    branch: [true] stands for [break]. *)
Definition setup_poll (self : QueueWorker) (p : health_poll) : M bool :=
  got <- try_except
           (resp <- requests_get (cog_http_base self ++ "/health-check")%string
                      (health_result p) (during_health p) ;;
            ret (Some resp))
           is_RequestException
           (fun _ => ret None) ;;
  match got with
  | None => ret false
  | Some resp =>
      if status_code resp =? 200 then
        body <- resp_json resp ;;
        ok <- setup_succeeded body ;;
        if ok then
          log_info "model container completed setup" ;; ret true
        else ret false
      else ret false
  end.

(** The first loop of [start]. *)
Fixpoint setup_loop (self : QueueWorker) (polls : list health_poll)
  (setup_poll_count : Z) : M unit :=
  stop <- shutdown_event_is_set ;;
  if stop then ret tt
  else
    match polls with
    | [] => pend
    | p :: rest =>
        ready <- setup_poll self p ;;
        if ready then ret tt
        else
          let setup_poll_count := setup_poll_count + 1 in
          (if setup_poll_count mod liveness_period =? 0
           then log_info "waiting for model container to complete setup"
           else ret tt) ;;
          time_sleep SETUP_POLL_INTERVAL ;;
          setup_loop self rest setup_poll_count
    end.

(** The second loop of [start].  Nothing orders the test of the flag and the
    call of [redis_consumer.get()] in [handle_message] with respect to the
    signal handler, so the environment may act between them ([before_get]). *)
Fixpoint main_loop (self : QueueWorker) (js : list job_script) : M unit :=
  stop <- shutdown_event_is_set ;;
  if stop then ret tt
  else
    match js with
    | [] => pend
    | j :: rest =>
        env_step (before_get j) ;;
        try_except (handle_message self j) is_Exception
          (fun e => log_exception "failed to handle message" e) ;;
        main_loop self rest
    end.

Definition start (self : QueueWorker) (s : run_script) : M unit :=
  setup_loop self (setup_polls s) 0 ;;
  main_loop self (jobs s) ;;
  log_info "shutting down worker: bye bye!".

(** ** A quiet environment *)

Definition idle : world :=
  {| prediction_event := false; shutdown_event := false;
     pipe_inbox := []; pipe_peer_inbox := [] |}.

Definition completes : env_act := [FireComplete].

Definition terminates : env_act := [FireShutdown].

Definition answer (code : Z) : http_result :=
  Response {| status_code := code; body := None |}.

Definition tick (a : env_act) : wait_tick :=
  {| during_wait := a; cancel_requested := false;
     cancel_result := Unreachable; during_cancel := quiet |}.

Definition p1_fields : list (string * json) :=
  [("id", JStr "p1"); ("cancel_key", JStr "c1");
   ("input", JObj [("prompt", JStr "hello")])].

Definition p1 : json := JObj p1_fields.

Definition healthy : http_result :=
  Response
    {| status_code := 200;
       body := Some (JObj [("status", JStr "healthy");
                           ("setup", JObj [("status", JStr "succeeded")])]) |}.

(** The queue yields [p1] and the model container accepts it. *)
Definition one_job (ts : list wait_tick) : job_script :=
  {| before_get := quiet;
     get_res := GetMessage "1-0" (Some p1); during_get := quiet;
     post_res := answer 202; during_post := quiet; ticks := ts |}.

(** ** Views of an event log *)

Definition is_ack (e : event) : bool :=
  match e with
  | RedisAck _ => true
  | _ => false
  end.

Definition is_get (e : event) : bool :=
  match e with
  | RedisGet => true
  | _ => false
  end.

Definition is_poll (e : event) : bool :=
  match e with
  | PredictionWait _ => true
  | _ => false
  end.

Definition is_completion_seen (e : event) : bool :=
  match e with
  | PredictionWait true => true
  | _ => false
  end.

Definition is_shutdown_seen (e : event) : bool :=
  match e with
  | ShutdownIsSet true => true
  | _ => false
  end.

Definition is_shutdown_fired (e : event) : bool :=
  match e with
  | EnvShutdown => true
  | _ => false
  end.

Definition is_pipe_event (e : event) : bool :=
  match e with
  | PipePoll _ | PipeRecv _ | PipeSend _ => true
  | _ => false
  end.

(** Was the handle acknowledged? *)
Definition acked (evs : list event) : bool := existsb is_ack evs.

(** Did the bounded wait return true before the first event that [stop]
    recognises? *)
Fixpoint completion_before (stop : event -> bool) (evs : list event) : bool :=
  match evs with
  | [] => false
  | e :: rest =>
      if is_completion_seen e then true
      else if stop e then false
      else completion_before stop rest
  end.

(** The descriptors written to the pipe, in order. *)
Fixpoint pipe_sends (evs : list event) : list json :=
  match evs with
  | [] => []
  | PipeSend m :: rest => m :: pipe_sends rest
  | _ :: rest => pipe_sends rest
  end.

(** The bodies posted to the model container, in order. *)
Fixpoint posted (evs : list event) : list (string * json) :=
  match evs with
  | [] => []
  | HttpPost url (Some payload) _ :: rest => (url, payload) :: posted rest
  | _ :: rest => posted rest
  end.

(** No dequeue starts while the shutdown flag is set; [flag] is the state of
    the flag before the first event. *)
Fixpoint no_get_once_set (flag : bool) (evs : list event) : bool :=
  match evs with
  | [] => true
  | RedisGet :: rest => negb flag && no_get_once_set flag rest
  | EnvShutdown :: rest => no_get_once_set true rest
  | _ :: rest => no_get_once_set flag rest
  end.

(** No dequeue starts once the worker has found the shutdown flag set; [seen]
    tells whether it had before the first event. *)
Fixpoint no_get_once_seen (seen : bool) (evs : list event) : bool :=
  match evs with
  | [] => true
  | RedisGet :: rest => negb seen && no_get_once_seen seen rest
  | ShutdownIsSet true :: rest => no_get_once_seen true rest
  | _ :: rest => no_get_once_seen seen rest
  end.

(** The exception with which a call of the HTTP client followed by
    [raise_for_status] ends, if it ends with one. *)
Definition http_failure (res : http_result) : option exn :=
  match res with
  | Unreachable => Some RequestException
  | Response resp =>
      if (400 <=? status_code resp) && (status_code resp <? 600)
      then Some (HTTPError (status_code resp))
      else None
  end.

(** [handle_message] up to and including the [raise_for_status] of the
    submission: [None] for an empty stream, otherwise the message id and the
    prediction id the rest of the function works with.  [handle_message_split]
    below shows that [handle_message] is this followed by the polling loop and
    the acknowledgement. *)
Definition dispatch (self : QueueWorker) (j : job_script)
  : M (option (string * json)) :=
  got <- try_except
           (x <- redis_consumer_get j ;; ret (Some x))
           is_EmptyRedisStream
           (fun _ => time_sleep POLL_INTERVAL ;; ret None) ;;
  match got with
  | None => ret None
  | Some (message_id, message_json) =>
      message <- json_loads message_json ;;
      cancel_key <- py_get message "cancel_key" ;;
      redis_consumer_checker cancel_key ;;
      prediction_id <- py_getitem message "id" ;;
      clear_prediction_request_pipe ;;
      prediction_request_pipe_send message ;;
      prediction_event_clear ;;
      message <- py_setitem message "webhook" (JStr webhook_url) ;;
      resp <- cog_client_post (cog_http_base self ++ "/predictions")%string
                (Some message) [("Prefer", "respond-async")]
                (post_res j) (during_post j) ;;
      raise_for_status resp ;;
      ret (Some (message_id, prediction_id))
  end.

Definition supervise (self : QueueWorker) (j : job_script)
  (got : option (string * json)) : M unit :=
  match got with
  | None => ret tt
  | Some (message_id, prediction_id) =>
      completed <- wait_loop self prediction_id (ticks j) ;;
      if completed then redis_consumer_ack message_id else ret tt
  end.

(** ** What a call did, in closed form *)

(** [evs] followed by what a call did. *)
Definition after {A} (evs : list event) (x : outcome A * world * list event)
  : outcome A * world * list event :=
  match x with
  | (r, w, t) => (r, w, evs ++ t)
  end.

(** The events of [clear_prediction_request_pipe] on a given inbox. *)
Definition drain_events (inbox : list json) : list event :=
  flat_map (fun m => [PipePoll true; PipeRecv m]) inbox ++ [PipePoll false].

Definition with_inbox (w : world) (inbox : list json) : world :=
  {| prediction_event := prediction_event w;
     shutdown_event := shutdown_event w;
     pipe_inbox := inbox;
     pipe_peer_inbox := pipe_peer_inbox w |}.

(** The world in which the submission of [message] returns. *)
Definition submitted_world (j : job_script) (message : json) (w : world)
  : world :=
  let w1 := env_apply (during_get j) w in
  env_apply (during_post j)
    {| prediction_event := false;
       shutdown_event := shutdown_event w1;
       pipe_inbox := [];
       pipe_peer_inbox := pipe_peer_inbox w1 ++ [message] |}.

(** The events of [handle_message] up to the submission of a message that is
    a JSON object. *)
Definition submission_events (self : QueueWorker) (j : job_script)
  (fields : list (string * json)) (w : world) : list event :=
  RedisGet :: env_events (during_get j) ++
  RedisChecker (match dict_get fields "cancel_key" with
                | Some v => v
                | None => JNull
                end) ::
  drain_events (pipe_inbox (env_apply (during_get j) w)) ++
  [PipeSend (JObj fields);
   PredictionClear;
   HttpPost (cog_http_base self ++ "/predictions")%string
     (Some (JObj (dict_set fields "webhook" (JStr webhook_url))))
     [("Prefer", "respond-async")]] ++
  env_events (during_post j).

(** Events that only the environment produces. *)
Definition is_env_event (e : event) : bool :=
  match e with
  | EnvComplete | EnvShutdown => true
  | _ => false
  end.

(** [m] produces only events that [P] accepts, and the shutdown flag after
    [m] is the flag before it or-ed with the firings that [m] logged. *)
Definition emits {A} (P : event -> bool) (m : M A) : Prop :=
  forall w,
    forallb P (events (m w)) = true /\
    shutdown_event (final (m w)) =
    shutdown_event w || existsb is_shutdown_fired (events (m w)).

(** The events of [handle_message] between the dequeue and the polling
    loop. *)
Definition is_submission_event (e : event) : bool :=
  match e with
  | EnvComplete | EnvShutdown | RedisChecker _ | PipePoll _ | PipeRecv _
  | PipeSend _ | PredictionClear | HttpPost _ _ _ | Sleep _ => true
  | _ => false
  end.

(** The events of the polling loop. *)
Definition is_supervision_event (e : event) : bool :=
  match e with
  | EnvComplete | EnvShutdown | PredictionWait _ | RedisShouldCancel _
  | HttpPost _ None _ | ShutdownIsSet _ => true
  | _ => false
  end.

(** Events other than an observed completion and an observed shutdown. *)
Definition inert (e : event) : bool :=
  negb (is_completion_seen e) && negb (is_shutdown_seen e).

(** The exception with which the cancellation request of a pass ends, if it
    ends with one: the URL cannot be built from an id that is not a string,
    the client raises, or the response is an error. *)
Definition cancel_failure (prediction_id : json) (res : http_result)
  : option exn :=
  match prediction_id with
  | JStr _ => http_failure res
  | _ => Some TypeError
  end.

(** [evs] ends with [last], and nothing before it is an observed completion
    or an observed shutdown. *)
Definition ends_in (last : event) (evs : list event) : Prop :=
  exists pre, evs = pre ++ [last] /\ forallb inert pre = true.

(** The events of the setup loop. *)
Definition is_setup_event (e : event) : bool :=
  match e with
  | EnvComplete | EnvShutdown | ShutdownIsSet _ | HttpGet _ | Sleep _
  | LogInfo _ => true
  | _ => false
  end.

Definition not_get (e : event) : bool := negb (is_get e).

(** What one answer to the health check means for the setup loop: [break],
    another pass, or an exception that nothing in [start] catches. *)
Inductive poll_verdict : Type :=
| Ready
| NotReady
| Crash (e : exn).

Definition health_verdict (res : http_result) : poll_verdict :=
  match res with
  | Unreachable => NotReady
  | Response resp =>
      if status_code resp =? 200 then
        match body resp with
        | None => Crash JSONDecodeError
        | Some b =>
            match result (setup_succeeded b idle) with
            | Ret true => Ready
            | Ret false => NotReady
            | Exc e => Crash e
            | Pend => NotReady
            end
        end
      else NotReady
  end.

(** The liveness message of the setup loop after [count] passes. *)
Definition liveness_events (count : Z) : list event :=
  if count mod liveness_period =? 0
  then [LogInfo "waiting for model container to complete setup"]
  else [].

(** The number of bounded waits in an event log. *)
Definition polls (evs : list event) : nat :=
  List.length (filter is_poll evs).

(** The events of a pass whose cancellation request fails, and the world it
    leaves. *)
Definition failed_cancel_events (self : QueueWorker) (prediction_id : json)
  (t : wait_tick) : list event :=
  env_events (during_wait t) ++
  PredictionWait false :: RedisShouldCancel true ::
  match prediction_id with
  | JStr s =>
      HttpPost ((cog_http_base self ++ "/predictions/") ++ s ++ "/cancel")%string
        None []
      :: env_events (during_cancel t)
  | _ => []
  end.

Definition failed_cancel_world (prediction_id : json) (t : wait_tick)
  (w : world) : world :=
  match prediction_id with
  | JStr _ => env_apply (during_cancel t) (env_apply (during_wait t) w)
  | _ => env_apply (during_wait t) w
  end.

(** ** The claims that the code does not meet, as they are worded *)

(** "Acknowledged if and only if [predictionComplete] was observed true
    before the shutdown signal fired." *)
Definition acked_iff_completed_before_shutdown_fired (evs : list event) : Prop :=
  acked evs = completion_before is_shutdown_fired evs.

(** "Once [shutdownRequested] is set, a currently dispatched job is abandoned
    without acknowledge." *)
Definition abandoned_once_shutdown_fired (evs : list event) : Prop :=
  existsb is_shutdown_fired evs = true -> acked evs = false.

(** "Once [shutdownRequested] is true, no further dequeue occurs." *)
Definition no_dequeue_once_shutdown_fired (evs : list event) : Prop :=
  no_get_once_set false evs = true.

(** "Job submission to the engine fails (non-2xx after client-level
    retries)": the client raised, or the status of the answer is outside
    200..299. *)
Definition non_2xx (res : http_result) : bool :=
  match res with
  | Unreachable => true
  | Response resp =>
      negb ((200 <=? status_code resp) && (status_code resp <? 300))
  end.

(** "When job submission fails (non-2xx), the job is not acknowledged and the
    iteration ends in error." *)
Definition non_2xx_ends_in_error (j : job_script)
  (x : outcome unit * world * list event) : Prop :=
  non_2xx (post_res j) = true ->
  acked (events x) = false /\ exists e, result x = Exc e.

(** "A failed cancellation does not change state: the loop keeps polling."
    The polling loop does not end with the failure. *)
Definition stays_dispatched (x : outcome bool * world * list event) : Prop :=
  match result x with
  | Exc _ => False
  | _ => True
  end.

(** "The only exits from DISPATCHED are the [predictionComplete] signal or the
    shutdown signal." *)
Definition left_by_signal (x : outcome bool * world * list event) : Prop :=
  match result x with
  | Pend => True
  | _ =>
      existsb is_completion_seen (events x) ||
      existsb is_shutdown_seen (events x) = true
  end.

(** "The descriptor the channel receives has its webhook field overwritten
    with the worker's own callback address." *)
Definition sends_overwritten_descriptor (fields : list (string * json))
  (evs : list event) : Prop :=
  pipe_sends evs = [JObj (dict_set fields "webhook" (JStr webhook_url))].

(** "After the write the sibling never has two pending messages." *)
Definition at_most_one_pending (w : world) : Prop :=
  (List.length (pipe_peer_inbox w) <= 1)%nat.

(** ** Scenarios *)

Definition worker : QueueWorker := QueueWorker_init 60.

Definition p0 : json :=
  JObj [("id", JStr "p0"); ("cancel_key", JStr "c0");
        ("input", JObj [("prompt", JNum 7)])].

(** The termination signal, then the completion. *)
Definition shutdown_then_completion : env_act := [FireShutdown; FireComplete].

(** The termination signal arrives while the submission is in flight; the
    prediction completes within the first poll interval. *)
Definition shutdown_during_submission : job_script :=
  {| before_get := quiet;
     get_res := GetMessage "1-0" (Some p1); during_get := quiet;
     post_res := answer 202; during_post := terminates;
     ticks := [tick completes] |}.

(** A prediction is running; the termination signal arrives and, within the
    same poll interval, the completion. *)
Definition shutdown_and_completion : job_script :=
  one_job [tick quiet; tick shutdown_then_completion].

(** The termination signal arrives when the main loop has tested the flag and
    has not yet called [redis_consumer.get()]. *)
Definition signal_before_dequeue : job_script :=
  {| before_get := terminates;
     get_res := GetMessage "1-0" (Some p1); during_get := quiet;
     post_res := answer 202; during_post := quiet;
     ticks := [tick completes] |}.

(** The cancellation is requested and the model container answers 404. *)
Definition cancel_refused : wait_tick :=
  {| during_wait := quiet; cancel_requested := true;
     cancel_result := answer 404; during_cancel := quiet |}.

(** The cancellation is requested and the request times out. *)
Definition cancel_times_out : wait_tick :=
  {| during_wait := quiet; cancel_requested := true;
     cancel_result := Unreachable; during_cancel := quiet |}.

(** The model container rejects the submission of [p0]. *)
Definition rejected_job : job_script :=
  {| before_get := quiet;
     get_res := GetMessage "0-1" (Some p0); during_get := quiet;
     post_res := answer 422; during_post := quiet; ticks := [] |}.

(** The model container answers the submission of [p1] with 304, and the
    completion signal arrives during the first bounded wait. *)
Definition unmodified_job : job_script :=
  {| before_get := quiet;
     get_res := GetMessage "1-0" (Some p1); during_get := quiet;
     post_res := answer 304; during_post := quiet;
     ticks := [tick completes] |}.

Definition empty_stream : job_script :=
  {| before_get := quiet;
     get_res := GetEmpty; during_get := quiet;
     post_res := Unreachable; during_post := quiet; ticks := [] |}.

Definition broken_stream : job_script :=
  {| before_get := quiet;
     get_res := GetFails; during_get := quiet;
     post_res := Unreachable; during_post := quiet; ticks := [] |}.

Definition unreachable_poll : health_poll :=
  {| health_result := Unreachable; during_health := quiet |}.

Definition healthy_poll : health_poll :=
  {| health_result := healthy; during_health := quiet |}.

(** ** Further views of an event log *)

(** The time spent in [time.sleep], in milliseconds. *)
Fixpoint slept (evs : list event) : Z :=
  match evs with
  | [] => 0
  | Sleep milliseconds :: rest => milliseconds + slept rest
  | _ :: rest => slept rest
  end.

(** The number of dequeues. *)
Definition gets (evs : list event) : nat := List.length (filter is_get evs).

Definition not_sleep (e : event) : bool :=
  match e with
  | Sleep _ => false
  | _ => true
  end.

(** The events of an iteration of the main loop that finds the stream
    empty. *)
Definition is_idle_event (e : event) : bool :=
  match e with
  | EnvComplete | EnvShutdown | ShutdownIsSet _ | RedisGet | Sleep _ => true
  | _ => false
  end.

Definition is_completion_fired (e : event) : bool :=
  match e with
  | EnvComplete => true
  | _ => false
  end.

(** A request to cancel: the only [post] without a body. *)
Definition is_cancel_post (e : event) : bool :=
  match e with
  | HttpPost _ None _ => true
  | _ => false
  end.

(** [should_cancel()] returned true. *)
Definition is_cancel_wanted (e : event) : bool :=
  match e with
  | RedisShouldCancel true => true
  | _ => false
  end.

(** [cog_client.post(cog_http_base + "/predictions/" + s + "/cancel",
    timeout=1)] *)
Definition cancel_call (self : QueueWorker) (s : string) : event :=
  HttpPost ((cog_http_base self ++ "/predictions/") ++ s ++ "/cancel")%string
    None [].

Definition is_health_check (e : event) : bool :=
  match e with
  | HttpGet _ => true
  | _ => false
  end.

Definition is_liveness_log (e : event) : bool :=
  match e with
  | LogInfo text =>
      String.eqb text "waiting for model container to complete setup"
  | _ => false
  end.

(** The URL of an HTTP request. *)
Definition request_url (e : event) : option string :=
  match e with
  | HttpGet url => Some url
  | HttpPost url _ _ => Some url
  | _ => None
  end.

(** The requests, sleeps and log entries that occur in the text of
    [QueueWorker]; every other kind of event is let through. *)
Definition performs (self : QueueWorker) (e : event) : Prop :=
  match e with
  | HttpGet url => url = (cog_http_base self ++ "/health-check")%string
  | HttpPost url (Some payload) headers =>
      url = (cog_http_base self ++ "/predictions")%string /\
      headers = [("Prefer", "respond-async")] /\
      exists fields,
        payload = JObj fields /\
        dict_get fields "webhook" = Some (JStr webhook_url)
  | HttpPost url None headers =>
      headers = [] /\
      exists s,
        url = ((cog_http_base self ++ "/predictions/") ++ s ++ "/cancel")%string
  | Sleep milliseconds => milliseconds = 100
  | LogInfo text =>
      text = "model container completed setup" \/
      text = "waiting for model container to complete setup" \/
      text = "shutting down worker: bye bye!"
  | LogException text _ => text = "failed to handle message"
  | _ => True
  end.

(** ** Messages and health answers by their shape *)

Definition is_str (x : json) : bool :=
  match x with
  | JStr _ => true
  | _ => false
  end.

Definition is_dict (x : json) : bool :=
  match x with
  | JObj _ => true
  | _ => false
  end.

Definition finds_empty (j : job_script) : bool :=
  match get_res j with
  | GetEmpty => true
  | _ => false
  end.

(** The exception with which [handle_message] leaves the lines between the
    dequeue and the pipe, if it does: [json.loads] fails, [message.get] is
    called on something that is not a [dict], or the key ["id"] is missing. *)
Definition message_error (message_json : option json) : option exn :=
  match message_json with
  | None => Some JSONDecodeError
  | Some (JObj fields) =>
      match dict_get fields "id" with
      | Some _ => None
      | None => Some (KeyError "id")
      end
  | Some _ => Some AttributeError
  end.

(** The call of [redis_consumer.checker], which comes before the lookup of
    ["id"]. *)
Definition checker_events (message_json : option json) : list event :=
  match message_json with
  | Some (JObj fields) =>
      [RedisChecker (match dict_get fields "cancel_key" with
                     | Some v => v
                     | None => JNull
                     end)]
  | _ => []
  end.

(** The answers to the health check after which the setup loop counts the
    poll, sleeps and asks again: no answer, a status code other than 200, a
    status other than ["healthy"], a [setup] that is [None], a setup status
    other than [Status.SUCCEEDED]. *)
Inductive unready : http_result -> Prop :=
| unready_unreachable : unready Unreachable
| unready_code resp :
    status_code resp <> 200 -> unready (Response resp)
| unready_status fields status :
    dict_get fields "status" = Some status ->
    py_eq_str status "healthy" = false ->
    unready (Response {| status_code := 200; body := Some (JObj fields) |})
| unready_setup_none fields :
    dict_get fields "status" = Some (JStr "healthy") ->
    dict_get fields "setup" = Some JNull ->
    unready (Response {| status_code := 200; body := Some (JObj fields) |})
| unready_setup_status fields sfields status :
    dict_get fields "status" = Some (JStr "healthy") ->
    dict_get fields "setup" = Some (JObj sfields) ->
    dict_get sfields "status" = Some status ->
    py_eq_str status Status_SUCCEEDED = false ->
    unready (Response {| status_code := 200; body := Some (JObj fields) |}).

(** The bodies of a 200 answer on which [resp.json()] or one of the
    subscripts of the [else] branch raises, with the exception. *)
Inductive malformed_body : option json -> exn -> Prop :=
| body_not_json : malformed_body None JSONDecodeError
| body_not_dict v :
    is_dict v = false -> malformed_body (Some v) TypeError
| body_without_status fields :
    dict_get fields "status" = None ->
    malformed_body (Some (JObj fields)) (KeyError "status")
| body_without_setup fields :
    dict_get fields "status" = Some (JStr "healthy") ->
    dict_get fields "setup" = None ->
    malformed_body (Some (JObj fields)) (KeyError "setup")
| setup_not_dict fields setup :
    dict_get fields "status" = Some (JStr "healthy") ->
    dict_get fields "setup" = Some setup ->
    py_is_none setup = false -> is_dict setup = false ->
    malformed_body (Some (JObj fields)) TypeError
| setup_without_status fields sfields :
    dict_get fields "status" = Some (JStr "healthy") ->
    dict_get fields "setup" = Some (JObj sfields) ->
    dict_get sfields "status" = None ->
    malformed_body (Some (JObj fields)) (KeyError "status").

(** ** Further worlds and scenarios *)

Definition with_prediction_event (b : bool) (w : world) : world :=
  {| prediction_event := b;
     shutdown_event := shutdown_event w;
     pipe_inbox := pipe_inbox w;
     pipe_peer_inbox := pipe_peer_inbox w |}.



(** The cancellation is requested and the model container accepts it. *)
Definition cancel_accepted : wait_tick :=
  {| during_wait := quiet; cancel_requested := true;
     cancel_result := answer 200; during_cancel := quiet |}.

(** A message whose id is a number. *)
Definition numbered_job (ts : list wait_tick) : job_script :=
  {| before_get := quiet;
     get_res := GetMessage "2-0" (Some (JObj [("id", JNum 7)]));
     during_get := quiet; post_res := answer 202; during_post := quiet;
     ticks := ts |}.

(** A message without an id. *)
Definition nameless_job : job_script :=
  {| before_get := quiet;
     get_res := GetMessage "3-0" (Some (JObj [("cancel_key", JStr "c3")]));
     during_get := quiet; post_res := answer 202; during_post := quiet;
     ticks := [tick completes] |}.

(** A message that names a webhook of its own. *)
Definition hooked_fields : list (string * json) :=
  [("id", JStr "p1"); ("webhook", JStr "https://example.org/hook");
   ("input", JNum 1)].

Definition hooked_job : job_script :=
  {| before_get := quiet;
     get_res := GetMessage "1-0" (Some (JObj hooked_fields));
     during_get := quiet; post_res := answer 202; during_post := quiet;
     ticks := [tick completes] |}.

(** Two messages wait at the worker's end of the pipe. *)
Definition cluttered : world :=
  {| prediction_event := false; shutdown_event := false;
     pipe_inbox := [JStr "late"; JNum 2]; pipe_peer_inbox := [] |}.


(** The model container is up and its setup has not finished. *)
Definition starting_poll : health_poll :=
  {| health_result :=
       Response {| status_code := 200;
                   body := Some (JObj [("status", JStr "starting")]) |};
     during_health := quiet |}.

(** The model container says healthy and says nothing about its setup. *)
Definition setupless_poll : health_poll :=
  {| health_result :=
       Response {| status_code := 200;
                   body := Some (JObj [("status", JStr "healthy")]) |};
     during_health := quiet |}.

(** ** The cross-process channel *)

(** [cog/server/connection.py] ([AsyncConnection]) and
    [cog/server/eventtypes.py] are not part of the sources at hand; only the
    test that uses them is.  This section follows the spec: a binary-framed
    transport that carries [(correlationId, event)] pairs, with one canonical
    framing and encoding step shared by a blocking and a suspension-based
    call convention.  There is one serialiser ([dumps], [loads]), one framing
    ([frame], [unframe]: a length header followed by the payload), a byte
    stream between the two ends, and the two conventions on top: a blocking
    reader that is handed the stream, and a reader that is resumed once per
    delivered chunk and suspends until a whole frame has arrived. *)

(** Modelled from the spec: [eventtypes] is missing.  [EventPayload] is the
    closed tagged union of the spec, with the two variants the spec names,
    "prediction output" and "prediction log". *)
Inductive EventPayload : Type :=
| PredictionOutput (payload : json)
| PredictionLog (message : string).

(** Modelled from the spec: [eventtypes] and [connection] are missing.  A
    [ChannelMessage] is a [(correlationId, event)] pair. *)
Definition ChannelMessage : Type := (string * EventPayload)%type.

Definition byte_of_N (n : N) : byte :=
  match Byte.of_N n with
  | Some b => b
  | None => "000"%byte
  end.

(** Lengths and magnitudes: seven bits per byte, least significant group
    first, the high bit set on every byte but the last. *)
Fixpoint encode_N_fuel (fuel : nat) (n : N) : list byte :=
  match fuel with
  | O => [byte_of_N (n mod 128)]
  | S fuel' =>
      if (n <? 128)%N then [byte_of_N n]
      else byte_of_N (128 + n mod 128) :: encode_N_fuel fuel' (n / 128)
  end.

Definition encode_N (n : N) : list byte :=
  encode_N_fuel (N.to_nat (N.size n)) n.

Fixpoint decode_N (bs : list byte) : option (N * list byte) :=
  match bs with
  | [] => None
  | b :: rest =>
      let v := Byte.to_N b in
      if (v <? 128)%N then Some (v, rest)
      else
        match decode_N rest with
        | Some (hi, rest') => Some ((v - 128) + 128 * hi, rest')%N
        | None => None
        end
  end.

Definition encode_Z (n : Z) : list byte :=
  (if n <? 0 then "001"%byte else "000"%byte) :: encode_N (Z.abs_N n).

Definition decode_Z (bs : list byte) : option (Z * list byte) :=
  match bs with
  | [] => None
  | sign :: rest =>
      match decode_N rest with
      | Some (m, rest') =>
          Some (if Byte.eqb sign "001"%byte then - Z.of_N m else Z.of_N m, rest')
      | None => None
      end
  end.

Definition encode_str (s : string) : list byte :=
  let bs := list_byte_of_string s in
  encode_N (N.of_nat (List.length bs)) ++ bs.

Definition decode_str (bs : list byte) : option (string * list byte) :=
  match decode_N bs with
  | Some (n, rest) =>
      let n := N.to_nat n in
      if (List.length rest <? n)%nat then None
      else Some (string_of_list_byte (firstn n rest), skipn n rest)
  | None => None
  end.

Definition tag_null : byte := "n"%byte.
Definition tag_true : byte := "t"%byte.
Definition tag_false : byte := "f"%byte.
Definition tag_num : byte := "i"%byte.
Definition tag_str : byte := "s"%byte.
Definition tag_arr : byte := "l"%byte.
Definition tag_obj : byte := "d"%byte.
Definition tag_output : byte := "O"%byte.
Definition tag_log : byte := "L"%byte.

Fixpoint encode_json (v : json) : list byte :=
  match v with
  | JNull => [tag_null]
  | JBool b => [if b then tag_true else tag_false]
  | JNum n => tag_num :: encode_Z n
  | JStr s => tag_str :: encode_str s
  | JArr items =>
      tag_arr :: encode_N (N.of_nat (List.length items)) ++
      (fix encode_items (xs : list json) : list byte :=
         match xs with
         | [] => []
         | x :: rest => encode_json x ++ encode_items rest
         end) items
  | JObj fields =>
      tag_obj :: encode_N (N.of_nat (List.length fields)) ++
      (fix encode_fields (kvs : list (string * json)) : list byte :=
         match kvs with
         | [] => []
         | (k, x) :: rest => encode_str k ++ encode_json x ++ encode_fields rest
         end) fields
  end.

Fixpoint encode_items (xs : list json) : list byte :=
  match xs with
  | [] => []
  | x :: rest => encode_json x ++ encode_items rest
  end.

Fixpoint encode_fields (kvs : list (string * json)) : list byte :=
  match kvs with
  | [] => []
  | (k, x) :: rest => encode_str k ++ encode_json x ++ encode_fields rest
  end.

Section Decoders.
Variable decode : list byte -> option (json * list byte).

Fixpoint decode_items (n : nat) (bs : list byte)
  : option (list json * list byte) :=
  match n with
  | O => Some ([], bs)
  | S n' =>
      match decode bs with
      | Some (x, rest) =>
          match decode_items n' rest with
          | Some (xs, rest') => Some (x :: xs, rest')
          | None => None
          end
      | None => None
      end
  end.

Fixpoint decode_fields (n : nat) (bs : list byte)
  : option (list (string * json) * list byte) :=
  match n with
  | O => Some ([], bs)
  | S n' =>
      match decode_str bs with
      | Some (k, rest) =>
          match decode rest with
          | Some (x, rest') =>
              match decode_fields n' rest' with
              | Some (kvs, rest'') => Some ((k, x) :: kvs, rest'')
              | None => None
              end
          | None => None
          end
      | None => None
      end
  end.
End Decoders.

Fixpoint decode_json (fuel : nat) (bs : list byte) : option (json * list byte) :=
  match fuel with
  | O => None
  | S fuel' =>
      match bs with
      | [] => None
      | tag :: rest =>
          if Byte.eqb tag tag_null then Some (JNull, rest)
          else if Byte.eqb tag tag_true then Some (JBool true, rest)
          else if Byte.eqb tag tag_false then Some (JBool false, rest)
          else if Byte.eqb tag tag_num then
            match decode_Z rest with
            | Some (n, rest') => Some (JNum n, rest')
            | None => None
            end
          else if Byte.eqb tag tag_str then
            match decode_str rest with
            | Some (s, rest') => Some (JStr s, rest')
            | None => None
            end
          else if Byte.eqb tag tag_arr then
            match decode_N rest with
            | Some (n, rest') =>
                match decode_items (decode_json fuel') (N.to_nat n) rest' with
                | Some (xs, rest'') => Some (JArr xs, rest'')
                | None => None
                end
            | None => None
            end
          else if Byte.eqb tag tag_obj then
            match decode_N rest with
            | Some (n, rest') =>
                match decode_fields (decode_json fuel') (N.to_nat n) rest' with
                | Some (kvs, rest'') => Some (JObj kvs, rest'')
                | None => None
                end
            | None => None
            end
          else None
      end
  end.

Definition encode_event (e : EventPayload) : list byte :=
  match e with
  | PredictionOutput payload => tag_output :: encode_json payload
  | PredictionLog message => tag_log :: encode_str message
  end.

Definition decode_event (bs : list byte) : option (EventPayload * list byte) :=
  match bs with
  | [] => None
  | tag :: rest =>
      if Byte.eqb tag tag_output then
        match decode_json (S (List.length rest)) rest with
        | Some (payload, rest') => Some (PredictionOutput payload, rest')
        | None => None
        end
      else if Byte.eqb tag tag_log then
        match decode_str rest with
        | Some (message, rest') => Some (PredictionLog message, rest')
        | None => None
        end
      else None
  end.

(** Modelled from the spec: the serialiser of [connection] is missing.
    [dumps] and [loads] are the one encoding of a message that both call
    conventions share; tag and payload shape are written out in full. *)
Definition dumps (m : ChannelMessage) : list byte :=
  encode_str (fst m) ++ encode_event (snd m).

Definition loads (bs : list byte) : option ChannelMessage :=
  match decode_str bs with
  | Some (correlation_id, rest) =>
      match decode_event rest with
      | Some (e, []) => Some (correlation_id, e)
      | _ => None
      end
  | None => None
  end.

(** Modelled from the spec: the framing of [connection] is missing.  The one
    framing is the number of payload bytes, then the payload. *)
Definition header (buf : list byte) : list byte :=
  encode_N (N.of_nat (List.length buf)).

Definition frame (buf : list byte) : list byte := header buf ++ buf.

(** The first frame of a buffer and what follows it; [None] while the frame
    is incomplete. *)
Definition unframe (buffer : list byte) : option (list byte * list byte) :=
  match decode_N buffer with
  | Some (n, rest) =>
      let n := N.to_nat n in
      if (List.length rest <? n)%nat then None
      else Some (firstn n rest, skipn n rest)
  | None => None
  end.

(** Modelled from the spec: the blocking convention of the channel ([c2] in
    [test_async_connection_rt]).  [send] hands the frame to the transport in
    one write; [recv] blocks until the stream holds a whole frame, so it is a
    function of the stream. *)
Definition Connection_send (m : ChannelMessage) : list (list byte) :=
  [frame (dumps m)].

Definition Connection_recv (stream : list byte)
  : option (option ChannelMessage * list byte) :=
  match unframe stream with
  | Some (buf, rest) => Some (loads buf, rest)
  | None => None
  end.

(** Modelled from the spec: [AsyncConnection] is missing.  In the
    suspension-based convention [send] queues the header and the payload on
    the transport's buffer and returns; [recv] is a coroutine: each time the
    scheduler reports the transport readable it takes the chunk that has
    arrived, and it suspends again unless its buffer now holds a frame. *)
Definition AsyncConnection_send (m : ChannelMessage) : list (list byte) :=
  [header (dumps m); dumps m].

Inductive awaited (A : Type) : Type :=
| Suspended (buffer : list byte)
| Resumed (a : A).
Arguments Suspended {A} buffer.
Arguments Resumed {A} a.

Fixpoint recv_bytes (buffer : list byte) (chunks : list (list byte))
  : awaited (list byte * list byte) :=
  match unframe buffer with
  | Some fr => Resumed fr
  | None =>
      match chunks with
      | [] => Suspended buffer
      | chunk :: later => recv_bytes (buffer ++ chunk) later
      end
  end.

Definition AsyncConnection_recv (chunks : list (list byte))
  : awaited (option ChannelMessage * list byte) :=
  match recv_bytes [] chunks with
  | Resumed (buf, rest) => Resumed (loads buf, rest)
  | Suspended buffer => Suspended buffer
  end.

(** The item of [test_async_connection_rt]. *)
Definition item : ChannelMessage :=
  ("asdf", PredictionOutput (JObj [("x", JNum 3)])).

(** The nesting depth of a value. *)
Fixpoint json_depth (v : json) : nat :=
  match v with
  | JArr items =>
      S ((fix deepest (xs : list json) : nat :=
            match xs with
            | [] => O
            | x :: rest => Nat.max (json_depth x) (deepest rest)
            end) items)
  | JObj fields =>
      S ((fix deepest (kvs : list (string * json)) : nat :=
            match kvs with
            | [] => O
            | (_, x) :: rest => Nat.max (json_depth x) (deepest rest)
            end) fields)
  | _ => 1%nat
  end.

(** A byte that announces another byte of the same number. *)
Definition continues (b : byte) : bool := (128 <=? Byte.to_N b)%N.

Fixpoint deepest_item (xs : list json) : nat :=
  match xs with
  | [] => O
  | x :: rest => Nat.max (json_depth x) (deepest_item rest)
  end.

Fixpoint deepest_field (kvs : list (string * json)) : nat :=
  match kvs with
  | [] => O
  | (_, x) :: rest => Nat.max (json_depth x) (deepest_field rest)
  end.

(** * Properties *)

(** ** The monad *)

Lemma bind_ext {A B} (m : M A) (f g : A -> M B) (w : world) :
  (forall a w', f a w' = g a w') -> bind m f w = bind m g w.
Proof.
  intros H. unfold bind. destruct (m w) as [[[a| e |] w1] t1]; try reflexivity.
  rewrite H. reflexivity.
Qed.

Lemma bind_assoc {A B C} (m : M A) (f : A -> M B) (g : B -> M C) (w : world) :
  bind (bind m f) g w = bind m (fun a => bind (f a) g) w.
Proof.
  unfold bind. destruct (m w) as [[[a| e |] w1] t1]; try reflexivity.
  destruct (f a w1) as [[[b| e |] w2] t2]; try reflexivity.
  destruct (g b w2) as [[r w3] t3]. rewrite app_assoc. reflexivity.
Qed.

Lemma after_after {A} (t1 t2 : list event) (x : outcome A * world * list event) :
  after t1 (after t2 x) = after (t1 ++ t2) x.
Proof.
  destruct x as [[r w] t]. simpl. rewrite app_assoc. reflexivity.
Qed.

Lemma after_nil {A} (x : outcome A * world * list event) : after [] x = x.
Proof. destruct x as [[r w] t]. reflexivity. Qed.

Lemma result_after {A} (t : list event) (x : outcome A * world * list event) :
  result (after t x) = result x.
Proof. destruct x as [[r w] t']. reflexivity. Qed.

Lemma final_after {A} (t : list event) (x : outcome A * world * list event) :
  final (after t x) = final x.
Proof. destruct x as [[r w] t']. reflexivity. Qed.

Lemma events_after {A} (t : list event) (x : outcome A * world * list event) :
  events (after t x) = t ++ events x.
Proof. destruct x as [[r w] t']. reflexivity. Qed.

(** ** [handle_message] in two parts *)

Lemma handle_message_split (self : QueueWorker) (j : job_script) (w : world) :
  handle_message self j w = (got <- dispatch self j ;; supervise self j got) w.
Proof.
  unfold handle_message, dispatch. rewrite bind_assoc.
  apply bind_ext. intros [[message_id message_json]|] w0.
  2:{ unfold bind, ret, supervise. reflexivity. }
  repeat (rewrite bind_assoc; apply bind_ext; intros).
  unfold supervise, bind, ret.
  match goal with
  | |- context [wait_loop ?s ?p ?ts ?w] =>
      destruct (wait_loop s p ts w) as [[[c| e |] w2] t2]
  end; try reflexivity.
  destruct c; reflexivity.
Qed.

(** ** One pass through the polling loop *)

Lemma wait_loop_cons (self : QueueWorker) (prediction_id : json)
  (t : wait_tick) (rest : list wait_tick) (w : world) :
  wait_loop self prediction_id (t :: rest) w =
  let w1 := env_apply (during_wait t) w in
  after (env_events (during_wait t) ++ [PredictionWait (prediction_event w1)])
    (if prediction_event w1 then (Ret true, w1, [])
     else
       after [RedisShouldCancel (cancel_requested t)]
         (if cancel_requested t then
            match prediction_id with
            | JStr s =>
                let w2 := env_apply (during_cancel t) w1 in
                after (HttpPost ((cog_http_base self ++ "/predictions/")
                                 ++ s ++ "/cancel")%string None []
                       :: env_events (during_cancel t))
                  match http_failure (cancel_result t) with
                  | Some e => (Exc e, w2, [])
                  | None =>
                      after [ShutdownIsSet (shutdown_event w2)]
                        (if shutdown_event w2 then (Ret false, w2, [])
                         else wait_loop self prediction_id rest w2)
                  end
            | _ => (Exc TypeError, w1, [])
            end
          else
            after [ShutdownIsSet (shutdown_event w1)]
              (if shutdown_event w1 then (Ret false, w1, [])
               else wait_loop self prediction_id rest w1))).
Proof.
  cbn [wait_loop]. unfold prediction_event_wait, should_cancel, bind at 1 2.
  unfold env_step, emit, ret at 1. cbn zeta.
  generalize (env_apply (during_wait t) w). intros w1.
  cbn [after fst snd].
  destruct (prediction_event w1) eqn:Hp.
  - cbn. rewrite ?app_nil_r. reflexivity.
  - cbn [app]. rewrite ?app_nil_r.
    destruct (cancel_requested t) eqn:Hc.
    + destruct prediction_id;
        try (cbn -[String.append]; rewrite ?app_nil_r; reflexivity).
      unfold py_str_concat, cog_client_post, http_call, raise_for_status,
        http_failure, shutdown_event_is_set, bind, ret, emit, env_step, raise.
      generalize (env_apply (during_cancel t) w1). intros w2.
      cbn -[String.append].
      destruct (cancel_result t) as [|resp]; cbn -[String.append].
      * rewrite ?app_nil_r, <- ?app_assoc. reflexivity.
      * destruct ((400 <=? status_code resp) && (status_code resp <? 600));
          cbn -[String.append].
        -- rewrite ?app_nil_r, <- ?app_assoc. reflexivity.
        -- destruct (shutdown_event w2) eqn:Hs; cbn -[String.append].
           ++ rewrite ?app_nil_r, <- ?app_assoc. reflexivity.
           ++ destruct (wait_loop self (JStr s) rest w2) as [[r w3] t3].
              cbn -[String.append]. rewrite ?app_nil_r, <- ?app_assoc.
              reflexivity.
    + unfold shutdown_event_is_set, bind, ret. cbn.
      destruct (shutdown_event w1) eqn:Hs; cbn.
      * rewrite ?app_nil_r, <- ?app_assoc. reflexivity.
      * destruct (wait_loop self prediction_id rest w1) as [[r w3] t3].
        cbn. rewrite ?app_nil_r, <- ?app_assoc. reflexivity.
Qed.

(** ** The pipe is cleared in as many passes as the inbox has messages *)

Lemma clear_pipe_enough (fuel : nat) (w : world) :
  (List.length (pipe_inbox w) < fuel)%nat ->
  clear_pipe fuel w = (Ret tt, with_inbox w [], drain_events (pipe_inbox w)).
Proof.
  revert w. induction fuel as [|fuel IH]; intros w Hlt; [lia|].
  destruct w as [pe se inbox peer]. cbn in Hlt.
  destruct inbox as [|m inbox].
  - reflexivity.
  - cbn [clear_pipe].
    unfold bind, prediction_request_pipe_poll, prediction_request_pipe_recv.
    cbn.
    rewrite IH by (cbn in *; lia). reflexivity.
Qed.

Lemma clear_prediction_request_pipe_spec (w : world) :
  clear_prediction_request_pipe w =
  (Ret tt, with_inbox w [], drain_events (pipe_inbox w)).
Proof.
  unfold clear_prediction_request_pipe. apply clear_pipe_enough. lia.
Qed.

(** ** The submission path of [dispatch] *)

Lemma dispatch_message (self : QueueWorker) (j : job_script) (w : world)
  message_id fields prediction_id :
  get_res j = GetMessage message_id (Some (JObj fields)) ->
  dict_get fields "id" = Some prediction_id ->
  dispatch self j w =
  (match http_failure (post_res j) with
   | Some e => Exc e
   | None => Ret (Some (message_id, prediction_id))
   end,
   submitted_world j (JObj fields) w,
   submission_events self j fields w).
Proof.
  intros Hget Hid. unfold dispatch, submitted_world, submission_events.
  unfold try_except, redis_consumer_get, bind at 1 2 3 4. rewrite Hget.
  unfold emit, env_step, ret at 1 2.
  cbn -[String.append env_apply env_events clear_prediction_request_pipe bind].
  generalize (env_apply (during_get j) w). intros w1.
  unfold bind, py_getitem, py_get.
  cbn -[String.append env_apply env_events clear_prediction_request_pipe].
  rewrite Hid.
  destruct (dict_get fields "cancel_key");
    cbn -[String.append env_apply env_events clear_prediction_request_pipe];
    rewrite clear_prediction_request_pipe_spec;
    cbn -[String.append env_apply env_events];
    unfold cog_client_post, http_call, bind, emit, env_step, raise_for_status,
      http_failure;
    (destruct (post_res j) as [|resp];
     cbn -[String.append env_apply env_events];
     [|destruct ((400 <=? status_code resp) && (status_code resp <? 600));
       cbn -[String.append env_apply env_events]]);
    rewrite ?app_nil_r, <- ?app_assoc;
    cbn -[String.append env_apply env_events]; try reflexivity.
Qed.

(** ** Which events a computation can produce *)

Ltac primitive :=
  let w := fresh "w" in
  intros w; cbn; rewrite ?orb_false_r; split; reflexivity.

Section Emits.
Variable P : event -> bool.

Lemma emits_ret {A} (a : A) : emits P (ret a).
Proof. primitive. Qed.

Lemma emits_raise {A} (e : exn) : emits P (@raise A e).
Proof. primitive. Qed.

Lemma emits_pend {A} : emits P (@pend A).
Proof. primitive. Qed.

Lemma emits_emit (e : event) :
  P e = true -> is_shutdown_fired e = false -> emits P (emit e).
Proof. intros H H' w. cbn. rewrite H, H', !orb_false_r. auto. Qed.

Lemma emits_bind {A B} (m : M A) (k : A -> M B) :
  emits P m -> (forall a, emits P (k a)) -> emits P (bind m k).
Proof.
  intros Hm Hk w. unfold bind. destruct (Hm w) as [Hm1 Hm2].
  destruct (m w) as [[[a| e |] w1] t1]; cbn in *; auto.
  destruct (Hk a w1) as [Hk1 Hk2]. destruct (k a w1) as [[r w2] t2]. cbn in *.
  rewrite forallb_app, existsb_app, Hm1, Hk1, Hk2, Hm2, orb_assoc. auto.
Qed.

Hypothesis env_ok : forall e, is_env_event e = true -> P e = true.

Lemma env_events_ok (a : env_act) : forallb P (env_events a) = true.
Proof.
  induction a as [|x a IH]; [reflexivity|].
  destruct x; cbn; rewrite ?env_ok; auto.
Qed.

Lemma emits_env_step (a : env_act) : emits P (env_step a).
Proof.
  intros w. split; [apply env_events_ok|].
  unfold env_step. cbn. f_equal.
  induction a as [|x a IH]; [reflexivity|].
  destruct x; cbn; auto.
Qed.

Lemma emits_http_call ev res during :
  P ev = true -> is_shutdown_fired ev = false ->
  emits P (http_call ev res during).
Proof.
  intros H H'. unfold http_call.
  apply emits_bind; [apply emits_emit; assumption|intros _].
  apply emits_bind; [apply emits_env_step|intros _].
  destruct res; [apply emits_raise|apply emits_ret].
Qed.
End Emits.

Lemma emits_clear_pipe (fuel : nat) : emits is_submission_event (clear_pipe fuel).
Proof.
  induction fuel as [|fuel IH]; cbn [clear_pipe]; [apply emits_pend|].
  apply emits_bind.
  - intros w. unfold prediction_request_pipe_poll.
    destruct (pipe_inbox w); revert w; primitive.
  - intros [|]; [|apply emits_ret].
    apply emits_bind; [|intros _; exact IH].
    intros w. unfold prediction_request_pipe_recv.
    destruct (pipe_inbox w); revert w; primitive.
Qed.

Lemma submission_env_ok e : is_env_event e = true -> is_submission_event e = true.
Proof. destruct e; cbn; congruence. Qed.

Lemma supervision_env_ok e : is_env_event e = true -> is_supervision_event e = true.
Proof. destruct e; cbn; congruence. Qed.

Lemma env_events_fired (a : env_act) :
  existsb is_shutdown_fired (env_events a) = fires_shutdown a.
Proof.
  induction a as [|x a IH]; [reflexivity|].
  destruct x; cbn; auto.
Qed.

(** Every run of [dispatch] starts with the dequeue and goes on with events of
    the submission only. *)
Lemma dispatch_events (self : QueueWorker) (j : job_script) (w : world) :
  exists tl,
    events (dispatch self j w) = RedisGet :: tl /\
    forallb is_submission_event tl = true /\
    shutdown_event (final (dispatch self j w)) =
    shutdown_event w || existsb is_shutdown_fired tl.
Proof.
  unfold dispatch.
  set (k := fun got : option (string * option json) => _).
  assert (Hk : forall got, emits is_submission_event (k got)).
  { intros [[message_id message_json]|]; subst k; cbn beta iota;
      [|apply emits_ret].
    apply emits_bind;
      [destruct message_json; [apply emits_ret|apply emits_raise]
      |intros message].
    apply emits_bind;
      [destruct message; cbn; try apply emits_raise;
       destruct (dict_get fields "cancel_key"); apply emits_ret
      |intros ck].
    apply emits_bind; [apply emits_emit; reflexivity|intros _].
    apply emits_bind;
      [destruct message; cbn; try apply emits_raise;
       destruct (dict_get fields "id"); [apply emits_ret|apply emits_raise]
      |intros pid].
    apply emits_bind; [intros w'; apply emits_clear_pipe|intros _].
    apply emits_bind; [primitive|intros _].
    apply emits_bind; [primitive|intros _].
    apply emits_bind;
      [destruct message; cbn; try apply emits_raise; apply emits_ret
      |intros m'].
    apply emits_bind;
      [apply emits_http_call;
       [apply submission_env_ok|reflexivity|reflexivity]
      |intros resp].
    apply emits_bind; [|intros _; apply emits_ret].
    unfold raise_for_status.
    destruct ((400 <=? status_code resp) && (status_code resp <? 600));
      [apply emits_raise|apply emits_ret]. }
  clearbody k.
  unfold bind at 1, try_except, redis_consumer_get, bind at 2 3 4.
  unfold emit, env_step.
  pose proof (env_events_ok _ submission_env_ok (during_get j)) as Henv.
  pose proof (env_events_fired (during_get j)) as Hfired.
  destruct (get_res j) as [| |message_id message_json]; cbn.
  - unfold time_sleep, emit, bind, ret. cbn.
    destruct (Hk None (env_apply (during_get j) w)) as [Hk1 Hk2].
    destruct (k None (env_apply (during_get j) w)) as [[r w2] t2]. cbn in *.
    eexists; split; [reflexivity|].
    rewrite !forallb_app, !existsb_app, Henv, Hk1, Hk2, Hfired. cbn.
    rewrite ?orb_false_r, ?orb_assoc. auto.
  - eexists; split; [reflexivity|].
    rewrite !forallb_app, !existsb_app, Henv, Hfired. cbn.
    rewrite ?orb_false_r, ?orb_assoc. auto.
  - destruct (Hk (Some (message_id, message_json)) (env_apply (during_get j) w))
      as [Hk1 Hk2].
    destruct (k _ (env_apply (during_get j) w)) as [[r w2] t2]. cbn in *.
    eexists; split; [reflexivity|].
    rewrite !forallb_app, !existsb_app, Henv, Hk1, Hk2, Hfired. cbn.
    rewrite ?orb_false_r, ?orb_assoc. auto.
Qed.

Lemma wait_loop_emits (self : QueueWorker) (prediction_id : json)
  (ts : list wait_tick) :
  emits is_supervision_event (wait_loop self prediction_id ts).
Proof.
  induction ts as [|t rest IH]; cbn [wait_loop]; [apply emits_pend|].
  apply emits_bind.
  { unfold prediction_event_wait. apply emits_bind;
      [apply emits_env_step, supervision_env_ok|intros _].
    primitive. }
  intros [|]; [apply emits_ret|].
  apply emits_bind.
  { unfold should_cancel. apply emits_bind;
      [apply emits_emit; reflexivity|intros _; apply emits_ret]. }
  intros cancel. apply emits_bind.
  { destruct cancel; [|apply emits_ret].
    apply emits_bind;
      [destruct prediction_id; cbn; try apply emits_raise; apply emits_ret
      |intros url].
    apply emits_bind;
      [apply emits_http_call;
       [apply supervision_env_ok|reflexivity|reflexivity]
      |intros resp].
    unfold raise_for_status.
    destruct ((400 <=? status_code resp) && (status_code resp <? 600));
      [apply emits_raise|apply emits_ret]. }
  intros _. apply emits_bind; [primitive|].
  intros [|]; [apply emits_ret|exact IH].
Qed.

(** ** How the polling loop ends *)

Lemma inert_env_ok e : is_env_event e = true -> inert e = true.
Proof. destruct e; cbn; congruence. Qed.

Lemma completion_before_inert stop (pre rest : list event) :
  (forall e, stop e = true -> inert e = false \/ is_completion_seen e = true) ->
  forallb inert pre = true ->
  completion_before stop (pre ++ rest) = completion_before stop rest.
Proof.
  intros Hstop. induction pre as [|e pre IH]; cbn; [reflexivity|].
  intros H. apply andb_true_iff in H as [He Hpre].
  unfold inert in He. apply andb_true_iff in He as [He1 He2].
  apply negb_true_iff in He1, He2. rewrite He1.
  destruct (stop e) eqn:Hs; [|auto].
  destruct (Hstop e Hs) as [Hi|Hc]; [|congruence].
  unfold inert in Hi. rewrite He1, He2 in Hi. discriminate.
Qed.

Lemma acked_supervision (evs : list event) :
  forallb is_supervision_event evs = true -> acked evs = false.
Proof.
  unfold acked. induction evs as [|e evs IH]; cbn; [reflexivity|].
  intros H. apply andb_true_iff in H as [He Hevs].
  rewrite (IH Hevs). destruct e; cbn in *; congruence.
Qed.

Lemma acked_submission (evs : list event) :
  forallb is_submission_event evs = true -> acked evs = false.
Proof.
  unfold acked. induction evs as [|e evs IH]; cbn; [reflexivity|].
  intros H. apply andb_true_iff in H as [He Hevs].
  rewrite (IH Hevs). destruct e; cbn in *; congruence.
Qed.

Lemma inert_submission (evs : list event) :
  forallb is_submission_event evs = true -> forallb inert evs = true.
Proof.
  induction evs as [|e evs IH]; cbn; [reflexivity|].
  intros H. apply andb_true_iff in H as [He Hevs].
  rewrite (IH Hevs). destruct e; cbn in *; congruence.
Qed.

Lemma ends_in_one (x : event) : ends_in x [x].
Proof. exists []. auto. Qed.

Lemma ends_in_cons (x e : event) (evs : list event) :
  inert e = true -> ends_in x evs -> ends_in x (e :: evs).
Proof.
  intros He [pre [-> Hpre]]. exists (e :: pre). cbn. rewrite He, Hpre. auto.
Qed.

Lemma ends_in_app (x : event) (evs1 evs2 : list event) :
  forallb inert evs1 = true -> ends_in x evs2 -> ends_in x (evs1 ++ evs2).
Proof.
  intros H1 [pre [-> Hpre]]. exists (evs1 ++ pre).
  rewrite forallb_app, H1, Hpre, app_assoc. auto.
Qed.

Ltac all_inert :=
  rewrite ?app_nil_r;
  repeat first [rewrite forallb_app | progress (cbn [forallb])];
  repeat match goal with
         | H : forallb inert _ = true |- _ => rewrite H
         end;
  reflexivity.

Ltac ends :=
  repeat first
    [ apply ends_in_one
    | assumption
    | apply ends_in_cons; [reflexivity|]
    | apply ends_in_app; [all_inert|] ].

Lemma wait_loop_outcome (self : QueueWorker) (prediction_id : json)
  (ts : list wait_tick) (w : world) :
  match wait_loop self prediction_id ts w with
  | (Ret true, w', evs) =>
      ends_in (PredictionWait true) evs /\ prediction_event w' = true
  | (Ret false, w', evs) =>
      ends_in (ShutdownIsSet true) evs /\ shutdown_event w' = true
  | (Exc e, _, evs) =>
      forallb inert evs = true /\
      exists t, In t ts /\ cancel_requested t = true /\
                cancel_failure prediction_id (cancel_result t) = Some e
  | (Pend, _, evs) => forallb inert evs = true
  end.
Proof.
  revert w. induction ts as [|t rest IH]; intros w; [reflexivity|].
  rewrite wait_loop_cons. cbn zeta.
  set (w1 := env_apply (during_wait t) w). clearbody w1.
  pose proof (env_events_ok _ inert_env_ok (during_wait t)) as Hw.
  pose proof (env_events_ok _ inert_env_ok (during_cancel t)) as Hc.
  destruct (prediction_event w1) eqn:Hp.
  { cbn [after]. rewrite app_nil_r. split; [ends|assumption]. }
  destruct (cancel_requested t) eqn:Hcr.
  - destruct prediction_id as [| | |s| |];
      try (cbn [after app cancel_failure]; split;
           [all_inert|exists t; cbn [In]; auto]).
    set (w2 := env_apply (during_cancel t) w1). clearbody w2.
    cbn [cancel_failure] in *.
    destruct (http_failure (cancel_result t)) as [e|] eqn:Hh.
    + cbn [after app]. split; [all_inert|exists t; cbn [In]; auto].
    + destruct (shutdown_event w2) eqn:Hs.
      * cbn [after app]. split; [ends|assumption].
      * specialize (IH w2).
        destruct (wait_loop self (JStr s) rest w2) as [[[[|]| e |] w3] t3];
          cbn [after app].
        -- destruct IH as [Hend Hpe]. split; [ends|assumption].
        -- destruct IH as [Hend Hpe]. split; [ends|assumption].
        -- destruct IH as [Hevs [t' [Hin Ht']]].
           split; [all_inert|exists t'; cbn [In]; auto].
        -- all_inert.
  - destruct (shutdown_event w1) eqn:Hs.
    + cbn [after app]. split; [ends|assumption].
    + specialize (IH w1).
      destruct (wait_loop self prediction_id rest w1) as [[[[|]| e |] w3] t3];
        cbn [after app].
      * destruct IH as [Hend Hpe]. split; [ends|assumption].
      * destruct IH as [Hend Hpe]. split; [ends|assumption].
      * destruct IH as [Hevs [t' [Hin Ht']]].
        split; [all_inert|exists t'; cbn [In]; auto].
      * all_inert.
Qed.

(** ** [handle_message] by the outcome of its two parts *)

Lemma handle_message_cases (self : QueueWorker) (j : job_script) (w : world) :
  handle_message self j w =
  match dispatch self j w with
  | (Ret (Some (message_id, prediction_id)), w1, t1) =>
      after t1
        match wait_loop self prediction_id (ticks j) w1 with
        | (Ret true, w2, t2) => (Ret tt, w2, t2 ++ [RedisAck message_id])
        | (Ret false, w2, t2) => (Ret tt, w2, t2)
        | (Exc e, w2, t2) => (Exc e, w2, t2)
        | (Pend, w2, t2) => (Pend, w2, t2)
        end
  | (Ret None, w1, t1) => (Ret tt, w1, t1)
  | (Exc e, w1, t1) => (Exc e, w1, t1)
  | (Pend, w1, t1) => (Pend, w1, t1)
  end.
Proof.
  rewrite handle_message_split. unfold bind at 1.
  destruct (dispatch self j w) as [[[[[message_id prediction_id]|]| e |] w1] t1];
    try reflexivity.
  - unfold supervise, bind.
    destruct (wait_loop self prediction_id (ticks j) w1)
      as [[[[|]| e |] w2] t2]; cbn; rewrite ?app_nil_r; reflexivity.
  - cbn. rewrite app_nil_r. reflexivity.
Qed.

Lemma shutdown_seen_stops (e : event) :
  is_shutdown_seen e = true -> inert e = false \/ is_completion_seen e = true.
Proof. intros H. left. unfold inert. rewrite H, andb_false_r. reflexivity. Qed.

Lemma completion_before_none stop (evs : list event) :
  (forall e, stop e = true -> inert e = false \/ is_completion_seen e = true) ->
  forallb inert evs = true -> completion_before stop evs = false.
Proof.
  intros Hstop H. rewrite <- (app_nil_r evs).
  rewrite completion_before_inert by assumption. reflexivity.
Qed.

Lemma acked_app (evs1 evs2 : list event) :
  acked (evs1 ++ evs2) = acked evs1 || acked evs2.
Proof. apply existsb_app. Qed.

Lemma handle_message_dispatched (self : QueueWorker) (j : job_script)
  (w : world) message_id prediction_id w1 t1 :
  dispatch self j w = (Ret (Some (message_id, prediction_id)), w1, t1) ->
  acked t1 = false /\
  acked (events (wait_loop self prediction_id (ticks j) w1)) = false /\
  handle_message self j w =
  after t1
    match wait_loop self prediction_id (ticks j) w1 with
    | (Ret true, w2, t2) => (Ret tt, w2, t2 ++ [RedisAck message_id])
    | (Ret false, w2, t2) => (Ret tt, w2, t2)
    | (Exc e, w2, t2) => (Exc e, w2, t2)
    | (Pend, w2, t2) => (Pend, w2, t2)
    end.
Proof.
  intros Hd. rewrite handle_message_cases, Hd.
  destruct (dispatch_events self j w) as [tl [Hev [Htl _]]].
  rewrite Hd in Hev. cbn [events snd] in Hev. subst t1.
  destruct (wait_loop_emits self prediction_id (ticks j) w1) as [Hsup _].
  repeat split.
  - cbn. apply acked_submission, Htl.
  - apply acked_supervision, Hsup.
Qed.

(** C1, as the code has it: the handle is acknowledged exactly when a bounded
    wait of the polling loop returned true before the loop itself found the
    shutdown flag set; the acknowledgement is the last event of the call and
    comes right after that wait, so it never follows the submission alone.
    Whether the shutdown flag had been set before that wait plays no part. *)
Theorem ack_iff_completion_seen
  (self : QueueWorker) (j : job_script) (w : world) :
  let evs := events (handle_message self j w) in
  acked evs = completion_before is_shutdown_seen evs /\
  (acked evs = true ->
   exists pre message_id,
     evs = pre ++ [PredictionWait true; RedisAck message_id] /\
     acked pre = false /\
     completion_before is_shutdown_seen pre = false).
Proof.
  cbn zeta. rewrite handle_message_cases.
  destruct (dispatch_events self j w) as [tl [Hev [Htl _]]].
  destruct (dispatch self j w) as [[r w1] t1]. cbn [events snd] in Hev.
  subst t1.
  assert (Hin : forallb inert (RedisGet :: tl) = true).
  { cbn. apply inert_submission, Htl. }
  assert (Hack : acked (RedisGet :: tl) = false).
  { cbn. apply acked_submission, Htl. }
  assert (Hquiet :
            acked (RedisGet :: tl) =
            completion_before is_shutdown_seen (RedisGet :: tl) /\
            (acked (RedisGet :: tl) = true ->
             exists pre message_id,
               RedisGet :: tl = pre ++ [PredictionWait true; RedisAck message_id] /\
               acked pre = false /\
               completion_before is_shutdown_seen pre = false)).
  { rewrite Hack, (completion_before_none _ _ shutdown_seen_stops Hin).
    split; [reflexivity|discriminate]. }
  destruct r as [[[message_id prediction_id]|]| e |]; try exact Hquiet.
  pose proof (wait_loop_outcome self prediction_id (ticks j) w1) as Hout.
  destruct (wait_loop_emits self prediction_id (ticks j) w1) as [Hsup _].
  destruct (wait_loop self prediction_id (ticks j) w1) as [[[[|]| e |] w2] t2];
    cbn [after events snd] in *.
  - destruct Hout as [[pre [-> Hpre]] _].
    apply acked_supervision in Hsup. rewrite acked_app in Hsup.
    apply orb_false_iff in Hsup as [Hsup _].
    assert (Hall : forallb inert ((RedisGet :: tl) ++ pre) = true).
    { rewrite forallb_app, Hin, Hpre. reflexivity. }
    split.
    + rewrite !acked_app. cbn [acked existsb is_ack].
      rewrite !app_assoc, <- (app_assoc _ [PredictionWait true]).
      rewrite (completion_before_inert _ _ _ shutdown_seen_stops Hall).
      rewrite !orb_true_r. reflexivity.
    + intros _. exists ((RedisGet :: tl) ++ pre), message_id.
      split; [rewrite <- !app_assoc; reflexivity|].
      split; [rewrite acked_app, Hack, Hsup; reflexivity|].
      apply completion_before_none; [apply shutdown_seen_stops|assumption].
  - destruct Hout as [[pre [-> Hpre]] _].
    apply acked_supervision in Hsup.
    rewrite acked_app, Hack, Hsup.
    assert (Hall : forallb inert ((RedisGet :: tl) ++ pre) = true).
    { rewrite forallb_app, Hin, Hpre. reflexivity. }
    rewrite app_assoc.
    rewrite (completion_before_inert _ _ _ shutdown_seen_stops Hall).
    split; [reflexivity|discriminate].
  - destruct Hout as [Hevs _]. apply acked_supervision in Hsup.
    rewrite acked_app, Hack, Hsup.
    rewrite completion_before_none;
      [split; [reflexivity|discriminate]|apply shutdown_seen_stops|].
    rewrite forallb_app, Hin, Hevs. reflexivity.
  - apply acked_supervision in Hsup.
    rewrite acked_app, Hack, Hsup.
    rewrite completion_before_none;
      [split; [reflexivity|discriminate]|apply shutdown_seen_stops|].
    rewrite forallb_app, Hin, Hout. reflexivity.
Qed.

Lemma ack_iff_completion_seen_witness :
  exists pre message_id,
    events (handle_message worker (one_job [tick quiet; tick completes]) idle) =
    pre ++ [PredictionWait true; RedisAck message_id] /\
    acked pre = false /\
    completion_before is_shutdown_seen pre = false.
Proof.
  apply (ack_iff_completion_seen worker
           (one_job [tick quiet; tick completes]) idle).
  reflexivity.
Defined.

(** C1, as worded, fails: the termination signal fires while the submission
    is in flight, the first bounded wait finds the prediction complete, and
    the handle is acknowledged although the completion was observed after the
    shutdown signal had fired. *)
Lemma ack_after_shutdown_fired :
  ~ acked_iff_completed_before_shutdown_fired
      (events (handle_message worker shutdown_during_submission idle)).
Proof.
  unfold acked_iff_completed_before_shutdown_fired. vm_compute. discriminate.
Qed.

(** ** The loops of [start], one pass at a time *)

Lemma main_loop_nil (self : QueueWorker) (w : world) :
  main_loop self [] w =
  if shutdown_event w then (Ret tt, w, [ShutdownIsSet true])
  else (Pend, w, [ShutdownIsSet false]).
Proof.
  cbn. unfold bind, shutdown_event_is_set. destruct (shutdown_event w); reflexivity.
Qed.

Lemma main_loop_cons (self : QueueWorker) (j : job_script)
  (js : list job_script) (w : world) :
  main_loop self (j :: js) w =
  if shutdown_event w then (Ret tt, w, [ShutdownIsSet true])
  else
    after (ShutdownIsSet false :: env_events (before_get j))
      match handle_message self j (env_apply (before_get j) w) with
      | (Ret _, w1, t1) => after t1 (main_loop self js w1)
      | (Exc e, w1, t1) =>
          after (t1 ++ [LogException "failed to handle message" e])
            (main_loop self js w1)
      | (Pend, w1, t1) => (Pend, w1, t1)
      end.
Proof.
  cbn [main_loop]. unfold bind at 1, shutdown_event_is_set.
  destruct (shutdown_event w); [reflexivity|].
  unfold bind at 1, env_step.
  generalize (env_apply (before_get j) w). intros w0.
  unfold bind, try_except, log_exception, emit, is_Exception.
  destruct (handle_message self j w0) as [[[u| e |] w1] t1]; cbn [after app].
  - destruct (main_loop self js w1) as [[r w2] t2]. reflexivity.
  - destruct (main_loop self js w1) as [[r w2] t2]. cbn.
    rewrite <- !app_assoc. reflexivity.
  - reflexivity.
Qed.

Lemma main_loop_stopped (self : QueueWorker) (js : list job_script) (w : world) :
  shutdown_event w = true ->
  main_loop self js w = (Ret tt, w, [ShutdownIsSet true]).
Proof.
  intros H. destruct js; [rewrite main_loop_nil|rewrite main_loop_cons];
    rewrite H; reflexivity.
Qed.

(** The polling loop after passes that left the job dispatched. *)
Lemma wait_loop_app (self : QueueWorker) (prediction_id : json)
  (pre ts : list wait_tick) (w w' : world) (evs : list event) :
  wait_loop self prediction_id pre w = (Pend, w', evs) ->
  wait_loop self prediction_id (pre ++ ts) w =
  after evs (wait_loop self prediction_id ts w').
Proof.
  revert w w' evs. induction pre as [|t pre IH]; intros w w' evs H.
  - cbn in H. injection H as <- <-. cbn [app]. rewrite after_nil. reflexivity.
  - cbn [app]. rewrite wait_loop_cons in H |- *. cbn zeta in *.
    set (w1 := env_apply (during_wait t) w) in *. clearbody w1.
    destruct (prediction_event w1); [discriminate H|].
    destruct (cancel_requested t).
    + destruct prediction_id; try discriminate H.
      set (w2 := env_apply (during_cancel t) w1) in *. clearbody w2.
      destruct (http_failure (cancel_result t)); [discriminate H|].
      destruct (shutdown_event w2); [discriminate H|].
      destruct (wait_loop self (JStr s) pre w2) as [[r w3] t3] eqn:E.
      cbn [after app] in H. injection H as -> -> <-.
      rewrite (IH _ _ _ E), !after_after. f_equal.
      rewrite <- ?app_assoc; cbn [app]; rewrite <- ?app_assoc; reflexivity.
    + destruct (shutdown_event w1); [discriminate H|].
      destruct (wait_loop self prediction_id pre w1) as [[r w3] t3] eqn:E.
      cbn [after app] in H. injection H as -> -> <-.
      rewrite (IH _ _ _ E), !after_after. f_equal.
      rewrite <- ?app_assoc; cbn [app]; rewrite <- ?app_assoc; reflexivity.
Qed.


(** ** No dequeue once the shutdown flag has been found set *)

Lemma no_get_seen_app (seen : bool) (evs1 evs2 : list event) :
  no_get_once_seen seen (evs1 ++ evs2) =
  no_get_once_seen seen evs1 &&
  no_get_once_seen (seen || existsb is_shutdown_seen evs1) evs2.
Proof.
  revert seen. induction evs1 as [|e evs1 IH]; intros seen; cbn.
  - rewrite orb_false_r. reflexivity.
  - destruct e as [| |[|]| | | | | | | | | | | | | |]; cbn;
      rewrite ?IH, ?orb_true_r, ?andb_assoc; reflexivity.
Qed.

Lemma no_get_seen_free (seen : bool) (evs : list event) :
  forallb not_get evs = true -> no_get_once_seen seen evs = true.
Proof.
  revert seen. induction evs as [|e evs IH]; intros seen; cbn; [reflexivity|].
  intros H. apply andb_true_iff in H as [He Hevs].
  destruct e as [| |[|]| | | | | | | | | | | | | |]; cbn in *;
    try discriminate; auto.
Qed.

Lemma inert_not_seen (evs : list event) :
  forallb inert evs = true -> existsb is_shutdown_seen evs = false.
Proof.
  induction evs as [|e evs IH]; [reflexivity|]. cbn [forallb existsb].
  intros H. apply andb_true_iff in H as [He Hevs]. rewrite (IH Hevs).
  unfold inert in He. apply andb_true_iff in He as [_ He].
  destruct (is_shutdown_seen e); [discriminate|reflexivity].
Qed.

Lemma forallb_impl (P Q : event -> bool) (evs : list event) :
  (forall e, P e = true -> Q e = true) ->
  forallb P evs = true -> forallb Q evs = true.
Proof.
  intros H. induction evs as [|e evs IH]; cbn; [reflexivity|].
  intros H'. apply andb_true_iff in H' as [He Hevs].
  rewrite (H e He), (IH Hevs). reflexivity.
Qed.

Lemma submission_not_get e : is_submission_event e = true -> not_get e = true.
Proof. destruct e; cbn; congruence. Qed.

Lemma supervision_not_get e : is_supervision_event e = true -> not_get e = true.
Proof. destruct e; cbn; congruence. Qed.

Lemma setup_not_get e : is_setup_event e = true -> not_get e = true.
Proof. destruct e; cbn; congruence. Qed.

Lemma setup_env_ok e : is_env_event e = true -> is_setup_event e = true.
Proof. destruct e; cbn; congruence. Qed.

(** [handle_message] starts with the dequeue, does not dequeue again, and
    leaves the shutdown flag set if it was set or was fired meanwhile. *)
Lemma handle_message_events (self : QueueWorker) (j : job_script) (w : world) :
  exists tl,
    events (handle_message self j w) = RedisGet :: tl /\
    forallb not_get tl = true /\
    shutdown_event (final (handle_message self j w)) =
    shutdown_event w || existsb is_shutdown_fired tl.
Proof.
  rewrite handle_message_cases.
  destruct (dispatch_events self j w) as [tl [Hev [Htl Hflag]]].
  destruct (dispatch self j w) as [[r w1] t1].
  cbn [events final fst snd] in Hev, Hflag. subst t1.
  pose proof (forallb_impl _ _ _ submission_not_get Htl) as Hng.
  destruct r as [[[message_id prediction_id]|]| e |];
    try solve [exists tl; cbn; auto].
  destruct (wait_loop_emits self prediction_id (ticks j) w1) as [Hsup Hfl2].
  apply (forallb_impl _ _ _ supervision_not_get) in Hsup.
  destruct (wait_loop self prediction_id (ticks j) w1) as [[[[|]| e |] w2] t2];
    cbn [after events final fst snd app] in *.
  - exists (tl ++ t2 ++ [RedisAck message_id]). split; [reflexivity|].
    rewrite !forallb_app, !existsb_app, Hng, Hsup, Hfl2, Hflag. cbn.
    rewrite ?orb_false_r, ?orb_assoc. auto.
  - exists (tl ++ t2). split; [reflexivity|].
    rewrite !forallb_app, !existsb_app, Hng, Hsup, Hfl2, Hflag.
    rewrite ?orb_assoc. auto.
  - exists (tl ++ t2). split; [reflexivity|].
    rewrite !forallb_app, !existsb_app, Hng, Hsup, Hfl2, Hflag.
    rewrite ?orb_assoc. auto.
  - exists (tl ++ t2). split; [reflexivity|].
    rewrite !forallb_app, !existsb_app, Hng, Hsup, Hfl2, Hflag.
    rewrite ?orb_assoc. auto.
Qed.

(** The polling loop finds the shutdown flag set only when the flag is set,
    and then it returns. *)
Lemma wait_loop_seen (self : QueueWorker) (prediction_id : json)
  (ts : list wait_tick) (w : world) :
  existsb is_shutdown_seen (events (wait_loop self prediction_id ts w)) = true ->
  shutdown_event (final (wait_loop self prediction_id ts w)) = true.
Proof.
  pose proof (wait_loop_outcome self prediction_id ts w) as H.
  destruct (wait_loop self prediction_id ts w) as [[[[|]| e |] w'] evs];
    cbn [events final fst snd].
  - destruct H as [[pre [-> Hpre]] _]. rewrite existsb_app.
    rewrite (inert_not_seen _ Hpre). discriminate.
  - intros _. apply H.
  - destruct H as [Hin _]. rewrite (inert_not_seen _ Hin). discriminate.
  - rewrite (inert_not_seen _ H). discriminate.
Qed.

Lemma submission_not_seen (evs : list event) :
  forallb is_submission_event evs = true ->
  existsb is_shutdown_seen evs = false.
Proof. intros H. apply inert_not_seen, inert_submission, H. Qed.

Lemma handle_message_seen (self : QueueWorker) (j : job_script) (w : world) :
  existsb is_shutdown_seen (events (handle_message self j w)) = true ->
  shutdown_event (final (handle_message self j w)) = true.
Proof.
  rewrite handle_message_cases.
  destruct (dispatch_events self j w) as [tl [Hev [Htl _]]].
  apply submission_not_seen in Htl.
  destruct (dispatch self j w) as [[r w1] t1].
  cbn [events final fst snd] in Hev. subst t1.
  destruct r as [[[message_id prediction_id]|]| e |];
    try (cbn [events final fst snd existsb is_shutdown_seen orb];
         rewrite Htl; discriminate).
  pose proof (wait_loop_seen self prediction_id (ticks j) w1) as Hw.
  destruct (wait_loop self prediction_id (ticks j) w1) as [[[[|]| e |] w2] t2];
    cbn [after events final fst snd app existsb is_shutdown_seen orb] in *;
    rewrite ?existsb_app, Htl; cbn [orb existsb is_shutdown_seen];
    rewrite ?orb_false_r; exact Hw.
Qed.

Lemma env_not_get e : is_env_event e = true -> not_get e = true.
Proof. destruct e; cbn; congruence. Qed.

Lemma main_loop_no_get (self : QueueWorker) (js : list job_script) (w : world) :
  no_get_once_seen false (events (main_loop self js w)) = true.
Proof.
  revert w. induction js as [|j js IH]; intros w.
  - rewrite main_loop_nil. destruct (shutdown_event w); reflexivity.
  - rewrite main_loop_cons. destruct (shutdown_event w) eqn:Hs; [reflexivity|].
    generalize (env_apply (before_get j) w). intros w0.
    destruct (handle_message_events self j w0) as [tl [Hev [Hng _]]].
    pose proof (handle_message_seen self j w0) as Hseen.
    rewrite events_after. cbn [app no_get_once_seen].
    rewrite no_get_seen_app.
    rewrite (no_get_seen_free _ _ (env_events_ok _ env_not_get (before_get j))).
    assert (Henv : existsb is_shutdown_seen (env_events (before_get j)) = false).
    { apply inert_not_seen, env_events_ok, inert_env_ok. }
    rewrite Henv. cbn [orb andb].
    assert (Hrest : forall w1,
              (existsb is_shutdown_seen tl = true -> shutdown_event w1 = true) ->
              no_get_once_seen (existsb is_shutdown_seen tl)
                (events (main_loop self js w1)) = true).
    { intros w1 Hw1. destruct (existsb is_shutdown_seen tl); [|apply IH].
      rewrite (main_loop_stopped self js w1 (Hw1 eq_refl)). reflexivity. }
    destruct (handle_message self j w0) as [[[u| e |] w1] t1];
      cbn [events final fst snd] in Hev, Hseen; subst t1;
      cbn [existsb is_shutdown_seen orb] in Hseen.
    + rewrite events_after. cbn [app no_get_once_seen negb andb].
      rewrite no_get_seen_app, (no_get_seen_free _ _ Hng).
      cbn [orb andb]. apply Hrest, Hseen.
    + rewrite events_after. cbn [app no_get_once_seen negb andb].
      rewrite <- app_assoc, no_get_seen_app, (no_get_seen_free _ _ Hng).
      cbn [orb andb app no_get_once_seen]. apply Hrest, Hseen.
    + cbn [events snd app no_get_once_seen negb andb].
      apply no_get_seen_free, Hng.
Qed.

(** The main loop leaves the shutdown flag as the environment sets it. *)
Lemma main_loop_flag (self : QueueWorker) (js : list job_script) (w : world) :
  shutdown_event (final (main_loop self js w)) =
  shutdown_event w || existsb is_shutdown_fired (events (main_loop self js w)).
Proof.
  revert w. induction js as [|j js IH]; intros w.
  - rewrite main_loop_nil.
    destruct (shutdown_event w) eqn:Hs; cbn; rewrite Hs; reflexivity.
  - rewrite main_loop_cons.
    destruct (shutdown_event w) eqn:Hs; [cbn; rewrite Hs; reflexivity|].
    rewrite final_after, events_after. cbn [app existsb is_shutdown_fired orb].
    rewrite existsb_app, env_events_fired.
    assert (H0 : shutdown_event (env_apply (before_get j) w) =
                 fires_shutdown (before_get j)).
    { cbn. rewrite Hs. reflexivity. }
    generalize dependent (env_apply (before_get j) w). intros w0 H0.
    rewrite <- H0.
    destruct (handle_message_events self j w0) as [tl [Hev [_ Hflag]]].
    destruct (handle_message self j w0) as [[[u| e |] w1] t1];
      cbn [events final fst snd] in Hev, Hflag; subst t1;
      cbn [existsb is_shutdown_fired orb] in *.
    + rewrite final_after, events_after, IH, Hflag, existsb_app.
      cbn [existsb is_shutdown_fired orb]. rewrite orb_assoc. reflexivity.
    + rewrite final_after, events_after, IH, Hflag, !existsb_app.
      cbn [existsb is_shutdown_fired orb].
      rewrite orb_false_r, orb_assoc. reflexivity.
    + cbn [final events fst snd existsb is_shutdown_fired orb]. exact Hflag.
Qed.

(** ** The setup loop *)

Lemma setup_succeeded_pure (b : json) (w : world) :
  setup_succeeded b w = (result (setup_succeeded b idle), w, []).
Proof.
  unfold setup_succeeded, bind, py_getitem, ret, raise, result.
  destruct b as [| | | | |fields]; try reflexivity.
  destruct (dict_get fields "status") as [status|]; [|reflexivity]. cbn.
  destruct (py_eq_str status "healthy"); [|reflexivity].
  destruct (dict_get fields "setup") as [setup|]; [|reflexivity]. cbn.
  destruct (py_is_none setup); [reflexivity|].
  destruct setup as [| | | | |sfields]; try reflexivity.
  destruct (dict_get sfields "status"); reflexivity.
Qed.

Lemma setup_succeeded_true (b : json) :
  result (setup_succeeded b idle) = Ret true ->
  exists fields sfields,
    b = JObj fields /\
    dict_get fields "status" = Some (JStr "healthy") /\
    dict_get fields "setup" = Some (JObj sfields) /\
    dict_get sfields "status" = Some (JStr "succeeded").
Proof.
  unfold setup_succeeded, bind, py_getitem, ret, raise, result.
  destruct b as [| | | | |fields]; try discriminate.
  destruct (dict_get fields "status") as [status|] eqn:Hst; [|discriminate].
  cbn. destruct (py_eq_str status "healthy") eqn:Hh; [|discriminate].
  destruct (dict_get fields "setup") as [setup|] eqn:Hse; [|discriminate].
  cbn. destruct (py_is_none setup); [discriminate|].
  destruct setup as [| | | | |sfields]; try discriminate.
  destruct (dict_get sfields "status") as [st|] eqn:Hss; [|discriminate].
  cbn. intros H. injection H as H.
  destruct status; try discriminate. destruct st; try discriminate.
  cbn in Hh, H. apply String.eqb_eq in Hh, H. subst.
  exists fields, sfields. auto.
Qed.

Lemma setup_loop_nil (self : QueueWorker) (count : Z) (w : world) :
  setup_loop self [] count w =
  if shutdown_event w then (Ret tt, w, [ShutdownIsSet true])
  else (Pend, w, [ShutdownIsSet false]).
Proof.
  cbn. unfold bind, shutdown_event_is_set. destruct (shutdown_event w); reflexivity.
Qed.

Lemma setup_succeeded_returns (b : json) :
  result (setup_succeeded b idle) <> Pend.
Proof.
  unfold setup_succeeded, bind, py_getitem, ret, raise, result.
  destruct b as [| | | | |fields]; try discriminate.
  destruct (dict_get fields "status") as [status|]; [|discriminate]. cbn.
  destruct (py_eq_str status "healthy"); [|discriminate].
  destruct (dict_get fields "setup") as [setup|]; [|discriminate]. cbn.
  destruct (py_is_none setup); [discriminate|].
  destruct setup as [| | | | |sfields]; try discriminate.
  destruct (dict_get sfields "status"); discriminate.
Qed.

Lemma setup_poll_spec (self : QueueWorker) (p : health_poll) (w : world) :
  setup_poll self p w =
  let w1 := env_apply (during_health p) w in
  after (HttpGet (cog_http_base self ++ "/health-check")%string
         :: env_events (during_health p))
    match health_verdict (health_result p) with
    | Ready => (Ret true, w1, [LogInfo "model container completed setup"])
    | NotReady => (Ret false, w1, [])
    | Crash e => (Exc e, w1, [])
    end.
Proof.
  unfold setup_poll, health_verdict.
  unfold bind at 1, try_except, requests_get, http_call, bind at 1 2 3.
  unfold emit, env_step. cbn zeta.
  generalize (env_apply (during_health p) w). intros w1.
  destruct (health_result p) as [|resp]; cbn -[String.append].
  - rewrite ?app_nil_r. reflexivity.
  - destruct (status_code resp =? 200);
      [|cbn -[String.append]; rewrite ?app_nil_r; reflexivity].
    unfold resp_json. destruct (body resp) as [b|];
      [|cbn -[String.append]; rewrite ?app_nil_r; reflexivity].
    unfold bind at 1. unfold ret at 1. unfold bind at 1.
    rewrite setup_succeeded_pure.
    pose proof (setup_succeeded_returns b) as Hret.
    destruct (result (setup_succeeded b idle)) as [[|]| e |];
      try (cbn -[String.append]; rewrite ?app_nil_r; reflexivity).
    contradiction.
Qed.

Lemma setup_loop_cons (self : QueueWorker) (p : health_poll)
  (rest : list health_poll) (count : Z) (w : world) :
  setup_loop self (p :: rest) count w =
  if shutdown_event w then (Ret tt, w, [ShutdownIsSet true])
  else
    let w1 := env_apply (during_health p) w in
    after (ShutdownIsSet false
           :: HttpGet (cog_http_base self ++ "/health-check")%string
           :: env_events (during_health p))
      match health_verdict (health_result p) with
      | Ready => (Ret tt, w1, [LogInfo "model container completed setup"])
      | Crash e => (Exc e, w1, [])
      | NotReady =>
          after (liveness_events (count + 1) ++ [Sleep SETUP_POLL_INTERVAL])
            (setup_loop self rest (count + 1) w1)
      end.
Proof.
  cbn [setup_loop]. unfold bind at 1, shutdown_event_is_set.
  destruct (shutdown_event w); [reflexivity|]. cbn zeta.
  unfold bind at 1. rewrite setup_poll_spec. cbn zeta.
  generalize (env_apply (during_health p) w). intros w1.
  destruct (health_verdict (health_result p));
    cbn -[String.append setup_loop liveness_period Z.modulo Z.eqb].
  - rewrite ?app_nil_r. reflexivity.
  - unfold bind, ret, liveness_events, log_info, time_sleep, emit.
    destruct ((count + 1) mod liveness_period =? 0);
      destruct (setup_loop self rest (count + 1) w1) as [[r w2] t2];
      cbn -[String.append]; rewrite ?app_nil_r, <- ?app_assoc; reflexivity.
  - rewrite ?app_nil_r. reflexivity.
Qed.


Lemma liveness_events_setup (count : Z) :
  forallb is_setup_event (liveness_events count) = true /\
  existsb is_shutdown_fired (liveness_events count) = false.
Proof.
  unfold liveness_events. destruct (count mod liveness_period =? 0); auto.
Qed.

Lemma setup_loop_ends (self : QueueWorker) (polls : list health_poll)
  (count : Z) (w : world) :
  let x := setup_loop self polls count w in
  forallb is_setup_event (events x) = true /\
  shutdown_event (final x) =
    shutdown_event w || existsb is_shutdown_fired (events x) /\
  (forall u, result x = Ret u ->
     shutdown_event (final x) = true \/
     exists p, In p polls /\ health_verdict (health_result p) = Ready).
Proof.
  cbn zeta. revert count w. induction polls as [|p rest IH]; intros count w.
  - rewrite setup_loop_nil. destruct (shutdown_event w) eqn:Hs; cbn.
    + auto.
    + rewrite Hs. repeat split; auto. discriminate.
  - rewrite setup_loop_cons. destruct (shutdown_event w) eqn:Hs.
    { cbn. auto. }
    cbn zeta.
    pose proof (env_events_ok _ setup_env_ok (during_health p)) as Henv.
    pose proof (env_events_fired (during_health p)) as Hfired.
    assert (Hw1 : shutdown_event (env_apply (during_health p) w) =
                  fires_shutdown (during_health p)).
    { cbn. rewrite Hs. reflexivity. }
    set (w1 := env_apply (during_health p) w) in *. clearbody w1.
    destruct (health_verdict (health_result p)) eqn:Hv.
    + cbn [after events final result fst snd app forallb existsb
             is_setup_event is_shutdown_fired orb andb].
      rewrite forallb_app, existsb_app, Henv, Hfired, Hw1. cbn.
      rewrite orb_false_r. repeat split; auto.
      intros _ _. right. exists p. cbn. auto.
    + specialize (IH (count + 1) w1).
      destruct (liveness_events_setup (count + 1)) as [Hl1 Hl2].
      destruct (setup_loop self rest (count + 1) w1) as [[r w2] t2].
      cbn [after events final result fst snd app forallb existsb
             is_setup_event is_shutdown_fired orb andb] in *.
      destruct IH as [IH1 [IH2 IH3]].
      rewrite !forallb_app, !existsb_app, Henv, Hfired, Hl1, Hl2, IH2, Hw1.
      cbn. rewrite IH1. repeat split; auto.
      intros u Hr. destruct (IH3 u Hr) as [H|[p' [Hin Hp']]].
      * left. rewrite <- Hw1, <- IH2. exact H.
      * right. exists p'. cbn. auto.
    + cbn [after events final result fst snd app forallb existsb
             is_setup_event is_shutdown_fired orb andb].
      rewrite forallb_app, existsb_app, Henv, Hfired, Hw1. cbn.
      rewrite orb_false_r. repeat split; auto. discriminate.
Qed.

(** ** [start] by the outcome of its loops *)

Lemma start_cases (self : QueueWorker) (s : run_script) (w : world) :
  start self s w =
  match setup_loop self (setup_polls s) 0 w with
  | (Ret _, w1, t1) =>
      after t1
        match main_loop self (jobs s) w1 with
        | (Ret _, w2, t2) =>
            (Ret tt, w2, t2 ++ [LogInfo "shutting down worker: bye bye!"])
        | (Exc e, w2, t2) => (Exc e, w2, t2)
        | (Pend, w2, t2) => (Pend, w2, t2)
        end
  | (Exc e, w1, t1) => (Exc e, w1, t1)
  | (Pend, w1, t1) => (Pend, w1, t1)
  end.
Proof.
  unfold start, bind, log_info, emit.
  destruct (setup_loop self (setup_polls s) 0 w) as [[[u| e |] w1] t1];
    reflexivity.
Qed.

Lemma setup_loop_seen (self : QueueWorker) (polls : list health_poll)
  (count : Z) (w : world) :
  existsb is_shutdown_seen (events (setup_loop self polls count w)) = true ->
  shutdown_event (final (setup_loop self polls count w)) = true.
Proof.
  revert count w. induction polls as [|p rest IH]; intros count w.
  - rewrite setup_loop_nil.
    destruct (shutdown_event w) eqn:Hs; cbn; [auto|discriminate].
  - rewrite setup_loop_cons.
    destruct (shutdown_event w) eqn:Hs; [cbn; auto|].
    cbn zeta. rewrite events_after, final_after.
    cbn [app existsb is_shutdown_seen orb]. rewrite existsb_app.
    rewrite (inert_not_seen _ (env_events_ok _ inert_env_ok _)).
    cbn [orb].
    destruct (health_verdict (health_result p)); try discriminate.
    rewrite events_after, final_after, existsb_app.
    assert (Hl : existsb is_shutdown_seen
                   (liveness_events (count + 1) ++ [Sleep SETUP_POLL_INTERVAL])
                 = false).
    { unfold liveness_events. destruct (_ =? 0); reflexivity. }
    rewrite Hl. apply IH.
Qed.

Lemma start_no_get (self : QueueWorker) (s : run_script) (w : world) :
  no_get_once_seen false (events (start self s w)) = true.
Proof.
  rewrite start_cases.
  destruct (setup_loop_ends self (setup_polls s) 0 w) as [Hev _].
  apply (forallb_impl _ _ _ setup_not_get) in Hev.
  pose proof (setup_loop_seen self (setup_polls s) 0 w) as Hseen.
  destruct (setup_loop self (setup_polls s) 0 w) as [[[u| e |] w1] t1];
    cbn [events final fst snd] in *;
    try (apply no_get_seen_free; assumption).
  rewrite events_after, no_get_seen_app, (no_get_seen_free _ _ Hev).
  cbn [orb andb].
  assert (Hmain : no_get_once_seen (existsb is_shutdown_seen t1)
                    (events (main_loop self (jobs s) w1)) = true).
  { destruct (existsb is_shutdown_seen t1); [|apply main_loop_no_get].
    rewrite (main_loop_stopped self (jobs s) w1 (Hseen eq_refl)).
    reflexivity. }
  destruct (main_loop self (jobs s) w1) as [[[u'| e |] w2] t2];
    cbn [events snd] in *; try assumption.
  rewrite no_get_seen_app, Hmain. reflexivity.
Qed.

(** [start] leaves the shutdown flag as the environment sets it. *)
Lemma start_flag (self : QueueWorker) (s : run_script) (w : world) :
  shutdown_event (final (start self s w)) =
  shutdown_event w || existsb is_shutdown_fired (events (start self s w)).
Proof.
  rewrite start_cases.
  destruct (setup_loop_ends self (setup_polls s) 0 w) as [_ [Hflag _]].
  destruct (setup_loop self (setup_polls s) 0 w) as [[[u| e |] w1] t1];
    cbn [events final fst snd] in *; try assumption.
  rewrite final_after, events_after, existsb_app, orb_assoc, <- Hflag.
  pose proof (main_loop_flag self (jobs s) w1) as Hmain.
  destruct (main_loop self (jobs s) w1) as [[[u'| e |] w2] t2];
    cbn [events final fst snd] in *; try assumption.
  rewrite existsb_app, Hmain. cbn. rewrite orb_false_r. reflexivity.
Qed.

(** ** Shutdown *)

(** C5, as the code has it.  Over a whole run of [start], no dequeue starts
    once the worker has found the shutdown flag set, and the worker leaves the
    flag as the environment sets it: it never clears it; a main loop that
    finds the flag set returns at once; no call of [handle_message] clears the
    flag; a polling loop that has the flag set by the end of a bounded wait
    makes no further pass, whatever the script holds, and it leaves through
    [break] exactly when that wait found the prediction complete; and so a
    job that is dispatched and still running after the passes [pre] ends in
    the next pass if the flag is set by the end of its wait, acknowledged if
    and only if that wait found it complete.  Nothing is said about a signal
    that the worker has not yet looked at: [signal_before_dequeue] is a run
    in which a dequeue follows the signal. *)
Theorem shutdown_is_terminal (self : QueueWorker) :
  (forall s w,
     no_get_once_seen false (events (start self s w)) = true /\
     shutdown_event (final (start self s w)) =
     shutdown_event w || existsb is_shutdown_fired (events (start self s w))) /\
  (forall js w,
     shutdown_event w = true ->
     main_loop self js w = (Ret tt, w, [ShutdownIsSet true])) /\
  (forall j w,
     shutdown_event w = true ->
     shutdown_event (final (handle_message self j w)) = true) /\
  (forall prediction_id t rest w,
     shutdown_event (env_apply (during_wait t) w) = true ->
     wait_loop self prediction_id (t :: rest) w =
     wait_loop self prediction_id [t] w /\
     result (wait_loop self prediction_id (t :: rest) w) <> Pend /\
     (result (wait_loop self prediction_id (t :: rest) w) = Ret true <->
      prediction_event (env_apply (during_wait t) w) = true)) /\
  (forall j w message_id prediction_id w1 t1 pre t rest w2 t2,
     dispatch self j w = (Ret (Some (message_id, prediction_id)), w1, t1) ->
     ticks j = pre ++ t :: rest ->
     wait_loop self prediction_id pre w1 = (Pend, w2, t2) ->
     shutdown_event (env_apply (during_wait t) w2) = true ->
     result (handle_message self j w) <> Pend /\
     acked (events (handle_message self j w)) =
     prediction_event (env_apply (during_wait t) w2)).
Proof.
  assert (Hlast : forall prediction_id t rest w,
     shutdown_event (env_apply (during_wait t) w) = true ->
     wait_loop self prediction_id (t :: rest) w =
     wait_loop self prediction_id [t] w /\
     result (wait_loop self prediction_id (t :: rest) w) <> Pend /\
     (result (wait_loop self prediction_id (t :: rest) w) = Ret true <->
      prediction_event (env_apply (during_wait t) w) = true)).
  { intros prediction_id t rest w Hs. rewrite !wait_loop_cons. cbn zeta.
    set (w1 := env_apply (during_wait t) w) in *. clearbody w1.
    destruct (prediction_event w1).
    { cbn. repeat split; congruence. }
    destruct (cancel_requested t).
    - destruct prediction_id;
        try (cbn; repeat split; intros; congruence).
      assert (Hs2 : shutdown_event (env_apply (during_cancel t) w1) = true).
      { cbn. rewrite Hs. reflexivity. }
      set (w2 := env_apply (during_cancel t) w1) in *. clearbody w2.
      destruct (http_failure (cancel_result t)); rewrite ?Hs2;
        cbn; repeat split; intros; congruence.
    - rewrite Hs. cbn. repeat split; intros; congruence. }
  split; [intros s w; split; [apply start_no_get|apply start_flag]|].
  split; [intros js w; apply main_loop_stopped|].
  split.
  { intros j w H. destruct (handle_message_events self j w) as [tl [_ [_ Hflag]]].
    rewrite Hflag, H. reflexivity. }
  split; [exact Hlast|].
  intros j w message_id prediction_id w1 t1 pre t rest w2 t2 Hd Hticks Hpre Hs.
  destruct (handle_message_dispatched self j w _ _ _ _ Hd) as [Ht1 [Hwl ->]].
  destruct (Hlast prediction_id t rest w2 Hs) as [_ [Hnp Hiff]].
  rewrite Hticks, (wait_loop_app _ _ _ _ _ _ _ Hpre) in Hwl |- *.
  rewrite events_after, acked_app in Hwl. apply orb_false_iff in Hwl as [Ht2 Ht3].
  destruct (wait_loop self prediction_id (t :: rest) w2) as [[[[|]| e |] w3] t3];
    cbn [after result events fst snd] in *;
    rewrite ?acked_app, ?Ht1, ?Ht2, ?Ht3; cbn [orb acked existsb is_ack].
  - split; [discriminate|]. symmetry. apply Hiff. reflexivity.
  - split; [discriminate|].
    destruct (prediction_event (env_apply (during_wait t) w2)); [|reflexivity].
    destruct Hiff as [_ Hiff]. discriminate (Hiff eq_refl).
  - split; [discriminate|].
    destruct (prediction_event (env_apply (during_wait t) w2)); [|reflexivity].
    destruct Hiff as [_ Hiff]. discriminate (Hiff eq_refl).
  - contradiction.
Qed.

Lemma shutdown_is_terminal_witness :
  main_loop worker [one_job [tick completes]]
    (env_apply terminates idle) =
  (Ret tt, env_apply terminates idle, [ShutdownIsSet true]) /\
  shutdown_event
    (final (handle_message worker (one_job []) (env_apply terminates idle)))
  = true /\
  result (wait_loop worker (JStr "p1") [tick terminates; tick completes] idle)
  <> Pend /\
  acked (events (handle_message worker
                   (one_job [tick quiet; tick terminates; tick completes]) idle))
  = false.
Proof.
  destruct (shutdown_is_terminal worker) as [_ [Hmain [Hkeep [Hwait Hjob]]]].
  split; [apply Hmain; reflexivity|].
  split; [apply Hkeep; reflexivity|].
  split; [apply Hwait; reflexivity|].
  refine (proj2 (Hjob (one_job [tick quiet; tick terminates; tick completes])
                   idle "1-0" (JStr "p1")
                   (submitted_world (one_job []) p1 idle)
                   (submission_events worker (one_job []) p1_fields idle)
                   [tick quiet] (tick terminates) [tick completes]
                   (submitted_world (one_job []) p1 idle)
                   [PredictionWait false; RedisShouldCancel false;
                    ShutdownIsSet false] _ _ _ _)); reflexivity.
Defined.

(** C5, as worded, fails twice.  A job is dispatched and still running after
    one pass; during the next bounded wait the termination signal arrives
    and, after it, the completion: the job is acknowledged, not abandoned.
    And the termination signal arrives when the main loop has just found the
    flag clear: the dequeue that follows is made with the flag set, and the
    job it yields is submitted and acknowledged before the loop looks at the
    flag again. *)
Lemma dequeued_and_acknowledged_after_shutdown :
  ~ abandoned_once_shutdown_fired
      (events (handle_message worker shutdown_and_completion idle)) /\
  ~ no_dequeue_once_shutdown_fired
      (events (main_loop worker [signal_before_dequeue] idle)) /\
  filter (fun e => is_shutdown_fired e || is_get e || is_ack e)
    (events (main_loop worker [signal_before_dequeue] idle)) =
  [EnvShutdown; RedisGet; RedisAck "1-0"].
Proof.
  split; [|split].
  - unfold abandoned_once_shutdown_fired. vm_compute. intros H.
    specialize (H eq_refl). discriminate.
  - unfold no_dequeue_once_shutdown_fired. vm_compute. discriminate.
  - reflexivity.
Qed.

(** ** The loop boundary *)

Lemma main_loop_never_raises (self : QueueWorker) (js : list job_script)
  (w : world) :
  match result (main_loop self js w) with
  | Ret _ => shutdown_event (final (main_loop self js w)) = true
  | Exc _ => False
  | Pend => True
  end.
Proof.
  revert w. induction js as [|j js IH]; intros w.
  - rewrite main_loop_nil. destruct (shutdown_event w) eqn:Hs; cbn; auto.
  - rewrite main_loop_cons. destruct (shutdown_event w) eqn:Hs; [cbn; auto|].
    rewrite result_after, final_after.
    destruct (handle_message self j (env_apply (before_get j) w))
      as [[[u| e |] w1] t1];
      rewrite ?result_after, ?final_after; try apply IH.
    cbn. exact I.
Qed.

Lemma main_loop_swallows (self : QueueWorker) (j : job_script)
  (js : list job_script) (w w1 : world) (e : exn) (t1 : list event) :
  shutdown_event w = false ->
  handle_message self j (env_apply (before_get j) w) = (Exc e, w1, t1) ->
  main_loop self (j :: js) w =
  after (ShutdownIsSet false
         :: env_events (before_get j) ++
            t1 ++ [LogException "failed to handle message" e])
    (main_loop self js w1).
Proof.
  intros Hs H. rewrite main_loop_cons, Hs, H, after_after. reflexivity.
Qed.

(** C8: the main loop never ends with an exception; it returns only with the
    shutdown flag set; an iteration whose [handle_message] raises is followed
    by the log entry and then by the rest of the loop; and [start] returns
    only with the flag set and raises only if the setup loop did. *)
Theorem failures_are_swallowed (self : QueueWorker) :
  (forall js w e, result (main_loop self js w) <> Exc e) /\
  (forall js w u,
     result (main_loop self js w) = Ret u ->
     shutdown_event (final (main_loop self js w)) = true) /\
  (forall j js w w1 e t1,
     shutdown_event w = false ->
     handle_message self j (env_apply (before_get j) w) = (Exc e, w1, t1) ->
     main_loop self (j :: js) w =
     after (ShutdownIsSet false
            :: env_events (before_get j) ++
               t1 ++ [LogException "failed to handle message" e])
       (main_loop self js w1)) /\
  (forall s w u,
     result (start self s w) = Ret u ->
     shutdown_event (final (start self s w)) = true) /\
  (forall s w e,
     result (start self s w) = Exc e ->
     result (setup_loop self (setup_polls s) 0 w) = Exc e).
Proof.
  split.
  { intros js w e H. pose proof (main_loop_never_raises self js w) as Hn.
    rewrite H in Hn. exact Hn. }
  split.
  { intros js w u H. pose proof (main_loop_never_raises self js w) as Hn.
    rewrite H in Hn. exact Hn. }
  split; [intros; apply main_loop_swallows; assumption|].
  split.
  - intros s w u. rewrite start_cases.
    destruct (setup_loop self (setup_polls s) 0 w) as [[[u0| e |] w1] t1];
      try discriminate.
    rewrite result_after, final_after.
    pose proof (main_loop_never_raises self (jobs s) w1) as Hn.
    destruct (main_loop self (jobs s) w1) as [[[u1| e |] w2] t2];
      try discriminate.
    intros _. exact Hn.
  - intros s w e. rewrite start_cases.
    destruct (setup_loop self (setup_polls s) 0 w) as [[[u0| e0 |] w1] t1];
      try discriminate; [|auto].
    rewrite result_after.
    pose proof (main_loop_never_raises self (jobs s) w1) as Hn.
    destruct (main_loop self (jobs s) w1) as [[[u1| e1 |] w2] t2];
      try discriminate.
    contradiction.
Qed.

Lemma failures_are_swallowed_witness :
  main_loop worker [broken_stream; rejected_job; empty_stream] idle =
  after (ShutdownIsSet false
         :: [RedisGet] ++ [LogException "failed to handle message" RedisError])
    (main_loop worker [rejected_job; empty_stream] idle) /\
  shutdown_event
    (final (start worker
              {| setup_polls := [healthy_poll];
                 jobs := [broken_stream;
                          {| before_get := quiet;
                             get_res := GetEmpty; during_get := terminates;
                             post_res := Unreachable; during_post := quiet;
                             ticks := [] |}] |} idle)) = true /\
  result (setup_loop worker [{| health_result := answer 200;
                                during_health := quiet |}] 0 idle) =
  Exc JSONDecodeError.
Proof.
  destruct (failures_are_swallowed worker) as [_ [_ [Hstep [Hstart Hcrash]]]].
  split.
  { apply (Hstep broken_stream [rejected_job; empty_stream] idle idle
             RedisError [RedisGet]); reflexivity. }
  split; [apply (Hstart _ _ tt); reflexivity|].
  apply (Hcrash {| setup_polls := [{| health_result := answer 200;
                                      during_health := quiet |}];
                   jobs := [] |}). reflexivity.
Defined.

(** ** A cancellation request that fails *)

Lemma wait_loop_cancel_fails (self : QueueWorker) (prediction_id : json)
  (t : wait_tick) (rest : list wait_tick) (w : world) (e : exn) :
  prediction_event (env_apply (during_wait t) w) = false ->
  cancel_requested t = true ->
  cancel_failure prediction_id (cancel_result t) = Some e ->
  wait_loop self prediction_id (t :: rest) w =
  (Exc e, failed_cancel_world prediction_id t w,
   failed_cancel_events self prediction_id t).
Proof.
  intros Hp Hc Hf. rewrite wait_loop_cons. cbn zeta. rewrite Hp, Hc.
  unfold failed_cancel_world, failed_cancel_events.
  destruct prediction_id; cbn [cancel_failure] in Hf;
    try (injection Hf as <-; cbn [after app]; rewrite <- ?app_assoc;
         reflexivity).
  rewrite Hf. cbn [after app]. rewrite <- ?app_assoc, ?app_nil_r. reflexivity.
Qed.

Lemma polls_env_events (a : env_act) : filter is_poll (env_events a) = [].
Proof.
  induction a as [|x a IH]; [reflexivity|].
  destruct x; cbn; auto.
Qed.

Lemma failed_cancel_polls (self : QueueWorker) (prediction_id : json)
  (t : wait_tick) :
  polls (failed_cancel_events self prediction_id t) = 1%nat.
Proof.
  unfold polls, failed_cancel_events. rewrite filter_app, polls_env_events.
  destruct prediction_id; try reflexivity.
  cbn. rewrite polls_env_events. reflexivity.
Qed.

(** C2, as the code has it.  The job is dispatched and still running after
    the passes [pre]; in the next pass the wait times out, the cancellation
    is requested and the request fails.  Then [handle_message] raises that
    failure after this very pass, with one bounded wait in it and no
    acknowledgement anywhere in the call, and the remaining passes of the
    script are never made.  The main loop, whose iteration made this call,
    logs the failure and goes on to its next iteration. *)
Theorem cancel_failure_ends_the_job
  (self : QueueWorker) (j : job_script) (js : list job_script) (w : world)
  message_id prediction_id w1 t1 pre t rest w2 t2 e :
  dispatch self j w = (Ret (Some (message_id, prediction_id)), w1, t1) ->
  ticks j = pre ++ t :: rest ->
  wait_loop self prediction_id pre w1 = (Pend, w2, t2) ->
  prediction_event (env_apply (during_wait t) w2) = false ->
  cancel_requested t = true ->
  cancel_failure prediction_id (cancel_result t) = Some e ->
  let t3 := failed_cancel_events self prediction_id t in
  let w3 := failed_cancel_world prediction_id t w2 in
  handle_message self j w = (Exc e, w3, t1 ++ t2 ++ t3) /\
  acked (t1 ++ t2 ++ t3) = false /\
  polls t3 = 1%nat /\
  forall w0,
    shutdown_event w0 = false ->
    env_apply (before_get j) w0 = w ->
    main_loop self (j :: js) w0 =
    after (ShutdownIsSet false
           :: env_events (before_get j) ++
              (t1 ++ t2 ++ t3) ++ [LogException "failed to handle message" e])
      (main_loop self js w3).
Proof.
  intros Hd Hticks Hpre Hp Hc Hf. cbn zeta.
  assert (Hhm : handle_message self j w =
                (Exc e, failed_cancel_world prediction_id t w2,
                 t1 ++ t2 ++ failed_cancel_events self prediction_id t)).
  { rewrite handle_message_cases, Hd, Hticks.
    rewrite (wait_loop_app _ _ _ _ _ _ _ Hpre).
    rewrite (wait_loop_cancel_fails _ _ _ _ _ _ Hp Hc Hf). reflexivity. }
  split; [exact Hhm|].
  split.
  - destruct (handle_message_dispatched self j w _ _ _ _ Hd) as [Ht1 [Hwl _]].
    rewrite Hticks, (wait_loop_app _ _ _ _ _ _ _ Hpre) in Hwl.
    rewrite (wait_loop_cancel_fails _ _ _ _ _ _ Hp Hc Hf) in Hwl.
    cbn [after events snd] in Hwl. rewrite acked_app, Ht1, Hwl. reflexivity.
  - split; [apply failed_cancel_polls|].
    intros w0 Hs Hw0. subst w. apply main_loop_swallows; assumption.
Qed.

Lemma cancel_failure_ends_the_job_witness :
  handle_message worker (one_job [tick quiet; cancel_refused; tick completes])
    idle =
  (Exc (HTTPError 404),
   failed_cancel_world (JStr "p1") cancel_refused
     (submitted_world (one_job []) p1 idle),
   submission_events worker (one_job []) p1_fields idle ++
   [PredictionWait false; RedisShouldCancel false; ShutdownIsSet false] ++
   failed_cancel_events worker (JStr "p1") cancel_refused).
Proof.
  refine (proj1 (cancel_failure_ends_the_job worker
            (one_job [tick quiet; cancel_refused; tick completes]) [] idle
            "1-0" (JStr "p1") (submitted_world (one_job []) p1 idle)
            (submission_events worker (one_job []) p1_fields idle)
            [tick quiet] cancel_refused [tick completes]
            (submitted_world (one_job []) p1 idle)
            [PredictionWait false; RedisShouldCancel false; ShutdownIsSet false]
            (HTTPError 404) _ _ _ _ _ _)); reflexivity.
Defined.

(** C2, as worded, fails: the cancellation request is answered with 404, and
    the polling loop ends with that failure after one bounded wait, although
    the script holds a second pass in which the prediction completes. *)
Lemma cancel_failure_leaves_the_loop :
  ~ stays_dispatched
      (wait_loop worker (JStr "p1") [cancel_refused; tick completes] idle).
Proof.
  unfold stays_dispatched. vm_compute. auto.
Qed.

(** ** The exits of the polling loop *)

Lemma wait_loop_base (self self' : QueueWorker) (prediction_id : json)
  (ts : list wait_tick) (w : world) :
  cog_http_base self = cog_http_base self' ->
  wait_loop self prediction_id ts w = wait_loop self' prediction_id ts w.
Proof.
  intros H. revert w. induction ts as [|t rest IH]; intros w; [reflexivity|].
  rewrite !wait_loop_cons. cbn zeta. rewrite H.
  destruct (prediction_event _); [reflexivity|].
  destruct (cancel_requested t).
  - destruct prediction_id; try reflexivity.
    destruct (http_failure (cancel_result t)); [reflexivity|].
    destruct (shutdown_event _); [reflexivity|]. rewrite IH. reflexivity.
  - destruct (shutdown_event _); [reflexivity|]. rewrite IH. reflexivity.
Qed.

Lemma dispatch_base (self self' : QueueWorker) (j : job_script) (w : world) :
  cog_http_base self = cog_http_base self' ->
  dispatch self j w = dispatch self' j w.
Proof.
  destruct self as [t1 b1], self' as [t2 b2]. cbn. intros ->. reflexivity.
Qed.

Lemma handle_message_base (self self' : QueueWorker) (j : job_script)
  (w : world) :
  cog_http_base self = cog_http_base self' ->
  handle_message self j w = handle_message self' j w.
Proof.
  intros H. rewrite !handle_message_cases, (dispatch_base self self' j w H).
  destruct (dispatch self' j w) as [[[[[message_id prediction_id]|]| e |] w1] t1];
    try reflexivity.
  rewrite (wait_loop_base self self' _ _ _ H). reflexivity.
Qed.

Lemma main_loop_base (self self' : QueueWorker) (js : list job_script)
  (w : world) :
  cog_http_base self = cog_http_base self' ->
  main_loop self js w = main_loop self' js w.
Proof.
  intros H. revert w. induction js as [|j js IH]; intros w.
  - rewrite !main_loop_nil. reflexivity.
  - rewrite !main_loop_cons, (handle_message_base self self' j _ H).
    destruct (shutdown_event w); [reflexivity|].
    destruct (handle_message self' j (env_apply (before_get j) w))
      as [[[u| e |] w1] t1];
      rewrite ?IH; reflexivity.
Qed.

Lemma setup_loop_base (self self' : QueueWorker) (polls : list health_poll)
  (count : Z) (w : world) :
  cog_http_base self = cog_http_base self' ->
  setup_loop self polls count w = setup_loop self' polls count w.
Proof.
  intros H. revert count w. induction polls as [|p rest IH]; intros count w.
  - rewrite !setup_loop_nil. reflexivity.
  - rewrite !setup_loop_cons. cbn zeta. rewrite H.
    destruct (shutdown_event w); [reflexivity|].
    destruct (health_verdict (health_result p)); rewrite ?IH; reflexivity.
Qed.

Lemma start_base (self self' : QueueWorker) (s : run_script) (w : world) :
  cog_http_base self = cog_http_base self' ->
  start self s w = start self' s w.
Proof.
  intros H. rewrite !start_cases, (setup_loop_base self self' _ _ _ H).
  destruct (setup_loop self' (setup_polls s) 0 w) as [[[u| e |] w1] t1];
    try reflexivity.
  rewrite (main_loop_base self self' _ _ H). reflexivity.
Qed.

(** C9, as the code has it.  Two workers that differ in [predict_timeout]
    only run alike.  The polling loop leaves through [break] right after a
    bounded wait that returned true, through [return] right after finding the
    shutdown flag set, or through the exception of a cancellation request that
    was made and failed; there is no other way out, and a loop on which none
    of the three happens is still polling after any number of passes. *)
Theorem no_timeout_three_exits :
  (forall timeout1 timeout2 s w,
     start (QueueWorker_init timeout1) s w =
     start (QueueWorker_init timeout2) s w) /\
  (forall self prediction_id ts w,
     match wait_loop self prediction_id ts w with
     | (Ret true, w', evs) =>
         ends_in (PredictionWait true) evs /\ prediction_event w' = true
     | (Ret false, w', evs) =>
         ends_in (ShutdownIsSet true) evs /\ shutdown_event w' = true
     | (Exc e, _, evs) =>
         forallb inert evs = true /\
         exists t, In t ts /\ cancel_requested t = true /\
                   cancel_failure prediction_id (cancel_result t) = Some e
     | (Pend, _, evs) => forallb inert evs = true
     end) /\
  (forall self prediction_id n w,
     prediction_event w = false ->
     shutdown_event w = false ->
     let x := wait_loop self prediction_id (repeat (tick quiet) n) w in
     result x = Pend /\ polls (events x) = n).
Proof.
  split; [intros; apply start_base; reflexivity|].
  split; [intros; apply wait_loop_outcome|].
  intros self prediction_id n w Hp Hs. cbn zeta.
  induction n as [|n IH]; [cbn; auto|].
  cbn [repeat]. rewrite wait_loop_cons. cbn zeta.
  assert (Hw : env_apply (during_wait (tick quiet)) w = w).
  { destruct w as [pe se inbox peer]. unfold env_apply. cbn.
    rewrite !orb_false_r, app_nil_r. reflexivity. }
  rewrite Hw, Hp, Hs. cbn [tick cancel_requested].
  destruct (wait_loop self prediction_id (repeat (tick quiet) n) w)
    as [[r w'] t']. cbn in *. destruct IH as [-> <-]. auto.
Qed.

Lemma no_timeout_three_exits_witness :
  result (wait_loop (QueueWorker_init 1) (JStr "p1")
            (repeat (tick quiet) 600) idle) = Pend /\
  polls (events (wait_loop (QueueWorker_init 1) (JStr "p1")
                   (repeat (tick quiet) 600) idle)) = 600%nat.
Proof.
  apply (proj2 (proj2 no_timeout_three_exits)); reflexivity.
Defined.

(** C9, as worded, fails: the cancellation request times out and the polling
    loop ends with that exception, with neither a completion nor a shutdown
    observed. *)
Lemma left_without_a_signal :
  ~ left_by_signal (wait_loop worker (JStr "p1") [cancel_times_out] idle).
Proof.
  unfold left_by_signal. vm_compute. discriminate.
Qed.

(** ** What the pipe and the model container receive *)

Lemma pipe_sends_app (evs1 evs2 : list event) :
  pipe_sends (evs1 ++ evs2) = pipe_sends evs1 ++ pipe_sends evs2.
Proof.
  induction evs1 as [|e evs1 IH]; [reflexivity|].
  destruct e; cbn; rewrite ?IH; reflexivity.
Qed.

Lemma posted_app (evs1 evs2 : list event) :
  posted (evs1 ++ evs2) = posted evs1 ++ posted evs2.
Proof.
  induction evs1 as [|e evs1 IH]; [reflexivity|].
  destruct e as [| | | | | | | | | | | | |url [payload|] headers| | |];
    cbn; rewrite ?IH; reflexivity.
Qed.

Lemma env_events_carry_nothing (a : env_act) :
  pipe_sends (env_events a) = [] /\ posted (env_events a) = [].
Proof.
  induction a as [|x a [IH1 IH2]]; [auto|].
  destruct x; cbn; auto.
Qed.

Lemma drain_events_carry_nothing (inbox : list json) :
  pipe_sends (drain_events inbox) = [] /\ posted (drain_events inbox) = [].
Proof.
  unfold drain_events. induction inbox as [|m inbox [IH1 IH2]]; cbn; auto.
Qed.

Lemma supervision_carries_nothing (evs : list event) :
  forallb is_supervision_event evs = true ->
  pipe_sends evs = [] /\ posted evs = [].
Proof.
  induction evs as [|e evs IH]; cbn; [auto|].
  intros H. apply andb_true_iff in H as [He Hevs].
  destruct (IH Hevs) as [IH1 IH2].
  destruct e as [| | | | | | | | | | | | |url [payload|] headers| | |];
    cbn in *; try discriminate; auto.
Qed.

Lemma submission_events_carry (self : QueueWorker) (j : job_script)
  (fields : list (string * json)) (w : world) :
  pipe_sends (submission_events self j fields w) = [JObj fields] /\
  posted (submission_events self j fields w) =
  [((cog_http_base self ++ "/predictions")%string,
    JObj (dict_set fields "webhook" (JStr webhook_url)))].
Proof.
  unfold submission_events.
  destruct (env_events_carry_nothing (during_get j)) as [Hg1 Hg2].
  destruct (env_events_carry_nothing (during_post j)) as [Hp1 Hp2].
  destruct (drain_events_carry_nothing
              (pipe_inbox (env_apply (during_get j) w))) as [Hd1 Hd2].
  cbn [pipe_sends posted].
  rewrite !pipe_sends_app, !posted_app. cbn [pipe_sends posted].
  rewrite !pipe_sends_app, !posted_app. cbn [pipe_sends posted].
  rewrite Hg1, Hg2, Hp1, Hp2, Hd1, Hd2. auto.
Qed.

Lemma dict_get_set (d : list (string * json)) (k : string) (v : json) :
  dict_get (dict_set d k v) k = Some v.
Proof.
  induction d as [|[k' v'] d IH]; cbn.
  - rewrite String.eqb_refl. reflexivity.
  - destruct (String.eqb k' k) eqn:E; cbn; rewrite E; auto.
Qed.

Lemma handle_message_submitted (self : QueueWorker) (j : job_script)
  (w : world) message_id fields prediction_id :
  get_res j = GetMessage message_id (Some (JObj fields)) ->
  dict_get fields "id" = Some prediction_id ->
  http_failure (post_res j) = None ->
  exists t2,
    events (handle_message self j w) =
    submission_events self j fields w ++ t2 /\
    pipe_sends t2 = [] /\ posted t2 = [].
Proof.
  intros Hget Hid Hok.
  rewrite handle_message_cases, (dispatch_message _ _ _ _ _ _ Hget Hid), Hok.
  destruct (wait_loop_emits self prediction_id (ticks j)
              (submitted_world j (JObj fields) w)) as [Hsup _].
  apply supervision_carries_nothing in Hsup as [Hs1 Hs2].
  destruct (wait_loop self prediction_id (ticks j)
              (submitted_world j (JObj fields) w)) as [[[[|]| e |] w2] t2];
    cbn [after events snd] in *.
  - exists (t2 ++ [RedisAck message_id]).
    rewrite pipe_sends_app, posted_app, Hs1, Hs2. auto.
  - exists t2. auto.
  - exists t2. auto.
  - exists t2. auto.
Qed.

(** C3, as the code has it: in a call of [handle_message] that dequeues a
    JSON object with an id and whose submission is accepted, the pipe is
    written exactly once, with the message as it was dequeued; the one body
    posted to the model container is that message with [webhook] set to the
    worker's own callback address. *)
Theorem pipe_receives_the_original_message
  (self : QueueWorker) (j : job_script) (w : world)
  message_id fields prediction_id :
  get_res j = GetMessage message_id (Some (JObj fields)) ->
  dict_get fields "id" = Some prediction_id ->
  http_failure (post_res j) = None ->
  let evs := events (handle_message self j w) in
  pipe_sends evs = [JObj fields] /\
  posted evs =
  [((cog_http_base self ++ "/predictions")%string,
    JObj (dict_set fields "webhook" (JStr webhook_url)))] /\
  dict_get (dict_set fields "webhook" (JStr webhook_url)) "webhook" =
  Some (JStr webhook_url).
Proof.
  intros Hget Hid Hok. cbn zeta.
  destruct (handle_message_submitted self j w _ _ _ Hget Hid Hok)
    as [t2 [-> [Hs Hp]]].
  destruct (submission_events_carry self j fields w) as [Hs' Hp'].
  rewrite pipe_sends_app, posted_app, Hs, Hp, Hs', Hp'.
  repeat split; auto. apply dict_get_set.
Qed.

Lemma pipe_receives_the_original_message_witness :
  pipe_sends (events (handle_message worker
                        (one_job [tick quiet; tick quiet; tick completes]) idle))
  = [JObj p1_fields].
Proof.
  apply (pipe_receives_the_original_message worker
           (one_job [tick quiet; tick quiet; tick completes]) idle
           "1-0" p1_fields (JStr "p1")); reflexivity.
Defined.

(** C3, as worded, fails: the health check has passed, the queue yields [p1],
    the submission is accepted and the prediction completes in the third poll
    interval; the descriptor written to the pipe has no [webhook] field. *)
Lemma pipe_descriptor_not_overwritten :
  ~ sends_overwritten_descriptor p1_fields
      (events (handle_message worker
                 (one_job [tick quiet; tick quiet; tick completes]) idle)).
Proof.
  unfold sends_overwritten_descriptor. vm_compute. discriminate.
Qed.

(** C10: when the submission fails, [handle_message] ends with that failure
    and with everything it did before still in place: the message is in the
    pipe (after whatever the peer had not yet received, less what the peer
    received meanwhile), [prediction_event] was cleared before the request and
    is set only if the completion signal fired during it, and nothing was
    acknowledged.  A submission fails when the call of the client raises or the
    answer has a status from 400 to 599, which is what [raise_for_status]
    rejects; an answer with another status outside 200..299 is no failure, as
    [unmodified_job] shows. *)
Theorem failed_submission_is_not_rolled_back
  (self : QueueWorker) (j : job_script) (w : world)
  message_id fields prediction_id e :
  get_res j = GetMessage message_id (Some (JObj fields)) ->
  dict_get fields "id" = Some prediction_id ->
  http_failure (post_res j) = Some e ->
  let w' := submitted_world j (JObj fields) w in
  let evs := submission_events self j fields w in
  handle_message self j w = (Exc e, w', evs) /\
  pipe_sends evs = [JObj fields] /\
  (exists before after_it,
     evs = before ++ PipeSend (JObj fields) :: PredictionClear :: after_it /\
     exists url payload headers,
       after_it = HttpPost url payload headers :: env_events (during_post j)) /\
  pipe_peer_inbox w' =
    skipn (peer_receives (during_post j))
      (skipn (peer_receives (during_get j)) (pipe_peer_inbox w) ++ [JObj fields]) /\
  prediction_event w' = fires_complete (during_post j) /\
  acked evs = false /\
  (post_res j = Unreachable \/
   exists resp,
     post_res j = Response resp /\ 400 <= status_code resp < 600).
Proof.
  intros Hget Hid Hfail. cbn zeta.
  split.
  { rewrite handle_message_cases, (dispatch_message _ _ _ _ _ _ Hget Hid), Hfail.
    reflexivity. }
  split; [apply submission_events_carry|].
  split.
  { unfold submission_events.
    eexists (RedisGet :: env_events (during_get j) ++ RedisChecker _ ::
             drain_events _), _.
    split.
    - cbn [app]. rewrite <- ?app_assoc. cbn [app]. rewrite <- ?app_assoc.
      reflexivity.
    - eauto. }
  split; [reflexivity|].
  split; [reflexivity|].
  split.
  { destruct (dispatch_events self j w) as [tl [Hev [Htl _]]].
    rewrite (dispatch_message _ _ _ _ _ _ Hget Hid) in Hev.
    cbn [events snd] in Hev. rewrite Hev. cbn. apply acked_submission, Htl. }
  destruct (post_res j) as [|resp]; [left; reflexivity|right].
  exists resp. split; [reflexivity|].
  cbn [http_failure] in Hfail.
  destruct ((400 <=? status_code resp) && (status_code resp <? 600)) eqn:Hs;
    [|discriminate].
  apply andb_true_iff in Hs. lia.
Qed.

Lemma failed_submission_is_not_rolled_back_witness :
  handle_message worker rejected_job idle =
  (Exc (HTTPError 422),
   submitted_world rejected_job p0 idle,
   submission_events worker rejected_job
     [("id", JStr "p0"); ("cancel_key", JStr "c0");
      ("input", JObj [("prompt", JNum 7)])] idle).
Proof.
  apply (failed_submission_is_not_rolled_back worker rejected_job idle
           "0-1" _ (JStr "p0") (HTTPError 422)); reflexivity.
Defined.

(** C10 as worded, refuted: the answer 304 to the submission is not 2xx, yet
    [raise_for_status] lets it pass; the job is supervised and acknowledged
    and [handle_message] returns. *)
Lemma non_2xx_answer_is_acknowledged :
  ~ non_2xx_ends_in_error unmodified_job
      (handle_message worker unmodified_job idle) /\
  non_2xx (post_res unmodified_job) = true /\
  result (handle_message worker unmodified_job idle) = Ret tt /\
  filter is_ack (events (handle_message worker unmodified_job idle)) =
  [RedisAck "1-0"].
Proof.
  split; [|repeat split; vm_compute; reflexivity].
  intros H. destruct (H eq_refl) as [Hack _]. vm_compute in Hack.
  discriminate.
Qed.

(** C4 does not hold of the code.  The model container rejects [p0], so
    nothing makes the peer read the pipe; the next call of [handle_message]
    polls its own end of the pipe, finds nothing to receive, and writes [p1]
    behind [p0]: the peer has two pending messages, and the one it receives
    next is the descriptor of the rejected job.  What the loop before the
    write does discard is a message that the peer has sent to the worker. *)
Theorem stale_descriptor_survives :
  let x := main_loop worker [rejected_job; one_job [tick completes]] idle in
  let y := handle_message worker (one_job [tick completes])
             {| prediction_event := false; shutdown_event := false;
                pipe_inbox := [JStr "late"]; pipe_peer_inbox := [p0] |} in
  pipe_peer_inbox (final x) = [p0; p1] /\
  filter is_pipe_event (events x) =
  [PipePoll false; PipeSend p0; PipePoll false; PipeSend p1] /\
  ~ at_most_one_pending (final x) /\
  filter is_pipe_event (events y) =
  [PipePoll true; PipeRecv (JStr "late"); PipePoll false; PipeSend p1] /\
  pipe_inbox (final y) = [] /\
  pipe_peer_inbox (final y) = [p0; p1].
Proof.
  vm_compute. repeat split. lia.
Qed.

(** ** The setup loop ends in the main loop only through a ready answer *)

Lemma get_in_events (evs : list event) :
  In RedisGet evs -> forallb not_get evs = true -> False.
Proof.
  intros Hin Hall. rewrite forallb_forall in Hall.
  specialize (Hall _ Hin). discriminate.
Qed.

Lemma health_verdict_ready (res : http_result) :
  health_verdict res = Ready ->
  exists fields sfields,
    res = Response {| status_code := 200; body := Some (JObj fields) |} /\
    dict_get fields "status" = Some (JStr "healthy") /\
    dict_get fields "setup" = Some (JObj sfields) /\
    dict_get sfields "status" = Some (JStr "succeeded").
Proof.
  unfold health_verdict. destruct res as [|[code b]]; [discriminate|].
  cbn [status_code body]. destruct (code =? 200) eqn:Hc; [|discriminate].
  apply Z.eqb_eq in Hc. subst code.
  destruct b as [b|]; [|discriminate].
  destruct (result (setup_succeeded b idle)) as [[|]| e |] eqn:Hr;
    try discriminate.
  intros _. destruct (setup_succeeded_true b Hr) as [fields [sfields [-> H]]].
  exists fields, sfields. auto.
Qed.

(** C6: a run of [start] reaches a dequeue only if some health check of the
    setup loop was answered with status code 200 and a body whose [status] is
    "healthy" and whose [setup] is an object with [status] "succeeded"; and a
    health check that ends in an exception of [requests] is followed by the
    liveness message when it is due, the sleep, and the next pass of the
    loop. *)
Theorem setup_gates_the_main_loop (self : QueueWorker) :
  (forall s w,
     In RedisGet (events (start self s w)) ->
     exists p fields sfields,
       In p (setup_polls s) /\
       health_result p =
         Response {| status_code := 200; body := Some (JObj fields) |} /\
       dict_get fields "status" = Some (JStr "healthy") /\
       dict_get fields "setup" = Some (JObj sfields) /\
       dict_get sfields "status" = Some (JStr "succeeded")) /\
  (forall p rest count w,
     shutdown_event w = false ->
     health_result p = Unreachable ->
     setup_loop self (p :: rest) count w =
     after (ShutdownIsSet false
            :: HttpGet (cog_http_base self ++ "/health-check")%string
            :: env_events (during_health p) ++
               liveness_events (count + 1) ++ [Sleep SETUP_POLL_INTERVAL])
       (setup_loop self rest (count + 1) (env_apply (during_health p) w))).
Proof.
  split.
  - intros s w Hin. rewrite start_cases in Hin.
    destruct (setup_loop_ends self (setup_polls s) 0 w) as [Hev [_ Hexit]].
    apply (forallb_impl _ _ _ setup_not_get) in Hev.
    destruct (setup_loop self (setup_polls s) 0 w) as [[[u| e |] w1] t1];
      cbn [events final result fst snd] in *;
      try (exfalso; exact (get_in_events _ Hin Hev)).
    destruct (Hexit u eq_refl) as [Hstop|[p [Hp Hready]]].
    + exfalso. rewrite (main_loop_stopped self (jobs s) w1 Hstop) in Hin.
      cbn in Hin. apply (get_in_events _ Hin).
      rewrite forallb_app, Hev. reflexivity.
    + destruct (health_verdict_ready _ Hready) as [fields [sfields H]].
      exists p, fields, sfields. tauto.
  - intros p rest count w Hs Hres.
    rewrite setup_loop_cons, Hs, Hres. cbn zeta. cbn [health_verdict].
    rewrite after_after. reflexivity.
Qed.

Lemma setup_gates_the_main_loop_witness :
  (exists p fields sfields,
     In p [unreachable_poll; healthy_poll] /\
     health_result p =
       Response {| status_code := 200; body := Some (JObj fields) |} /\
     dict_get fields "status" = Some (JStr "healthy") /\
     dict_get fields "setup" = Some (JObj sfields) /\
     dict_get sfields "status" = Some (JStr "succeeded")) /\
  setup_loop worker [unreachable_poll; healthy_poll] 49 idle =
  after [ShutdownIsSet false; HttpGet "http://localhost:5000/health-check";
         LogInfo "waiting for model container to complete setup";
         Sleep 100]
    (setup_loop worker [healthy_poll] 50 idle).
Proof.
  destruct (setup_gates_the_main_loop worker) as [Hready Hretry].
  split.
  - apply (Hready {| setup_polls := [unreachable_poll; healthy_poll];
                     jobs := [one_job [tick completes]] |} idle).
    vm_compute. tauto.
  - apply (Hretry unreachable_poll [healthy_poll] 49 idle); reflexivity.
Defined.

(** ** [handle_message] before the message reaches the pipe *)

Lemma dispatch_empty (self : QueueWorker) (j : job_script) (w : world) :
  get_res j = GetEmpty ->
  dispatch self j w =
  (Ret None, env_apply (during_get j) w,
   RedisGet :: env_events (during_get j) ++ [Sleep POLL_INTERVAL]).
Proof.
  intros Hget. unfold dispatch, try_except, redis_consumer_get, bind.
  rewrite Hget. unfold emit, env_step, time_sleep, emit, ret. cbn.
  rewrite ?app_nil_r. reflexivity.
Qed.

Lemma dispatch_fails (self : QueueWorker) (j : job_script) (w : world) :
  get_res j = GetFails ->
  dispatch self j w =
  (Exc RedisError, env_apply (during_get j) w,
   RedisGet :: env_events (during_get j)).
Proof.
  intros Hget. unfold dispatch, try_except, redis_consumer_get, bind.
  rewrite Hget. unfold emit, env_step, ret. cbn.
  rewrite ?app_nil_r. reflexivity.
Qed.

Lemma dispatch_malformed (self : QueueWorker) (j : job_script) (w : world)
  message_id message_json e :
  get_res j = GetMessage message_id message_json ->
  message_error message_json = Some e ->
  dispatch self j w =
  (Exc e, env_apply (during_get j) w,
   RedisGet :: env_events (during_get j) ++ checker_events message_json).
Proof.
  intros Hget He. unfold dispatch.
  unfold try_except, redis_consumer_get, bind at 1 2 3 4. rewrite Hget.
  unfold emit, env_step, ret at 1 2.
  cbn -[String.append env_apply env_events clear_prediction_request_pipe bind].
  generalize (env_apply (during_get j) w). intros w1.
  destruct message_json as [[| | | |items|fields]|]; cbn in He;
    try (injection He as <-; cbn; rewrite ?app_nil_r; reflexivity).
  destruct (dict_get fields "id") eqn:Hid; [discriminate|].
  injection He as <-.
  unfold bind, py_getitem, py_get, json_loads, redis_consumer_checker, emit, ret.
  cbn -[String.append env_apply env_events clear_prediction_request_pipe].
  rewrite Hid.
  destruct (dict_get fields "cancel_key"); cbn; rewrite ?app_nil_r; reflexivity.
Qed.

Lemma message_error_none (message_json : option json) :
  message_error message_json = None ->
  exists fields prediction_id,
    message_json = Some (JObj fields) /\
    dict_get fields "id" = Some prediction_id.
Proof.
  destruct message_json as [[| | | |items|fields]|]; cbn; try discriminate.
  destruct (dict_get fields "id") eqn:Hid; [|discriminate].
  intros _. eauto.
Qed.

Lemma handle_message_empty (self : QueueWorker) (j : job_script) (w : world) :
  get_res j = GetEmpty ->
  handle_message self j w =
  (Ret tt, env_apply (during_get j) w,
   RedisGet :: env_events (during_get j) ++ [Sleep POLL_INTERVAL]).
Proof.
  intros Hget. rewrite handle_message_cases, (dispatch_empty _ _ _ Hget).
  reflexivity.
Qed.

Lemma handle_message_fails (self : QueueWorker) (j : job_script) (w : world) :
  get_res j = GetFails ->
  handle_message self j w =
  (Exc RedisError, env_apply (during_get j) w,
   RedisGet :: env_events (during_get j)).
Proof.
  intros Hget. rewrite handle_message_cases, (dispatch_fails _ _ _ Hget).
  reflexivity.
Qed.

(** ** Lists of events, piece by piece *)

Lemma filter_none (P : event -> bool) (evs : list event) :
  forallb (fun e => negb (P e)) evs = true -> filter P evs = [].
Proof.
  induction evs as [|e evs IH]; [reflexivity|].
  cbn [forallb filter]. intros H. apply andb_prop in H as [He H].
  rewrite (IH H). destruct (P e); [discriminate|reflexivity].
Qed.

Lemma filter_all (P : event -> bool) (evs : list event) :
  forallb P evs = true -> filter P evs = evs.
Proof.
  induction evs as [|e evs IH]; [reflexivity|].
  cbn [forallb filter]. intros H. apply andb_prop in H as [He H].
  rewrite (IH H), He. reflexivity.
Qed.

Lemma drain_events_all (P : event -> bool) (inbox : list json) :
  (forall b, P (PipePoll b) = true) -> (forall m, P (PipeRecv m) = true) ->
  forallb P (drain_events inbox) = true.
Proof.
  intros Hp Hr. unfold drain_events. rewrite forallb_app. cbn. rewrite Hp.
  rewrite andb_true_r.
  induction inbox as [|m inbox IH]; [reflexivity|].
  cbn. rewrite Hp, Hr, IH. reflexivity.
Qed.

Lemma submission_events_all (P : event -> bool) (self : QueueWorker)
  (j : job_script) (fields : list (string * json)) (w : world) :
  (forall e, is_env_event e = true -> P e = true) ->
  P RedisGet = true ->
  (forall k, P (RedisChecker k) = true) ->
  (forall b, P (PipePoll b) = true) -> (forall m, P (PipeRecv m) = true) ->
  P (PipeSend (JObj fields)) = true ->
  P PredictionClear = true ->
  P (HttpPost (cog_http_base self ++ "/predictions")%string
       (Some (JObj (dict_set fields "webhook" (JStr webhook_url))))
       [("Prefer", "respond-async")]) = true ->
  forallb P (submission_events self j fields w) = true.
Proof.
  intros Henv Hg Hc Hp Hr Hs Hcl Hpost. unfold submission_events.
  cbn [forallb]. rewrite Hg, forallb_app. cbn [forallb].
  rewrite forallb_app. cbn [forallb app].
  rewrite !(env_events_ok _ Henv), Hc, (drain_events_all _ _ Hp Hr).
  rewrite Hs, Hcl, Hpost. reflexivity.
Qed.

Lemma shutdown_env_apply (a : env_act) (w : world) :
  shutdown_event (env_apply a w) = shutdown_event w || fires_shutdown a.
Proof. reflexivity. Qed.

Lemma env_not_sleep e : is_env_event e = true -> not_sleep e = true.
Proof. destruct e; cbn; congruence. Qed.

Lemma env_is_idle e : is_env_event e = true -> is_idle_event e = true.
Proof. destruct e; cbn; congruence. Qed.

Lemma env_not_pipe e : is_env_event e = true -> negb (is_pipe_event e) = true.
Proof. destruct e; cbn; congruence. Qed.

Lemma env_not_ack e : is_env_event e = true -> negb (is_ack e) = true.
Proof. destruct e; cbn; congruence. Qed.

Lemma env_not_cancel_post e :
  is_env_event e = true -> negb (is_cancel_post e) = true.
Proof. destruct e; cbn; congruence. Qed.

Lemma env_not_cancel_wanted e :
  is_env_event e = true -> negb (is_cancel_wanted e) = true.
Proof. destruct e; cbn; congruence. Qed.

Lemma env_not_liveness e :
  is_env_event e = true -> negb (is_liveness_log e) = true.
Proof. destruct e; cbn; congruence. Qed.

Lemma env_not_health_check e :
  is_env_event e = true -> negb (is_health_check e) = true.
Proof. destruct e; cbn; congruence. Qed.

Lemma supervision_not_sleep e :
  is_supervision_event e = true -> not_sleep e = true.
Proof. destruct e; cbn; congruence. Qed.

Lemma supervision_not_pipe e :
  is_supervision_event e = true -> negb (is_pipe_event e) = true.
Proof. destruct e; cbn; congruence. Qed.

Lemma supervision_not_ack e :
  is_supervision_event e = true -> negb (is_ack e) = true.
Proof. destruct e; cbn; congruence. Qed.

Lemma gets_env_events (a : env_act) : filter is_get (env_events a) = [].
Proof.
  induction a as [|x a IH]; [reflexivity|]. destruct x; cbn; auto.
Qed.

Lemma cancel_posts_env_events (a : env_act) :
  filter is_cancel_post (env_events a) = [].
Proof.
  apply (filter_none is_cancel_post), env_events_ok, env_not_cancel_post.
Qed.

Lemma cancel_wanted_env_events (a : env_act) :
  filter is_cancel_wanted (env_events a) = [].
Proof.
  apply (filter_none is_cancel_wanted), env_events_ok, env_not_cancel_wanted.
Qed.

Lemma env_events_completion (a : env_act) :
  existsb is_completion_fired (env_events a) = fires_complete a.
Proof.
  induction a as [|x a IH]; [reflexivity|]. destruct x; cbn; auto.
Qed.

Lemma acked_none (evs : list event) :
  forallb (fun e => negb (is_ack e)) evs = true -> acked evs = false.
Proof.
  unfold acked. induction evs as [|e evs IH]; [reflexivity|].
  cbn [forallb existsb]. intros H. apply andb_prop in H as [He H].
  rewrite (IH H). destruct (is_ack e); [discriminate|reflexivity].
Qed.

Lemma acked_env_events (a : env_act) : acked (env_events a) = false.
Proof. apply acked_none, env_events_ok, env_not_ack. Qed.

Lemma acked_checker (message_json : option json) :
  acked (checker_events message_json) = false.
Proof. destruct message_json as [[]|]; reflexivity. Qed.

Lemma pipe_sends_checker (message_json : option json) :
  pipe_sends (checker_events message_json) = [].
Proof. destruct message_json as [[]|]; reflexivity. Qed.

Lemma acked_submission_events (self : QueueWorker) (j : job_script)
  (fields : list (string * json)) (w : world) :
  acked (submission_events self j fields w) = false.
Proof.
  apply acked_none, submission_events_all; try reflexivity.
  intros e. destruct e; cbn; congruence.
Qed.

Lemma filter_ack_submission_events (self : QueueWorker) (j : job_script)
  (fields : list (string * json)) (w : world) :
  filter is_ack (submission_events self j fields w) = [].
Proof.
  apply filter_none, submission_events_all; try reflexivity.
  intros e. destruct e; cbn; congruence.
Qed.

Lemma cancel_posts_submission_events (self : QueueWorker) (j : job_script)
  (fields : list (string * json)) (w : world) :
  filter is_cancel_post (submission_events self j fields w) = [].
Proof.
  apply filter_none, submission_events_all; try reflexivity.
  intros e. destruct e; cbn; congruence.
Qed.

Lemma submission_events_pipe (self : QueueWorker) (j : job_script)
  (fields : list (string * json)) (w : world) :
  filter is_pipe_event (submission_events self j fields w) =
  drain_events (pipe_inbox w ++ peer_sends (during_get j)) ++
  [PipeSend (JObj fields)].
Proof.
  unfold submission_events. cbn [filter is_pipe_event].
  rewrite filter_app,
    (filter_none is_pipe_event _ (env_events_ok _ env_not_pipe (during_get j))).
  cbn [app filter is_pipe_event]. rewrite filter_app.
  rewrite (filter_all _ _ (drain_events_all _ _ (fun _ => eq_refl)
                             (fun _ => eq_refl))).
  cbn [app filter is_pipe_event].
  rewrite (filter_none is_pipe_event _
             (env_events_ok _ env_not_pipe (during_post j))).
  reflexivity.
Qed.

(** ** Sleeping *)

Lemma slept_app (evs1 evs2 : list event) :
  slept (evs1 ++ evs2) = slept evs1 + slept evs2.
Proof.
  induction evs1 as [|e evs1 IH]; [reflexivity|].
  destruct e; cbn [app slept]; rewrite IH; lia.
Qed.

Lemma slept_none (evs : list event) :
  forallb not_sleep evs = true -> slept evs = 0.
Proof.
  induction evs as [|e evs IH]; [reflexivity|].
  cbn [forallb]. intros H. apply andb_prop in H as [He H].
  destruct e; cbn in He; try discriminate; cbn [slept]; auto.
Qed.

Lemma handle_message_sleeps (self : QueueWorker) (j : job_script) (w : world) :
  slept (events (handle_message self j w)) =
  if finds_empty j then POLL_INTERVAL else 0.
Proof.
  unfold finds_empty.
  destruct (get_res j) as [| |message_id message_json] eqn:Hget.
  - rewrite (handle_message_empty _ _ _ Hget). cbn [events snd slept].
    rewrite slept_app, (slept_none _ (env_events_ok _ env_not_sleep _)).
    cbn. lia.
  - rewrite (handle_message_fails _ _ _ Hget). cbn [events snd slept].
    apply slept_none, env_events_ok, env_not_sleep.
  - rewrite handle_message_cases.
    destruct (message_error message_json) as [e|] eqn:He.
    + rewrite (dispatch_malformed _ _ _ _ _ _ Hget He). cbn [events snd slept].
      rewrite slept_app, (slept_none _ (env_events_ok _ env_not_sleep _)).
      destruct message_json as [[]|]; reflexivity.
    + destruct (message_error_none _ He) as [fields [pid [-> Hid]]].
      rewrite (dispatch_message _ _ _ _ _ _ Hget Hid).
      assert (Hsub : slept (submission_events self j fields w) = 0).
      { apply slept_none, submission_events_all; auto using env_not_sleep. }
      destruct (http_failure (post_res j)); [exact Hsub|].
      pose proof (wait_loop_emits self pid (ticks j)
                    (submitted_world j (JObj fields) w)) as [Hsup _].
      apply (forallb_impl _ _ _ supervision_not_sleep), slept_none in Hsup.
      destruct (wait_loop self pid (ticks j) _) as [[[[|]| e |] w2] t2];
        cbn [events snd after] in *; rewrite ?slept_app, Hsub, ?Hsup;
        reflexivity.
Qed.

(** X1: [handle_message] calls [time.sleep] in one case only, for
    [POLL_INTERVAL] after [EmptyRedisStream]; a call that ends in any other
    way, a failed dequeue and a message that cannot be handled included,
    does not.  The main loop has no [time.sleep] of its own, so a run of it
    sleeps at most one interval per empty dequeue: after an iteration that
    failed the worker goes on to the next one without a pause. *)
Theorem sleeps_only_on_an_empty_stream (self : QueueWorker) :
  (forall j w,
     slept (events (handle_message self j w)) =
     if finds_empty j then POLL_INTERVAL else 0) /\
  (forall js w,
     slept (events (main_loop self js w)) <=
     POLL_INTERVAL * Z.of_nat (List.length (filter finds_empty js))).
Proof.
  split; [apply handle_message_sleeps|].
  induction js as [|j js IH]; intros w.
  - rewrite main_loop_nil. destruct (shutdown_event w); cbn; lia.
  - rewrite main_loop_cons.
    destruct (shutdown_event w);
      [cbn [events snd slept]; unfold POLL_INTERVAL; lia|].
    generalize (env_apply (before_get j) w). intros w0.
    pose proof (handle_message_sleeps self j w0) as Hj.
    pose proof (slept_none _ (env_events_ok _ env_not_sleep (before_get j)))
      as Henv.
    assert (Hlen : Z.of_nat (List.length (filter finds_empty (j :: js))) =
                   (if finds_empty j then 1 else 0) +
                   Z.of_nat (List.length (filter finds_empty js))).
    { cbn [filter]. destruct (finds_empty j); cbn [List.length]; lia. }
    rewrite Hlen. clear Hlen.
    destruct (handle_message self j w0) as [[[u| e |] w1] t1];
      cbn [events snd] in Hj;
      rewrite ?after_after, ?events_after; cbn [events snd app slept];
      rewrite ?slept_app, ?Hj, ?Henv; cbn [slept];
      try specialize (IH w1);
      destruct (finds_empty j); unfold POLL_INTERVAL in *; lia.
Qed.

(** X2: while the stream stays empty and no termination signal arrives, the
    main loop does nothing but ask the stream and sleep: one dequeue and one
    pause of [POLL_INTERVAL] per iteration, no operation on the pipe or on
    [prediction_event], no HTTP request, no log entry, and it does not
    end. *)
Theorem empty_stream_backs_off
  (self : QueueWorker) (js : list job_script) (w : world) :
  shutdown_event w = false ->
  Forall (fun j => get_res j = GetEmpty /\
                   fires_shutdown (before_get j) = false /\
                   fires_shutdown (during_get j) = false) js ->
  let x := main_loop self js w in
  result x = Pend /\
  gets (events x) = List.length js /\
  slept (events x) = POLL_INTERVAL * Z.of_nat (List.length js) /\
  forallb is_idle_event (events x) = true.
Proof.
  intros Hs Hjs. cbn zeta. revert w Hs.
  induction Hjs as [|j js [Hget [Hgap Hquiet]] _ IH]; intros w Hs.
  - rewrite main_loop_nil, Hs. repeat split.
  - rewrite main_loop_cons, Hs, (handle_message_empty _ _ _ Hget).
    rewrite after_after, result_after, events_after.
    assert (Hs1 : shutdown_event
                    (env_apply (during_get j) (env_apply (before_get j) w)) =
                  false).
    { rewrite !shutdown_env_apply, Hs, Hgap, Hquiet. reflexivity. }
    destruct (IH _ Hs1) as [Hr [Hg [Hz Hi]]].
    repeat split.
    + exact Hr.
    + unfold gets in *.
      repeat first [rewrite filter_app | progress cbn [filter is_get app]].
      rewrite !gets_env_events. cbn [app List.length]. rewrite Hg.
      reflexivity.
    + repeat first [rewrite slept_app | progress cbn [slept app]].
      rewrite !(slept_none _ (env_events_ok _ env_not_sleep _)), Hz.
      unfold POLL_INTERVAL. cbn [List.length]. lia.
    + repeat first [rewrite forallb_app
                   | progress cbn [forallb is_idle_event app andb]].
      rewrite !(env_events_ok _ env_is_idle), Hi. reflexivity.
Qed.

(** Three iterations on an empty stream. *)
Lemma empty_stream_backs_off_witness :
  let js := [empty_stream; empty_stream; empty_stream] in
  let x := main_loop worker js idle in
  result x = Pend /\
  gets (events x) = 3%nat /\
  slept (events x) = 300 /\
  forallb is_idle_event (events x) = true.
Proof.
  apply (empty_stream_backs_off worker
           [empty_stream; empty_stream; empty_stream] idle).
  - reflexivity.
  - repeat constructor.
Defined.

(** ** A message that cannot be handled *)

(** X3: a message that is not JSON, is not a JSON object, or has no key
    ["id"] makes [handle_message] raise ([JSONDecodeError], [AttributeError],
    [KeyError]) before anything is done with it: nothing is polled, received
    or sent on the pipe, [prediction_event] is not cleared, nothing is posted
    and nothing acknowledged.  The cancellation checker is built before the
    id is looked up, and a missing ["cancel_key"] is no error: the checker is
    built from [None]. *)
Theorem malformed_message_is_dropped
  (self : QueueWorker) (j : job_script) (w : world)
  message_id message_json e :
  get_res j = GetMessage message_id message_json ->
  message_error message_json = Some e ->
  let x := handle_message self j w in
  x = (Exc e, env_apply (during_get j) w,
       RedisGet :: env_events (during_get j) ++ checker_events message_json) /\
  filter is_pipe_event (events x) = [] /\
  posted (events x) = [] /\
  acked (events x) = false.
Proof.
  intros Hget He. cbn zeta.
  rewrite handle_message_cases, (dispatch_malformed _ _ _ _ _ _ Hget He).
  split; [reflexivity|]. cbn [events snd].
  split; [|split].
  - cbn [filter is_pipe_event]. rewrite filter_app.
    rewrite (filter_none is_pipe_event _
               (env_events_ok _ env_not_pipe (during_get j))).
    destruct message_json as [[]|]; reflexivity.
  - cbn [posted]. rewrite posted_app.
    rewrite (proj2 (env_events_carry_nothing _)).
    destruct message_json as [[]|]; reflexivity.
  - unfold acked. cbn [existsb is_ack orb]. rewrite existsb_app.
    change (existsb is_ack) with acked.
    rewrite acked_env_events, acked_checker. reflexivity.
Qed.

(** A message with a cancellation key and no id. *)
Lemma malformed_message_is_dropped_witness :
  let x := handle_message worker nameless_job idle in
  x = (Exc (KeyError "id"), idle, [RedisGet; RedisChecker (JStr "c3")]) /\
  filter is_pipe_event (events x) = [] /\
  posted (events x) = [] /\
  acked (events x) = false.
Proof.
  apply (malformed_message_is_dropped worker nameless_job idle "3-0"
           (Some (JObj [("cancel_key", JStr "c3")])) (KeyError "id"));
    reflexivity.
Defined.

(** ** The completion flag *)

Lemma submitted_world_flag (j : job_script) (message : json) (w : world)
  (b : bool) :
  submitted_world j message (with_prediction_event b w) =
  submitted_world j message w.
Proof. reflexivity. Qed.

Lemma submission_events_flag (self : QueueWorker) (j : job_script)
  (fields : list (string * json)) (w : world) (b : bool) :
  submission_events self j fields (with_prediction_event b w) =
  submission_events self j fields w.
Proof. reflexivity. Qed.

(** X4: what [prediction_event] holds when [handle_message] is entered has no
    influence on the call: the result and the events are the same for both
    values, and once the message has been written to the pipe the world is
    the same too.  A completion signalled before [prediction_event.clear()],
    by an earlier job for instance, is discarded and never counts for the
    job at hand. *)
Theorem stale_completion_is_discarded
  (self : QueueWorker) (j : job_script) (w : world) (b : bool) :
  let x := handle_message self j w in
  let y := handle_message self j (with_prediction_event b w) in
  result y = result x /\
  events y = events x /\
  (pipe_sends (events x) <> [] -> final y = final x).
Proof.
  cbn zeta.
  destruct (get_res j) as [| |message_id message_json] eqn:Hget.
  - rewrite !(handle_message_empty _ _ _ Hget). repeat split.
    cbn [events snd pipe_sends]. rewrite pipe_sends_app.
    rewrite (proj1 (env_events_carry_nothing _)). intros H. now elim H.
  - rewrite !(handle_message_fails _ _ _ Hget). repeat split.
    cbn [events snd pipe_sends].
    rewrite (proj1 (env_events_carry_nothing _)). intros H. now elim H.
  - rewrite !handle_message_cases.
    destruct (message_error message_json) as [e|] eqn:He.
    + rewrite !(dispatch_malformed _ _ _ _ _ _ Hget He). repeat split.
      cbn [events snd pipe_sends]. rewrite pipe_sends_app.
      rewrite (proj1 (env_events_carry_nothing _)), pipe_sends_checker.
      intros H. now elim H.
    + destruct (message_error_none _ He) as [fields [pid [-> Hid]]].
      rewrite !(dispatch_message _ _ _ _ _ _ Hget Hid).
      rewrite submitted_world_flag, submission_events_flag. auto.
Qed.

Lemma wait_loop_completion (self : QueueWorker) (prediction_id : json)
  (ts : list wait_tick) (w : world) :
  prediction_event (final (wait_loop self prediction_id ts w)) =
  prediction_event w ||
  existsb is_completion_fired (events (wait_loop self prediction_id ts w)).
Proof.
  revert w. induction ts as [|t rest IH]; intros w.
  - cbn. rewrite orb_false_r. reflexivity.
  - rewrite wait_loop_cons. cbn zeta.
    assert (H1 : prediction_event (env_apply (during_wait t) w) =
                 prediction_event w || fires_complete (during_wait t))
      by reflexivity.
    generalize dependent (env_apply (during_wait t) w). intros w1 H1.
    rewrite final_after, events_after, !existsb_app, env_events_completion.
    rewrite !orb_assoc, <- H1. clear H1.
    destruct (prediction_event w1) eqn:Hp; [cbn; exact Hp|].
    cbn [orb app existsb is_completion_fired].
    rewrite final_after, events_after. cbn [app existsb is_completion_fired orb].
    destruct (cancel_requested t).
    + destruct prediction_id; try (cbn; exact Hp).
      rewrite final_after, events_after.
      cbn [app existsb is_completion_fired orb].
      rewrite existsb_app, env_events_completion.
      assert (H2 : prediction_event (env_apply (during_cancel t) w1) =
                   fires_complete (during_cancel t)).
      { cbn. rewrite Hp. reflexivity. }
      generalize dependent (env_apply (during_cancel t) w1). intros w2 H2.
      rewrite <- H2.
      destruct (http_failure (cancel_result t)).
      { cbn. rewrite orb_false_r. reflexivity. }
      rewrite final_after, events_after.
      cbn [app existsb is_completion_fired orb].
      destruct (shutdown_event w2).
      { cbn. rewrite orb_false_r. reflexivity. }
      apply IH.
    + rewrite final_after, events_after.
      cbn [app existsb is_completion_fired orb].
      destruct (shutdown_event w1); [cbn; exact Hp|].
      rewrite IH, Hp. reflexivity.
Qed.

(** X5: a job is acknowledged only if its completion was signalled after
    [prediction_event.clear()], that is during the submission request or
    during one of the passes of the polling loop. *)
Theorem ack_needs_a_completion_after_the_clear
  (self : QueueWorker) (j : job_script) (w : world) :
  acked (events (handle_message self j w)) = true ->
  exists pre post,
    events (handle_message self j w) = pre ++ PredictionClear :: post /\
    existsb is_completion_fired post = true.
Proof.
  destruct (get_res j) as [| |message_id message_json] eqn:Hget.
  - rewrite (handle_message_empty _ _ _ Hget). cbn [events snd].
    unfold acked. cbn [existsb is_ack orb]. rewrite existsb_app.
    change (existsb is_ack) with acked. rewrite acked_env_events.
    discriminate.
  - rewrite (handle_message_fails _ _ _ Hget). cbn [events snd].
    unfold acked. cbn [existsb is_ack orb].
    change (existsb is_ack) with acked. rewrite acked_env_events.
    discriminate.
  - rewrite handle_message_cases.
    destruct (message_error message_json) as [e|] eqn:He.
    + rewrite (dispatch_malformed _ _ _ _ _ _ Hget He). cbn [events snd].
      unfold acked. cbn [existsb is_ack orb]. rewrite existsb_app.
      change (existsb is_ack) with acked.
      rewrite acked_env_events, acked_checker. discriminate.
    + destruct (message_error_none _ He) as [fields [pid [-> Hid]]].
      rewrite (dispatch_message _ _ _ _ _ _ Hget Hid).
      pose proof (acked_submission_events self j fields w) as Hsub.
      destruct (http_failure (post_res j));
        [cbn [events snd]; congruence|].
      pose proof (wait_loop_completion self pid (ticks j)
                    (submitted_world j (JObj fields) w)) as Hc.
      pose proof (wait_loop_outcome self pid (ticks j)
                    (submitted_world j (JObj fields) w)) as Ho.
      pose proof (wait_loop_emits self pid (ticks j)
                    (submitted_world j (JObj fields) w)) as [Hsup _].
      apply acked_supervision in Hsup.
      destruct (wait_loop self pid (ticks j) _) as [[[[|]| e |] w2] t2];
        cbn [events snd final fst after] in *;
        rewrite ?acked_app, ?Hsub, ?Hsup; try discriminate.
      intros _. destruct Ho as [_ Hw2]. rewrite Hw2 in Hc.
      unfold submission_events.
      eexists (RedisGet :: env_events (during_get j) ++
               RedisChecker _ :: drain_events _ ++ [PipeSend (JObj fields)]).
      eexists. split.
      * cbn [app]. rewrite <- !app_assoc. cbn [app]. rewrite <- !app_assoc.
        cbn [app]. reflexivity.
      * cbn [existsb is_completion_fired orb]. rewrite !existsb_app.
        rewrite env_events_completion.
        change (prediction_event (submitted_world j (JObj fields) w))
          with (false || fires_complete (during_post j)) in Hc.
        cbn [orb existsb is_completion_fired] in *.
        rewrite orb_false_r. symmetry. exact Hc.
Qed.

(** The completion arrives in the second pass. *)
Lemma ack_needs_a_completion_after_the_clear_witness :
  exists pre post,
    events (handle_message worker (one_job [tick quiet; tick completes]) idle) =
    pre ++ PredictionClear :: post /\
    existsb is_completion_fired post = true.
Proof.
  apply (ack_needs_a_completion_after_the_clear worker
           (one_job [tick quiet; tick completes]) idle).
  reflexivity.
Defined.

(** ** The two directions of the pipe *)

(** X6: the only operations of a call of [handle_message] on the pipe are
    those of lines 119 to 122.  Whatever waits at the worker's end when the
    message has been dequeued is received, message by message and in order,
    each after a poll that returned true; one poll returns false; then the
    dequeued message is sent.  The polling loop that follows does not touch
    the pipe. *)
Theorem inbox_is_drained_before_the_send
  (self : QueueWorker) (j : job_script) (w : world)
  message_id fields prediction_id :
  get_res j = GetMessage message_id (Some (JObj fields)) ->
  dict_get fields "id" = Some prediction_id ->
  filter is_pipe_event (events (handle_message self j w)) =
  drain_events (pipe_inbox w ++ peer_sends (during_get j)) ++
  [PipeSend (JObj fields)].
Proof.
  intros Hget Hid.
  rewrite handle_message_cases, (dispatch_message _ _ _ _ _ _ Hget Hid).
  pose proof (submission_events_pipe self j fields w) as Hsub.
  destruct (http_failure (post_res j)); [exact Hsub|].
  pose proof (wait_loop_emits self prediction_id (ticks j)
                (submitted_world j (JObj fields) w)) as [Hsup _].
  apply (forallb_impl _ _ _ supervision_not_pipe), filter_none in Hsup.
  destruct (wait_loop self prediction_id (ticks j) _) as [[[[|]| e |] w2] t2];
    cbn [events snd after] in *; rewrite ?filter_app, Hsub, Hsup;
    cbn [filter is_pipe_event]; rewrite ?app_nil_r; reflexivity.
Qed.

(** Two messages wait at the worker's end. *)
Lemma inbox_is_drained_before_the_send_witness :
  filter is_pipe_event
    (events (handle_message worker (one_job [tick completes]) cluttered)) =
  [PipePoll true; PipeRecv (JStr "late"); PipePoll true; PipeRecv (JNum 2);
   PipePoll false; PipeSend p1].
Proof.
  apply (inbox_is_drained_before_the_send worker (one_job [tick completes])
           cluttered "1-0" p1_fields (JStr "p1")); reflexivity.
Defined.





(** ** What is posted and what is acknowledged *)

Lemma dict_get_set_other (d : list (string * json)) (k k' : string) (v : json) :
  k' <> k -> dict_get (dict_set d k v) k' = dict_get d k'.
Proof.
  intros Hne. induction d as [|[k0 v0] d IH]; cbn.
  - destruct (String.eqb_spec k k'); [congruence|reflexivity].
  - destruct (String.eqb_spec k0 k) as [->|Hk0]; cbn.
    + destruct (String.eqb_spec k k'); [congruence|reflexivity].
    + rewrite IH. reflexivity.
Qed.

(** X8: for a message that reaches the pipe, [handle_message] calls
    [cog_client.post] with a body once, for [cog_http_base + "/predictions"],
    however that call and the rest of [handle_message] end.  The body is the
    dequeued message with the key ["webhook"] set to the worker's own address;
    under every other key, the id included, it holds what the message holds.
    How often the session sends that body to the container is not counted. *)
Theorem override_changes_the_webhook_only
  (self : QueueWorker) (j : job_script) (w : world)
  message_id fields prediction_id :
  get_res j = GetMessage message_id (Some (JObj fields)) ->
  dict_get fields "id" = Some prediction_id ->
  exists body,
    posted (events (handle_message self j w)) =
    [((cog_http_base self ++ "/predictions")%string, JObj body)] /\
    dict_get body "webhook" = Some (JStr webhook_url) /\
    dict_get body "id" = Some prediction_id /\
    (forall k, k <> "webhook" -> dict_get body k = dict_get fields k).
Proof.
  intros Hget Hid.
  exists (dict_set fields "webhook" (JStr webhook_url)).
  split; [|split; [apply dict_get_set|split]].
  - rewrite handle_message_cases, (dispatch_message _ _ _ _ _ _ Hget Hid).
    pose proof (proj2 (submission_events_carry self j fields w)) as Hsub.
    destruct (http_failure (post_res j)); [exact Hsub|].
    pose proof (wait_loop_emits self prediction_id (ticks j)
                  (submitted_world j (JObj fields) w)) as [Hsup _].
    apply supervision_carries_nothing in Hsup as [_ Hsup].
    destruct (wait_loop self prediction_id (ticks j) _) as [[[[|]| e |] w2] t2];
      cbn [events snd after] in *; rewrite ?posted_app, Hsub, Hsup;
      reflexivity.
  - rewrite dict_get_set_other by discriminate. exact Hid.
  - intros k Hk. apply dict_get_set_other, Hk.
Qed.

(** A message that names a webhook of its own. *)
Lemma override_changes_the_webhook_only_witness :
  exists body,
    posted (events (handle_message worker hooked_job idle)) =
    [("http://localhost:5000/predictions", JObj body)] /\
    dict_get body "webhook" = Some (JStr webhook_url) /\
    dict_get body "id" = Some (JStr "p1") /\
    (forall k, k <> "webhook" -> dict_get body k = dict_get hooked_fields k).
Proof.
  apply (override_changes_the_webhook_only worker hooked_job idle
           "1-0" hooked_fields (JStr "p1")); reflexivity.
Defined.

(** X9: a call of [handle_message] acknowledges at most once, and what it
    acknowledges is the message id that [redis_consumer.get()] returned, not
    the id inside the message. *)
Theorem one_acknowledgement_with_the_dequeued_handle
  (self : QueueWorker) (j : job_script) (w : world) :
  filter is_ack (events (handle_message self j w)) = [] \/
  exists message_id message_json,
    get_res j = GetMessage message_id message_json /\
    filter is_ack (events (handle_message self j w)) = [RedisAck message_id].
Proof.
  destruct (get_res j) as [| |message_id message_json] eqn:Hget.
  - left. rewrite (handle_message_empty _ _ _ Hget). cbn [events snd].
    cbn [filter is_ack]. rewrite filter_app.
    rewrite (filter_none is_ack _ (env_events_ok _ env_not_ack (during_get j))).
    reflexivity.
  - left. rewrite (handle_message_fails _ _ _ Hget). cbn [events snd].
    cbn [filter is_ack].
    apply (filter_none is_ack _ (env_events_ok _ env_not_ack (during_get j))).
  - rewrite handle_message_cases.
    destruct (message_error message_json) as [e|] eqn:He.
    + left. rewrite (dispatch_malformed _ _ _ _ _ _ Hget He). cbn [events snd].
      cbn [filter is_ack]. rewrite filter_app.
      rewrite (filter_none is_ack _
                 (env_events_ok _ env_not_ack (during_get j))).
      destruct message_json as [[]|]; reflexivity.
    + destruct (message_error_none _ He) as [fields [pid [-> Hid]]].
      rewrite (dispatch_message _ _ _ _ _ _ Hget Hid).
      pose proof (filter_ack_submission_events self j fields w) as Hsub.
      destruct (http_failure (post_res j)); [left; exact Hsub|].
      pose proof (wait_loop_emits self pid (ticks j)
                    (submitted_world j (JObj fields) w)) as [Hsup _].
      apply (forallb_impl _ _ _ supervision_not_ack), filter_none in Hsup.
      destruct (wait_loop self pid (ticks j) _) as [[[[|]| e |] w2] t2];
        cbn [events snd after] in *; rewrite ?filter_app, Hsub, Hsup;
        cbn [filter is_ack app]; auto.
      right. exists message_id, (Some (JObj fields)). auto.
Qed.

(** X10: when [handle_message] returns, the stream was empty, or the message
    has been acknowledged, or the shutdown flag is set; a call that raises
    has acknowledged nothing.  A message is thus left unacknowledged by a
    normal return only on shutdown. *)
Theorem a_return_accounts_for_the_job
  (self : QueueWorker) (j : job_script) (w : world) :
  let x := handle_message self j w in
  match result x with
  | Ret _ =>
      finds_empty j = true \/
      acked (events x) = true \/
      shutdown_event (final x) = true
  | _ => acked (events x) = false
  end.
Proof.
  cbn zeta. unfold finds_empty.
  destruct (get_res j) as [| |message_id message_json] eqn:Hget.
  - rewrite (handle_message_empty _ _ _ Hget). left. reflexivity.
  - rewrite (handle_message_fails _ _ _ Hget). cbn [result fst events snd].
    unfold acked. cbn [existsb is_ack orb]. apply acked_env_events.
  - rewrite handle_message_cases.
    destruct (message_error message_json) as [e|] eqn:He.
    + rewrite (dispatch_malformed _ _ _ _ _ _ Hget He).
      cbn [result fst events snd].
      unfold acked. cbn [existsb is_ack orb]. rewrite existsb_app.
      change (existsb is_ack) with acked.
      rewrite acked_env_events, acked_checker. reflexivity.
    + destruct (message_error_none _ He) as [fields [pid [-> Hid]]].
      rewrite (dispatch_message _ _ _ _ _ _ Hget Hid).
      pose proof (acked_submission_events self j fields w) as Hsub.
      destruct (http_failure (post_res j)); [exact Hsub|].
      pose proof (wait_loop_outcome self pid (ticks j)
                    (submitted_world j (JObj fields) w)) as Ho.
      pose proof (wait_loop_emits self pid (ticks j)
                    (submitted_world j (JObj fields) w)) as [Hsup _].
      apply acked_supervision in Hsup.
      destruct (wait_loop self pid (ticks j) _) as [[[[|]| e |] w2] t2];
        cbn [result fst events snd final after] in *;
        rewrite ?acked_app, ?Hsub, ?Hsup; try reflexivity.
      * right. left. reflexivity.
      * right. right. apply Ho.
Qed.

(** ** Requests to cancel *)

(** X11: the polling loop calls [cog_client.post] once for
    [cog_http_base + "/predictions/" + id + "/cancel"] each time
    [should_cancel()] returns true, and not otherwise; nothing remembers that
    the call has been made, so while the prediction runs on and the
    cancellation stays requested the call is repeated in every pass.  How
    often the session sends the request to the container within one call is
    not counted. *)
Theorem one_cancel_call_per_pass (self : QueueWorker) (s : string) :
  (forall ts w,
     let x := wait_loop self (JStr s) ts w in
     filter is_cancel_post (events x) =
     repeat (cancel_call self s)
       (List.length (filter is_cancel_wanted (events x)))) /\
  (forall ts w,
     let x := wait_loop self (JStr s) ts w in
     result x = Pend ->
     List.length (filter is_cancel_wanted (events x)) =
     List.length (filter cancel_requested ts)).
Proof.
  split.
  - induction ts as [|t rest IH]; intros w; [reflexivity|]. cbn zeta in *.
    rewrite wait_loop_cons. cbn zeta. rewrite events_after.
    generalize (env_apply (during_wait t) w). intros w1.
    rewrite !filter_app, cancel_posts_env_events, cancel_wanted_env_events.
    cbn [filter is_cancel_post is_cancel_wanted app].
    destruct (prediction_event w1); [reflexivity|].
    rewrite events_after. cbn [filter is_cancel_post is_cancel_wanted app].
    destruct (cancel_requested t).
    + rewrite events_after. cbn [filter is_cancel_post is_cancel_wanted app].
      rewrite !filter_app, cancel_posts_env_events, cancel_wanted_env_events.
      cbn [app List.length repeat]. fold (cancel_call self s). f_equal.
      generalize (env_apply (during_cancel t) w1). intros w2.
      destruct (http_failure (cancel_result t)); [reflexivity|].
      rewrite events_after. cbn [filter is_cancel_post is_cancel_wanted app].
      destruct (shutdown_event w2); [reflexivity|apply IH].
    + rewrite events_after. cbn [filter is_cancel_post is_cancel_wanted app].
      destruct (shutdown_event w1); [reflexivity|apply IH].
  - induction ts as [|t rest IH]; intros w; [reflexivity|]. cbn zeta in *.
    rewrite wait_loop_cons. cbn zeta. rewrite result_after, events_after.
    generalize (env_apply (during_wait t) w). intros w1.
    rewrite !filter_app, cancel_wanted_env_events.
    cbn [filter is_cancel_wanted app].
    destruct (prediction_event w1); [discriminate|].
    rewrite result_after, events_after. cbn [filter is_cancel_wanted app].
    destruct (cancel_requested t).
    + rewrite result_after, events_after. cbn [filter is_cancel_wanted app].
      rewrite !filter_app, cancel_wanted_env_events.
      cbn [app List.length].
      generalize (env_apply (during_cancel t) w1). intros w2.
      destruct (http_failure (cancel_result t)); [discriminate|].
      rewrite result_after, events_after. cbn [filter is_cancel_wanted app].
      destruct (shutdown_event w2); [discriminate|].
      intros H. rewrite (IH _ H). reflexivity.
    + rewrite result_after, events_after. cbn [filter is_cancel_wanted app].
      destruct (shutdown_event w1); [discriminate|].
      intros H. rewrite (IH _ H). reflexivity.
Qed.

(** The cancellation is requested in three passes. *)
Lemma one_cancel_call_per_pass_witness :
  filter is_cancel_post
    (events (wait_loop worker (JStr "p1")
               [tick quiet; cancel_accepted; cancel_accepted; cancel_accepted]
               idle)) =
  repeat (cancel_call worker "p1") 3.
Proof.
  destruct (one_cancel_call_per_pass worker "p1") as [Hposts Hpend].
  rewrite (Hposts [tick quiet; cancel_accepted; cancel_accepted;
                   cancel_accepted] idle).
  rewrite (Hpend [tick quiet; cancel_accepted; cancel_accepted;
                  cancel_accepted] idle eq_refl).
  reflexivity.
Defined.

Lemma wait_loop_without_string_id (self : QueueWorker) (prediction_id : json)
  (ts : list wait_tick) (w : world) :
  is_str prediction_id = false ->
  filter is_cancel_post (events (wait_loop self prediction_id ts w)) = [] /\
  forall e, result (wait_loop self prediction_id ts w) = Exc e -> e = TypeError.
Proof.
  intros Hid. revert w. induction ts as [|t rest IH]; intros w.
  - split; [reflexivity|discriminate].
  - rewrite wait_loop_cons. cbn zeta. rewrite result_after, events_after.
    generalize (env_apply (during_wait t) w). intros w1.
    rewrite !filter_app, cancel_posts_env_events.
    cbn [filter is_cancel_post app].
    destruct (prediction_event w1); [split; [reflexivity|discriminate]|].
    rewrite result_after, events_after. cbn [filter is_cancel_post app].
    destruct (cancel_requested t).
    + destruct prediction_id; try discriminate;
        (split; [reflexivity|cbn; congruence]).
    + rewrite result_after, events_after. cbn [filter is_cancel_post app].
      destruct (shutdown_event w1); [split; [reflexivity|discriminate]|].
      apply IH.
Qed.

(** X12: the id of a message is used as it comes out of [json.loads].  A
    message whose id is not a string is written to the pipe and posted like
    any other, but no request to cancel it is ever sent: the first pass in
    which [should_cancel()] returns true raises [TypeError] while the URL is
    put together, before the HTTP client is called. *)
Theorem job_without_a_string_id_is_never_cancelled
  (self : QueueWorker) (j : job_script) (w : world)
  message_id fields prediction_id :
  get_res j = GetMessage message_id (Some (JObj fields)) ->
  dict_get fields "id" = Some prediction_id ->
  is_str prediction_id = false ->
  let x := handle_message self j w in
  pipe_sends (events x) = [JObj fields] /\
  List.length (posted (events x)) = 1%nat /\
  filter is_cancel_post (events x) = [] /\
  (forall e, result x = Exc e ->
     http_failure (post_res j) = Some e \/ e = TypeError) /\
  (forall t rest w',
     prediction_event (env_apply (during_wait t) w') = false ->
     cancel_requested t = true ->
     wait_loop self prediction_id (t :: rest) w' =
     (Exc TypeError, env_apply (during_wait t) w',
      env_events (during_wait t) ++
      [PredictionWait false; RedisShouldCancel true])).
Proof.
  intros Hget Hid Hstr. cbn zeta.
  rewrite handle_message_cases, (dispatch_message _ _ _ _ _ _ Hget Hid).
  pose proof (submission_events_carry self j fields w) as [Hsend Hpost].
  pose proof (cancel_posts_submission_events self j fields w) as Hsub.
  assert (Hlast : forall t rest w',
            prediction_event (env_apply (during_wait t) w') = false ->
            cancel_requested t = true ->
            wait_loop self prediction_id (t :: rest) w' =
            (Exc TypeError, env_apply (during_wait t) w',
             env_events (during_wait t) ++
             [PredictionWait false; RedisShouldCancel true])).
  { intros t rest w' Hp Hc. rewrite wait_loop_cons. cbn zeta.
    rewrite Hp, Hc. destruct prediction_id; try discriminate;
      cbn [after app]; rewrite <- ?app_assoc; reflexivity. }
  destruct (http_failure (post_res j)) as [e0|].
  { cbn [events snd result fst]. rewrite Hsend, Hpost.
    repeat split; auto. intros e He. left. congruence. }
  pose proof (wait_loop_without_string_id self prediction_id (ticks j)
                (submitted_world j (JObj fields) w) Hstr) as [Hnone Hexc].
  pose proof (wait_loop_emits self prediction_id (ticks j)
                (submitted_world j (JObj fields) w)) as [Hsup _].
  apply supervision_carries_nothing in Hsup as [Hs2 Hp2].
  destruct (wait_loop self prediction_id (ticks j) _) as [[[[|]| e |] w2] t2];
    cbn [events snd result fst after] in *;
    rewrite ?pipe_sends_app, ?posted_app, ?filter_app, Hsend, Hpost, Hsub,
      Hs2, Hp2, Hnone; cbn [app pipe_sends posted filter is_cancel_post];
    repeat split; auto; try discriminate.
  intros e' He'. right. apply Hexc. congruence.
Qed.

(** The id is the number 7 and the cancellation is requested in the second
    pass. *)
Lemma job_without_a_string_id_is_never_cancelled_witness :
  let x := handle_message worker
             (numbered_job [tick quiet; cancel_accepted; tick completes])
             idle in
  pipe_sends (events x) = [JObj [("id", JNum 7)]] /\
  List.length (posted (events x)) = 1%nat /\
  filter is_cancel_post (events x) = [] /\
  result x = Exc TypeError.
Proof.
  destruct (job_without_a_string_id_is_never_cancelled worker
              (numbered_job [tick quiet; cancel_accepted; tick completes])
              idle "2-0" [("id", JNum 7)] (JNum 7)
              eq_refl eq_refl eq_refl) as [H1 [H2 [H3 _]]].
  split; [exact H1|split; [exact H2|split; [exact H3|reflexivity]]].
Defined.

(** ** The answers to the health check *)

Lemma healthy_status (status : json) :
  py_eq_str status "healthy" = true -> status = JStr "healthy".
Proof.
  destruct status; cbn; try discriminate.
  intros H. apply String.eqb_eq in H. congruence.
Qed.

Lemma setup_succeeded_object (fields : list (string * json)) :
  result (setup_succeeded (JObj fields) idle) =
  match dict_get fields "status" with
  | None => Exc (KeyError "status")
  | Some status =>
      if py_eq_str status "healthy" then
        match dict_get fields "setup" with
        | None => Exc (KeyError "setup")
        | Some JNull => Ret false
        | Some (JObj sfields) =>
            match dict_get sfields "status" with
            | None => Exc (KeyError "status")
            | Some setup_status =>
                Ret (py_eq_str setup_status Status_SUCCEEDED)
            end
        | Some _ => Exc TypeError
        end
      else Ret false
  end.
Proof.
  unfold setup_succeeded, bind, py_getitem, ret, raise.
  destruct (dict_get fields "status") as [status|]; [|reflexivity].
  cbn [result fst]. destruct (py_eq_str status "healthy"); [|reflexivity].
  destruct (dict_get fields "setup") as [setup|]; [|reflexivity].
  destruct setup as [| | | | |sfields]; try reflexivity. cbn.
  destruct (dict_get sfields "status"); reflexivity.
Qed.

Lemma setup_succeeded_not_object (v : json) :
  is_dict v = false -> result (setup_succeeded v idle) = Exc TypeError.
Proof. destruct v; try discriminate; reflexivity. Qed.

Lemma unready_verdict (res : http_result) :
  unready res -> health_verdict res = NotReady.
Proof.
  intros H. destruct H as [|resp Hcode|fields status Hs Hne|fields Hs Hn
                          |fields sfields status Hs Hsetup Hst Hne].
  - reflexivity.
  - unfold health_verdict.
    destruct (Z.eqb_spec (status_code resp) 200); [contradiction|reflexivity].
  - cbn [health_verdict status_code body Z.eqb Pos.eqb].
    rewrite setup_succeeded_object, Hs, Hne. reflexivity.
  - cbn [health_verdict status_code body Z.eqb Pos.eqb].
    rewrite setup_succeeded_object, Hs, Hn. reflexivity.
  - cbn [health_verdict status_code body Z.eqb Pos.eqb].
    rewrite setup_succeeded_object, Hs, Hsetup, Hst. cbn [py_eq_str].
    rewrite String.eqb_refl, Hne. reflexivity.
Qed.

Lemma malformed_verdict (resp : response) (e : exn) :
  status_code resp = 200 -> malformed_body (body resp) e ->
  health_verdict (Response resp) = Crash e.
Proof.
  intros Hcode H. unfold health_verdict. rewrite Hcode. cbn [Z.eqb Pos.eqb].
  destruct H as [|v Hv|fields Hs|fields Hs Hn|fields setup Hs Hsetup Hnn Hd
                |fields sfields Hs Hsetup Hst].
  - reflexivity.
  - rewrite (setup_succeeded_not_object _ Hv). reflexivity.
  - rewrite setup_succeeded_object, Hs. reflexivity.
  - rewrite setup_succeeded_object, Hs, Hn. reflexivity.
  - rewrite setup_succeeded_object, Hs, Hsetup. cbn [py_eq_str].
    rewrite String.eqb_refl.
    destruct setup; try discriminate; reflexivity.
  - rewrite setup_succeeded_object, Hs, Hsetup, Hst. reflexivity.
Qed.

Lemma crash_malformed (res : http_result) (e : exn) :
  health_verdict res = Crash e ->
  exists resp,
    res = Response resp /\ status_code resp = 200 /\
    malformed_body (body resp) e.
Proof.
  destruct res as [|resp]; [discriminate|]. unfold health_verdict.
  destruct (Z.eqb_spec (status_code resp) 200) as [Hcode|]; [|discriminate].
  intros H. exists resp. split; [reflexivity|split; [exact Hcode|]].
  destruct (body resp) as [v|]; [|injection H as <-; constructor].
  destruct (result (setup_succeeded v idle)) as [[|]| e' |] eqn:Hr;
    try discriminate.
  injection H as ->.
  destruct (is_dict v) eqn:Hd.
  2:{ rewrite (setup_succeeded_not_object _ Hd) in Hr. injection Hr as <-.
      constructor. exact Hd. }
  destruct v as [| | | | |fields]; try discriminate.
  rewrite setup_succeeded_object in Hr.
  destruct (dict_get fields "status") as [status|] eqn:Hs.
  2:{ injection Hr as <-. constructor. exact Hs. }
  destruct (py_eq_str status "healthy") eqn:Hh; [|discriminate].
  apply healthy_status in Hh. subst status.
  destruct (dict_get fields "setup") as [setup|] eqn:Hsetup.
  2:{ injection Hr as <-. apply body_without_setup; assumption. }
  destruct setup as [| | | | |sfields]; cbv beta iota in Hr;
    try discriminate;
    try (injection Hr as <-; eapply setup_not_dict; eauto; reflexivity).
  destruct (dict_get sfields "status") eqn:Hst; [discriminate|].
  injection Hr as <-. eapply setup_without_status; eauto.
Qed.

(** X13: an answer to the health check that is not the ready one and that
    the loop can read is no error: a status code other than 200 (the body is
    not looked at), a status other than ["healthy"] (the key ["setup"] is
    not looked at), a [setup] that is [None], or a setup status other than
    [Status.SUCCEEDED].  The poll is counted, the liveness message is logged
    if it is due, and the loop sleeps and asks again. *)
Theorem unready_answers_are_polled_again
  (self : QueueWorker) (p : health_poll) (rest : list health_poll)
  (count : Z) (w : world) :
  shutdown_event w = false ->
  unready (health_result p) ->
  setup_loop self (p :: rest) count w =
  after (ShutdownIsSet false
         :: HttpGet (cog_http_base self ++ "/health-check")%string
         :: env_events (during_health p) ++
            liveness_events (count + 1) ++ [Sleep SETUP_POLL_INTERVAL])
    (setup_loop self rest (count + 1) (env_apply (during_health p) w)).
Proof.
  intros Hs Hu. rewrite setup_loop_cons, Hs, (unready_verdict _ Hu).
  cbn zeta. rewrite after_after. reflexivity.
Qed.

(** The model container answers that it is starting, without a [setup]
    key. *)
Lemma unready_answers_are_polled_again_witness :
  setup_loop worker [starting_poll; healthy_poll] 0 idle =
  after [ShutdownIsSet false; HttpGet "http://localhost:5000/health-check";
         Sleep 100]
    (setup_loop worker [healthy_poll] 1 idle).
Proof.
  apply (unready_answers_are_polled_again worker starting_poll
           [healthy_poll] 0 idle); [reflexivity|].
  apply (unready_status [("status", JStr "starting")] (JStr "starting"));
    reflexivity.
Defined.

Lemma setup_loop_raises (self : QueueWorker) (polls : list health_poll)
  (count : Z) (w : world) (e : exn) :
  result (setup_loop self polls count w) = Exc e ->
  exists p, In p polls /\ health_verdict (health_result p) = Crash e.
Proof.
  revert count w. induction polls as [|p rest IH]; intros count w.
  - rewrite setup_loop_nil. destruct (shutdown_event w); discriminate.
  - rewrite setup_loop_cons. destruct (shutdown_event w); [discriminate|].
    cbn zeta. rewrite result_after.
    destruct (health_verdict (health_result p)) as [| |e'] eqn:Hv.
    + discriminate.
    + rewrite result_after. intros H. destruct (IH _ _ H) as [q [Hin Hq]].
      exists q. split; [right; exact Hin|exact Hq].
    + cbn. intros H. injection H as <-. exists p. split; [left|]; auto.
Qed.

(** X14: only the request of the health check is inside the [try]; what is
    done with the answer is not.  A 200 answer whose body is not JSON, is not
    an object, has no key ["status"], or says ["healthy"] and has no usable
    ["setup"], ends [start] with the exception: the main loop is not entered
    and nothing is dequeued.  These are the only runs of [start] that
    raise. *)
Theorem malformed_health_answer_stops_start (self : QueueWorker) :
  (forall s p rest w resp e,
     shutdown_event w = false ->
     setup_polls s = p :: rest ->
     health_result p = Response resp ->
     status_code resp = 200 ->
     malformed_body (body resp) e ->
     start self s w =
     (Exc e, env_apply (during_health p) w,
      ShutdownIsSet false
      :: HttpGet (cog_http_base self ++ "/health-check")%string
      :: env_events (during_health p))) /\
  (forall s w e,
     result (start self s w) = Exc e ->
     exists p resp,
       In p (setup_polls s) /\ health_result p = Response resp /\
       status_code resp = 200 /\ malformed_body (body resp) e).
Proof.
  split.
  - intros s p rest w resp e Hs Hpolls Hres Hcode Hbad.
    rewrite start_cases, Hpolls, setup_loop_cons, Hs, Hres.
    rewrite (malformed_verdict _ _ Hcode Hbad). cbn zeta. cbn [after].
    rewrite app_nil_r. reflexivity.
  - intros s w e H. rewrite start_cases in H.
    pose proof (setup_loop_raises self (setup_polls s) 0 w) as Hsetup.
    pose proof (main_loop_never_raises self (jobs s)) as Hmain.
    destruct (setup_loop self (setup_polls s) 0 w) as [[[u| e' |] w1] t1];
      cbn [result fst] in *.
    + rewrite result_after in H. specialize (Hmain w1).
      destruct (main_loop self (jobs s) w1) as [[[u'| e' |] w2] t2];
        cbn [result fst] in *; try discriminate. contradiction.
    + injection H as ->. destruct (Hsetup e eq_refl) as [p [Hin Hv]].
      destruct (crash_malformed _ _ Hv) as [resp [Hres [Hcode Hbad]]].
      exists p, resp. auto.
    + discriminate.
Qed.

(** The model container says healthy and leaves out the key ["setup"]. *)
Lemma malformed_health_answer_stops_start_witness :
  start worker
    {| setup_polls := [setupless_poll; healthy_poll];
       jobs := [one_job [tick completes]] |} idle =
  (Exc (KeyError "setup"), idle,
   [ShutdownIsSet false; HttpGet "http://localhost:5000/health-check"]).
Proof.
  destruct (malformed_health_answer_stops_start worker) as [Hstop _].
  apply (Hstop {| setup_polls := [setupless_poll; healthy_poll];
                  jobs := [one_job [tick completes]] |}
           setupless_poll [healthy_poll] idle
           {| status_code := 200;
              body := Some (JObj [("status", JStr "healthy")]) |}
           (KeyError "setup")); try reflexivity.
  apply body_without_setup; reflexivity.
Defined.

(** ** The liveness message *)

Lemma liveness_step (count : Z) :
  (count + 1) / liveness_period - count / liveness_period =
  if (count + 1) mod liveness_period =? 0 then 1 else 0.
Proof.
  change liveness_period with 50.
  destruct (Z.eqb_spec ((count + 1) mod 50) 0); Z.div_mod_to_equations; lia.
Qed.

Lemma liveness_events_count (count : Z) :
  filter is_liveness_log (liveness_events count) = liveness_events count /\
  Z.of_nat (List.length (liveness_events count)) =
  (if count mod liveness_period =? 0 then 1 else 0) /\
  slept (liveness_events count) = 0 /\
  filter is_health_check (liveness_events count) = [].
Proof.
  unfold liveness_events.
  destruct (count mod liveness_period =? 0); repeat split.
Qed.

Lemma setup_loop_waits (self : QueueWorker) (polls : list health_poll)
  (count : Z) (w : world) :
  shutdown_event w = false ->
  Forall (fun p => unready (health_result p) /\
                   fires_shutdown (during_health p) = false) polls ->
  let x := setup_loop self polls count w in
  let n := Z.of_nat (List.length polls) in
  result x = Pend /\
  List.length (filter is_health_check (events x)) = List.length polls /\
  slept (events x) = SETUP_POLL_INTERVAL * n /\
  Z.of_nat (List.length (filter is_liveness_log (events x))) =
  (count + n) / liveness_period - count / liveness_period.
Proof.
  intros Hs Hpolls. cbn zeta. revert count w Hs.
  induction Hpolls as [|p rest [Hu Hquiet] _ IH]; intros count w Hs.
  - rewrite setup_loop_nil, Hs. cbn. rewrite Z.add_0_r, Z.sub_diag.
    repeat split.
  - rewrite setup_loop_cons, Hs, (unready_verdict _ Hu). cbn zeta.
    rewrite after_after, result_after, events_after.
    assert (Hs1 : shutdown_event (env_apply (during_health p) w) = false).
    { rewrite shutdown_env_apply, Hs, Hquiet. reflexivity. }
    destruct (IH (count + 1) _ Hs1) as [Hr [Hh [Hz Hl]]].
    destruct (liveness_events_count (count + 1)) as [Hl1 [Hl2 [Hl3 Hl4]]].
    repeat split.
    + exact Hr.
    + cbn [app filter is_health_check]. rewrite !filter_app.
      rewrite (filter_none is_health_check _
                 (env_events_ok _ env_not_health_check (during_health p))).
      rewrite Hl4. cbn [app filter is_health_check List.length].
      rewrite Hh. reflexivity.
    + cbn [app slept]. rewrite !slept_app.
      rewrite (slept_none _ (env_events_ok _ env_not_sleep _)), Hl3, Hz.
      cbn [slept List.length]. unfold SETUP_POLL_INTERVAL. lia.
    + cbn [app filter is_liveness_log]. rewrite !filter_app.
      rewrite (filter_none is_liveness_log _
                 (env_events_ok _ env_not_liveness (during_health p))).
      rewrite Hl1. cbn [app filter is_liveness_log].
      rewrite app_nil_r, length_app, Nat2Z.inj_add, Hl2, Hl, <- liveness_step.
      cbn [List.length]. rewrite Nat2Z.inj_succ.
      replace (count + 1 + Z.of_nat (List.length rest))
        with (count + Z.succ (Z.of_nat (List.length rest))) by lia.
      lia.
Qed.

(** X15: while the model container is not ready and no termination signal
    arrives, the setup loop makes one health check and one pause of
    [SETUP_POLL_INTERVAL] per pass, and logs the liveness message after
    every fiftieth pass, that is once per five seconds of sleeping:
    [n] passes give [n / 50] messages. *)
Theorem liveness_message_every_fifty_polls
  (self : QueueWorker) (polls : list health_poll) (w : world) :
  shutdown_event w = false ->
  Forall (fun p => unready (health_result p) /\
                   fires_shutdown (during_health p) = false) polls ->
  let x := setup_loop self polls 0 w in
  let n := Z.of_nat (List.length polls) in
  result x = Pend /\
  List.length (filter is_health_check (events x)) = List.length polls /\
  slept (events x) = SETUP_POLL_INTERVAL * n /\
  Z.of_nat (List.length (filter is_liveness_log (events x))) =
  n / liveness_period.
Proof.
  intros Hs Hpolls.
  pose proof (setup_loop_waits self polls 0 w Hs Hpolls) as H.
  cbn zeta in *. rewrite Z.add_0_l in H.
  change (0 / liveness_period) with 0 in H. rewrite Z.sub_0_r in H. exact H.
Qed.

(** Twelve seconds without an answer: two messages. *)
Lemma liveness_message_every_fifty_polls_witness :
  let x := setup_loop worker (repeat unreachable_poll 120) 0 idle in
  result x = Pend /\
  List.length (filter is_health_check (events x)) = 120%nat /\
  slept (events x) = 12000 /\
  Z.of_nat (List.length (filter is_liveness_log (events x))) = 2.
Proof.
  apply (liveness_message_every_fifty_polls worker
           (repeat unreachable_poll 120) idle); [reflexivity|].
  apply Forall_forall. intros p Hp. apply repeat_spec in Hp. subst p.
  split; [constructor|reflexivity].
Defined.

(** ** The end of the setup loop *)

Lemma ready_verdict (fields sfields : list (string * json)) :
  dict_get fields "status" = Some (JStr "healthy") ->
  dict_get fields "setup" = Some (JObj sfields) ->
  dict_get sfields "status" = Some (JStr "succeeded") ->
  health_verdict
    (Response {| status_code := 200; body := Some (JObj fields) |}) = Ready.
Proof.
  intros Hs Hsetup Hst.
  cbn [health_verdict status_code body Z.eqb Pos.eqb].
  rewrite setup_succeeded_object, Hs, Hsetup, Hst. reflexivity.
Qed.

Lemma setup_loop_unready_prefix (self : QueueWorker)
  (pre polls : list health_poll) (count : Z) (w : world) :
  shutdown_event w = false ->
  Forall (fun p => unready (health_result p) /\
                   fires_shutdown (during_health p) = false) pre ->
  exists evs w',
    setup_loop self (pre ++ polls) count w =
    after evs
      (setup_loop self polls (count + Z.of_nat (List.length pre)) w') /\
    shutdown_event w' = false /\
    List.length (filter is_health_check evs) = List.length pre /\
    slept evs = SETUP_POLL_INTERVAL * Z.of_nat (List.length pre).
Proof.
  intros Hs Hpre. revert count w Hs.
  induction Hpre as [|p pre [Hu Hquiet] _ IH]; intros count w Hs.
  - exists [], w. cbn [app List.length Z.of_nat]. rewrite Z.add_0_r, after_nil.
    repeat split; auto.
  - cbn [app]. rewrite setup_loop_cons, Hs, (unready_verdict _ Hu). cbn zeta.
    rewrite after_after.
    assert (Hs1 : shutdown_event (env_apply (during_health p) w) = false).
    { rewrite shutdown_env_apply, Hs, Hquiet. reflexivity. }
    destruct (IH (count + 1) _ Hs1) as [evs [w' [Heq [Hs' [Hh Hz]]]]].
    rewrite Heq, after_after.
    destruct (liveness_events_count (count + 1)) as [_ [_ [Hl3 Hl4]]].
    eexists. exists w'. split; [|split; [exact Hs'|split]].
    + cbn [List.length]. rewrite Nat2Z.inj_succ.
      replace (count + Z.succ (Z.of_nat (List.length pre)))
        with (count + 1 + Z.of_nat (List.length pre)) by lia.
      reflexivity.
    + cbn [app filter is_health_check]. rewrite !filter_app.
      rewrite (filter_none is_health_check _
                 (env_events_ok _ env_not_health_check (during_health p))).
      rewrite Hl4. cbn [app filter is_health_check List.length].
      rewrite Hh. reflexivity.
    + cbn [app slept]. rewrite !slept_app.
      rewrite (slept_none _ (env_events_ok _ env_not_sleep _)), Hl3, Hz.
      cbn [slept List.length]. unfold SETUP_POLL_INTERVAL. lia.
Qed.

(** X19: the first ready answer ends the setup loop at once.  After [n]
    answers that are not ready and one that is, the loop has made [n + 1]
    health checks and slept [n] intervals; it logs that the setup is complete
    and breaks, without another pause or request, whatever the model
    container would answer later. *)
Theorem first_ready_answer_ends_the_setup
  (self : QueueWorker) (pre : list health_poll) (p : health_poll)
  (rest : list health_poll) (w : world) fields sfields :
  shutdown_event w = false ->
  Forall (fun p => unready (health_result p) /\
                   fires_shutdown (during_health p) = false) pre ->
  health_result p =
    Response {| status_code := 200; body := Some (JObj fields) |} ->
  dict_get fields "status" = Some (JStr "healthy") ->
  dict_get fields "setup" = Some (JObj sfields) ->
  dict_get sfields "status" = Some (JStr "succeeded") ->
  let x := setup_loop self (pre ++ p :: rest) 0 w in
  result x = Ret tt /\
  exists before,
    events x = before ++ [LogInfo "model container completed setup"] /\
    List.length (filter is_health_check before) = S (List.length pre) /\
    slept before = SETUP_POLL_INTERVAL * Z.of_nat (List.length pre).
Proof.
  intros Hs Hpre Hres Hstatus Hsetup Hst. cbn zeta.
  destruct (setup_loop_unready_prefix self pre (p :: rest) 0 w Hs Hpre)
    as [evs [w' [Heq [Hs' [Hh Hz]]]]].
  rewrite Heq, setup_loop_cons, Hs', Hres.
  rewrite (ready_verdict _ _ Hstatus Hsetup Hst). cbn zeta.
  rewrite after_after, result_after, events_after. cbn [result fst events snd].
  split; [reflexivity|].
  exists (evs ++ ShutdownIsSet false
          :: HttpGet (cog_http_base self ++ "/health-check")%string
          :: env_events (during_health p)).
  split; [rewrite <- !app_assoc; reflexivity|split].
  - rewrite filter_app. cbn [filter is_health_check].
    rewrite (filter_none is_health_check _
               (env_events_ok _ env_not_health_check (during_health p))).
    rewrite length_app, Hh. cbn [List.length]. lia.
  - rewrite slept_app. cbn [slept].
    rewrite (slept_none _ (env_events_ok _ env_not_sleep _)), Hz. lia.
Qed.

(** No answer, then "starting", then ready. *)
Lemma first_ready_answer_ends_the_setup_witness :
  let x := setup_loop worker
             ([unreachable_poll; starting_poll] ++
              healthy_poll :: [unreachable_poll]) 0 idle in
  result x = Ret tt /\
  exists before,
    events x = before ++ [LogInfo "model container completed setup"] /\
    List.length (filter is_health_check before) = 3%nat /\
    slept before = 200.
Proof.
  apply (first_ready_answer_ends_the_setup worker
           [unreachable_poll; starting_poll] healthy_poll [unreachable_poll]
           idle
           [("status", JStr "healthy");
            ("setup", JObj [("status", JStr "succeeded")])]
           [("status", JStr "succeeded")]); try reflexivity.
  constructor; [split; [apply unready_unreachable|reflexivity]|].
  constructor; [|constructor].
  split; [|reflexivity].
  apply (unready_status [("status", JStr "starting")] (JStr "starting"));
    reflexivity.
Defined.

(** ** Everything a run does *)

Section RunEvents.
Variable self : QueueWorker.
Variable P : event -> Prop.
Hypothesis P_env : forall e, is_env_event e = true -> P e.
Hypothesis P_flag : forall b, P (ShutdownIsSet b).
Hypothesis P_get : P RedisGet.
Hypothesis P_sleep : P (Sleep POLL_INTERVAL).
Hypothesis P_checker : forall k, P (RedisChecker k).
Hypothesis P_poll : forall b, P (PipePoll b).
Hypothesis P_recv : forall m, P (PipeRecv m).
Hypothesis P_send : forall m, P (PipeSend m).
Hypothesis P_clear : P PredictionClear.
Hypothesis P_post : forall fields,
  P (HttpPost (cog_http_base self ++ "/predictions")%string
       (Some (JObj (dict_set fields "webhook" (JStr webhook_url))))
       [("Prefer", "respond-async")]).
Hypothesis P_wait : forall b, P (PredictionWait b).
Hypothesis P_should : forall b, P (RedisShouldCancel b).
Hypothesis P_cancel : forall s, P (cancel_call self s).
Hypothesis P_ack : forall message_id, P (RedisAck message_id).
Hypothesis P_exception :
  forall e, P (LogException "failed to handle message" e).
Hypothesis P_health :
  P (HttpGet (cog_http_base self ++ "/health-check")%string).
Hypothesis P_setup_sleep : P (Sleep SETUP_POLL_INTERVAL).
Hypothesis P_ready : P (LogInfo "model container completed setup").
Hypothesis P_waiting :
  P (LogInfo "waiting for model container to complete setup").
Hypothesis P_bye : P (LogInfo "shutting down worker: bye bye!").

Lemma env_events_all (a : env_act) : Forall P (env_events a).
Proof.
  induction a as [|x a IH]; [constructor|].
  destruct x; cbn; auto; constructor; auto.
Qed.

Lemma drain_events_performed (inbox : list json) :
  Forall P (drain_events inbox).
Proof.
  unfold drain_events. apply Forall_app. split; [|repeat constructor; auto].
  induction inbox as [|m inbox IH]; cbn; repeat constructor; auto.
Qed.

Lemma submission_events_performed (j : job_script)
  (fields : list (string * json)) (w : world) :
  Forall P (submission_events self j fields w).
Proof.
  unfold submission_events. constructor; [exact P_get|].
  apply Forall_app. split; [apply env_events_all|].
  constructor; [apply P_checker|].
  apply Forall_app. split; [apply drain_events_performed|].
  apply Forall_app. split; [repeat constructor; auto|apply env_events_all].
Qed.

Lemma wait_loop_all (prediction_id : json) (ts : list wait_tick) (w : world) :
  Forall P (events (wait_loop self prediction_id ts w)).
Proof.
  revert w. induction ts as [|t rest IH]; intros w; [constructor|].
  rewrite wait_loop_cons. cbn zeta. rewrite events_after.
  generalize (env_apply (during_wait t) w). intros w1.
  apply Forall_app. split.
  { apply Forall_app. split; [apply env_events_all|repeat constructor; auto]. }
  destruct (prediction_event w1); [constructor|].
  rewrite events_after. constructor; [apply P_should|]. cbn [app].
  destruct (cancel_requested t).
  - destruct prediction_id; try constructor.
    rewrite events_after. constructor; [apply P_cancel|].
    apply Forall_app. split; [apply env_events_all|].
    generalize (env_apply (during_cancel t) w1). intros w2.
    destruct (http_failure (cancel_result t)); [constructor|].
    rewrite events_after. constructor; [apply P_flag|].
    destruct (shutdown_event w2); [constructor|apply IH].
  - rewrite events_after. constructor; [apply P_flag|].
    destruct (shutdown_event w1); [constructor|apply IH].
Qed.

Lemma handle_message_all (j : job_script) (w : world) :
  Forall P (events (handle_message self j w)).
Proof.
  destruct (get_res j) as [| |message_id message_json] eqn:Hget.
  - rewrite (handle_message_empty _ _ _ Hget). cbn [events snd].
    constructor; [exact P_get|].
    apply Forall_app. split; [apply env_events_all|repeat constructor; auto].
  - rewrite (handle_message_fails _ _ _ Hget). cbn [events snd].
    constructor; [exact P_get|apply env_events_all].
  - rewrite handle_message_cases.
    destruct (message_error message_json) as [e|] eqn:He.
    + rewrite (dispatch_malformed _ _ _ _ _ _ Hget He). cbn [events snd].
      constructor; [exact P_get|].
      apply Forall_app. split; [apply env_events_all|].
      destruct message_json as [[]|]; repeat constructor; auto.
    + destruct (message_error_none _ He) as [fields [pid [-> Hid]]].
      rewrite (dispatch_message _ _ _ _ _ _ Hget Hid).
      pose proof (submission_events_performed j fields w) as Hsub.
      destruct (http_failure (post_res j)); [exact Hsub|].
      pose proof (wait_loop_all pid (ticks j)
                    (submitted_world j (JObj fields) w)) as Hw.
      destruct (wait_loop self pid (ticks j) _) as [[[[|]| e |] w2] t2];
        cbn [events snd after] in *;
        repeat (apply Forall_app; split); auto.
Qed.

Lemma main_loop_all (js : list job_script) (w : world) :
  Forall P (events (main_loop self js w)).
Proof.
  revert w. induction js as [|j js IH]; intros w.
  - rewrite main_loop_nil. destruct (shutdown_event w); repeat constructor; auto.
  - rewrite main_loop_cons.
    destruct (shutdown_event w); [repeat constructor; auto|].
    rewrite events_after. constructor; [apply P_flag|].
    apply Forall_app. split; [apply env_events_all|].
    pose proof (handle_message_all j (env_apply (before_get j) w)) as Hj.
    destruct (handle_message self j (env_apply (before_get j) w))
      as [[[u| e |] w1] t1];
      cbn [events snd] in *; rewrite ?events_after;
      repeat (apply Forall_app; split); auto.
Qed.

Lemma setup_loop_all (polls : list health_poll) (count : Z) (w : world) :
  Forall P (events (setup_loop self polls count w)).
Proof.
  revert count w. induction polls as [|p rest IH]; intros count w.
  - rewrite setup_loop_nil.
    destruct (shutdown_event w); repeat constructor; auto.
  - rewrite setup_loop_cons.
    destruct (shutdown_event w); [repeat constructor; auto|].
    cbn zeta. rewrite events_after.
    apply Forall_app. split.
    { constructor; [apply P_flag|].
      constructor; [exact P_health|apply env_events_all]. }
    destruct (health_verdict (health_result p)).
    + constructor; [exact P_ready|constructor].
    + rewrite events_after.
      repeat (apply Forall_app; split); try apply IH.
      * unfold liveness_events.
        destruct (_ =? 0); [|constructor].
        constructor; [exact P_waiting|constructor].
      * constructor; [exact P_setup_sleep|constructor].
    + constructor.
Qed.

Lemma start_all (s : run_script) (w : world) :
  Forall P (events (start self s w)).
Proof.
  rewrite start_cases.
  pose proof (setup_loop_all (setup_polls s) 0 w) as Hsetup.
  destruct (setup_loop self (setup_polls s) 0 w) as [[[u| e |] w1] t1];
    cbn [events snd] in *; auto.
  rewrite events_after. apply Forall_app. split; [exact Hsetup|].
  pose proof (main_loop_all (jobs s) w1) as Hmain.
  destruct (main_loop self (jobs s) w1) as [[[u'| e |] w2] t2];
    cbn [events snd] in *; auto.
  apply Forall_app. split; [exact Hmain|].
  constructor; [exact P_bye|constructor].
Qed.
End RunEvents.

(** X16: every HTTP request, [time.sleep] and log entry of a run of [start]
    is one of those written in the class.  The only [GET] goes to
    [cog_http_base + "/health-check"]; a [POST] with a body goes to
    [cog_http_base + "/predictions"] with the header [Prefer: respond-async]
    and a body whose ["webhook"] is the worker's own address; a [POST]
    without a body goes to [cog_http_base + "/predictions/<id>/cancel"]
    without headers; every [time.sleep] is of 100 ms; there are three info
    messages and one exception message. *)
Theorem requests_sleeps_and_logs_of_a_run
  (self : QueueWorker) (s : run_script) (w : world) :
  Forall (performs self) (events (start self s w)).
Proof.
  apply start_all; try (intros; exact I); try reflexivity.
  - intros e. destruct e; try discriminate; intros _; exact I.
  - intros fields. cbn. repeat split.
    exists (dict_set fields "webhook" (JStr webhook_url)).
    split; [reflexivity|apply dict_get_set].
  - intros s0. cbn. split; [reflexivity|]. exists s0. reflexivity.
  - left. reflexivity.
  - right. left. reflexivity.
  - right. right. reflexivity.
Qed.

(** X17: whatever the messages hold, a worker built by [__init__] sends its
    requests to the model container at [http://localhost:5000] and nowhere
    else; the webhook and the id of a message never become the target of a
    request of the worker. *)
Theorem worker_calls_the_local_model_container_only
  (predict_timeout : Z) (s : run_script) (w : world) :
  Forall (fun e => forall url,
            request_url e = Some url ->
            prefix "http://localhost:5000/" url = true)
    (events (start (QueueWorker_init predict_timeout) s w)).
Proof.
  apply start_all; intros;
    match goal with
    | H : request_url _ = Some _ |- _ =>
        cbn in H; try discriminate; try (injection H as <-; reflexivity)
    end.
  destruct e; discriminate.
Qed.

(** X18: the health of the model container is asked for during setup only.
    The events of a run of [start] fall into a first part without a dequeue
    and a second part without a health check: once the main loop has begun,
    the worker never looks at [/health-check] again. *)
Theorem health_is_checked_before_the_first_dequeue_only
  (self : QueueWorker) (s : run_script) (w : world) :
  exists pre post,
    events (start self s w) = pre ++ post /\
    forallb not_get pre = true /\
    Forall (fun e => is_health_check e = false) post.
Proof.
  rewrite start_cases.
  destruct (setup_loop_ends self (setup_polls s) 0 w) as [Hev _].
  apply (forallb_impl _ _ _ setup_not_get) in Hev.
  destruct (setup_loop self (setup_polls s) 0 w) as [[[u| e |] w1] t1];
    cbn [events snd] in *;
    try (exists t1, []; rewrite app_nil_r; repeat split; auto; constructor).
  assert (Hmain : Forall (fun e => is_health_check e = false)
                    (events (main_loop self (jobs s) w1))).
  { apply main_loop_all; try reflexivity.
    intros e. destruct e; try discriminate; reflexivity. }
  exists t1. eexists. split; [apply events_after|]. split; [exact Hev|].
  destruct (main_loop self (jobs s) w1) as [[[u'| e |] w2] t2];
    cbn [events snd] in *; auto.
  apply Forall_app. split; [exact Hmain|]. repeat constructor.
Qed.

(** ** The channel: numbers and strings *)

Lemma to_N_byte_of_N (n : N) : (n <= 255)%N -> Byte.to_N (byte_of_N n) = n.
Proof.
  intros H. unfold byte_of_N. destruct (Byte.of_N n) as [b|] eqn:E.
  - apply Byte.to_of_N, E.
  - apply Byte.of_N_None_iff in E. lia.
Qed.

Lemma div_mod_128 (n : N) :
  exists q r : N, (n / 128 = q /\ n mod 128 = r /\ n = 128 * q + r /\ r < 128)%N.
Proof.
  exists (n / 128)%N, (n mod 128)%N. repeat split.
  - apply N.div_mod. discriminate.
  - apply N.mod_lt. discriminate.
Qed.

Lemma decode_encode_N_fuel (fuel : nat) (n : N) (rest : list byte) :
  (n < 2 ^ N.of_nat fuel)%N ->
  decode_N (encode_N_fuel fuel n ++ rest) = Some (n, rest).
Proof.
  revert n. induction fuel as [|fuel IH]; intros n Hn.
  - cbn in Hn. assert (n = 0%N) as -> by lia. reflexivity.
  - cbn [encode_N_fuel]. destruct (N.ltb_spec n 128) as [Hlt|Hge].
    + cbn [app decode_N]. rewrite to_N_byte_of_N by lia.
      destruct (N.ltb_spec n 128); [reflexivity|lia].
    + cbn [app decode_N].
      destruct (div_mod_128 n) as [q [r [-> [-> [Hn' Hr]]]]].
      rewrite to_N_byte_of_N by lia.
      destruct (N.ltb_spec (128 + r) 128); [lia|].
      rewrite IH.
      * f_equal. f_equal. lia.
      * rewrite Nat2N.inj_succ, N.pow_succ_r' in Hn.
        assert (0 < 2 ^ N.of_nat fuel)%N
          by (apply N.neq_0_lt_0, N.pow_nonzero; lia).
        generalize dependent (2 ^ N.of_nat fuel)%N. intros. lia.
Qed.

Lemma decode_encode_N (n : N) (rest : list byte) :
  decode_N (encode_N n ++ rest) = Some (n, rest).
Proof.
  unfold encode_N. apply decode_encode_N_fuel.
  rewrite N2Nat.id. apply N.size_gt.
Qed.

(** A number is written as bytes that announce a successor, then one that
    does not. *)
Lemma encode_N_fuel_shape (fuel : nat) (n : N) :
  (n < 2 ^ N.of_nat fuel)%N ->
  exists init last,
    encode_N_fuel fuel n = init ++ [last] /\
    forallb continues init = true /\ continues last = false.
Proof.
  revert n. induction fuel as [|fuel IH]; intros n Hn.
  - cbn in Hn. assert (n = 0%N) as -> by lia. exists [], "000"%byte. auto.
  - cbn [encode_N_fuel]. destruct (N.ltb_spec n 128) as [Hlt|Hge].
    + exists [], (byte_of_N n). repeat split; auto.
      unfold continues. rewrite to_N_byte_of_N by lia.
      apply N.leb_gt. lia.
    + destruct (div_mod_128 n) as [q [r [-> [-> [Hn' Hr]]]]].
      destruct (IH q) as [init [last [E [Hinit Hlast]]]].
      { rewrite Nat2N.inj_succ, N.pow_succ_r' in Hn.
        assert (0 < 2 ^ N.of_nat fuel)%N
          by (apply N.neq_0_lt_0, N.pow_nonzero; lia).
        generalize dependent (2 ^ N.of_nat fuel)%N. intros. lia. }
      exists (byte_of_N (128 + r) :: init), last.
      rewrite E. repeat split; auto.
      cbn [forallb]. rewrite Hinit. unfold continues.
      rewrite to_N_byte_of_N by lia. rewrite andb_true_r.
      apply N.leb_le. lia.
Qed.

Lemma encode_N_shape (n : N) :
  exists init last,
    encode_N n = init ++ [last] /\
    forallb continues init = true /\ continues last = false.
Proof.
  apply encode_N_fuel_shape. rewrite N2Nat.id. apply N.size_gt.
Qed.

Lemma decode_N_incomplete (bs : list byte) :
  forallb continues bs = true -> decode_N bs = None.
Proof.
  induction bs as [|b bs IH]; cbn; [reflexivity|].
  intros H. apply andb_true_iff in H as [Hb Hbs].
  unfold continues in Hb. apply N.leb_le in Hb.
  destruct (N.ltb_spec (Byte.to_N b) 128); [lia|].
  rewrite (IH Hbs). reflexivity.
Qed.

Lemma decode_encode_Z (n : Z) (rest : list byte) :
  decode_Z (encode_Z n ++ rest) = Some (n, rest).
Proof.
  unfold encode_Z, decode_Z. cbn [app]. rewrite decode_encode_N.
  rewrite N2Z.inj_abs_N.
  destruct (Z.ltb_spec n 0); cbn; f_equal; f_equal; lia.
Qed.

Lemma take_exact {A} (l rest : list A) :
  (List.length (l ++ rest) <? List.length l)%nat = false /\
  firstn (List.length l) (l ++ rest) = l /\
  skipn (List.length l) (l ++ rest) = rest.
Proof.
  split; [apply Nat.ltb_ge; rewrite length_app; lia|].
  split.
  - rewrite firstn_app, Nat.sub_diag, firstn_all. cbn. apply app_nil_r.
  - rewrite skipn_app, Nat.sub_diag, skipn_all. reflexivity.
Qed.

Lemma decode_encode_str (s : string) (rest : list byte) :
  decode_str (encode_str s ++ rest) = Some (s, rest).
Proof.
  unfold encode_str, decode_str. rewrite <- app_assoc, decode_encode_N.
  rewrite Nat2N.id.
  destruct (take_exact (list_byte_of_string s) rest) as [-> [-> ->]].
  rewrite string_of_list_byte_of_string. reflexivity.
Qed.

(** ** The channel: values *)

Lemma json_nested_ind (P : json -> Prop) :
  P JNull ->
  (forall b, P (JBool b)) ->
  (forall n, P (JNum n)) ->
  (forall s, P (JStr s)) ->
  (forall items, Forall P items -> P (JArr items)) ->
  (forall fields, Forall (fun kv => P (snd kv)) fields -> P (JObj fields)) ->
  forall v, P v.
Proof.
  intros HNull HBool HNum HStr HArr HObj.
  refine (fix go (v : json) : P v :=
            match v with
            | JNull => HNull
            | JBool b => HBool b
            | JNum n => HNum n
            | JStr s => HStr s
            | JArr items =>
                HArr items
                  ((fix all (xs : list json) : Forall P xs :=
                      match xs with
                      | [] => Forall_nil P
                      | x :: rest => Forall_cons x (go x) (all rest)
                      end) items)
            | JObj fields =>
                HObj fields
                  ((fix all (kvs : list (string * json))
                      : Forall (fun kv => P (snd kv)) kvs :=
                      match kvs with
                      | [] => Forall_nil _
                      | kv :: rest => Forall_cons kv (go (snd kv)) (all rest)
                      end) fields)
            end).
Qed.

Lemma decode_items_ok (fuel : nat) (items : list json) (rest : list byte) :
  Forall (fun x => forall rest',
            decode_json fuel (encode_json x ++ rest') = Some (x, rest')) items ->
  decode_items (decode_json fuel) (List.length items)
    (encode_items items ++ rest) = Some (items, rest).
Proof.
  induction 1 as [|x items Hx _ IH]; [reflexivity|].
  cbn [List.length encode_items decode_items].
  rewrite <- app_assoc, Hx, IH. reflexivity.
Qed.

Lemma decode_fields_ok (fuel : nat) (fields : list (string * json))
  (rest : list byte) :
  Forall (fun kv => forall rest',
            decode_json fuel (encode_json (snd kv) ++ rest') =
            Some (snd kv, rest')) fields ->
  decode_fields (decode_json fuel) (List.length fields)
    (encode_fields fields ++ rest) = Some (fields, rest).
Proof.
  induction 1 as [|[k x] fields Hx _ IH]; [reflexivity|].
  cbn [List.length encode_fields decode_fields snd] in *.
  rewrite <- !app_assoc, decode_encode_str, Hx, IH. reflexivity.
Qed.

Lemma decode_encode_json (v : json) :
  forall fuel rest,
    (json_depth v <= fuel)%nat ->
    decode_json fuel (encode_json v ++ rest) = Some (v, rest).
Proof.
  induction v as [|b|n|s|items IH|fields IH] using json_nested_ind;
    intros [|fuel] rest Hd; cbn [json_depth] in Hd; try lia.
  - reflexivity.
  - destruct b; reflexivity.
  - cbn [encode_json app decode_json]. rewrite decode_encode_Z. reflexivity.
  - cbn [encode_json app decode_json]. rewrite decode_encode_str. reflexivity.
  - change (encode_json (JArr items))
      with (tag_arr :: encode_N (N.of_nat (List.length items)) ++
            encode_items items).
    change (json_depth (JArr items)) with (S (deepest_item items)) in Hd.
    cbn [app decode_json]. rewrite <- app_assoc, decode_encode_N, Nat2N.id.
    rewrite decode_items_ok; [reflexivity|].
    apply Nat.succ_le_mono in Hd. clear rest.
    induction IH as [|x items Hx _ IHitems]; constructor;
      cbn [deepest_item] in Hd.
    + intros rest'. apply Hx. lia.
    + apply IHitems. lia.
  - change (encode_json (JObj fields))
      with (tag_obj :: encode_N (N.of_nat (List.length fields)) ++
            encode_fields fields).
    change (json_depth (JObj fields)) with (S (deepest_field fields)) in Hd.
    cbn [app decode_json]. rewrite <- app_assoc, decode_encode_N, Nat2N.id.
    rewrite decode_fields_ok; [reflexivity|].
    apply Nat.succ_le_mono in Hd. clear rest.
    induction IH as [|[k x] fields Hx _ IHfields]; constructor;
      cbn [deepest_field snd] in *.
    + intros rest'. apply Hx. lia.
    + apply IHfields. lia.
Qed.

Lemma json_depth_le_length (v : json) :
  (json_depth v <= List.length (encode_json v))%nat.
Proof.
  induction v as [|b|n|s|items IH|fields IH] using json_nested_ind;
    try (cbn; lia).
  - change (encode_json (JArr items))
      with (tag_arr :: encode_N (N.of_nat (List.length items)) ++
            encode_items items).
    change (json_depth (JArr items)) with (S (deepest_item items)).
    cbn [List.length]. rewrite length_app. apply le_n_S.
    enough (deepest_item items <= List.length (encode_items items))%nat by lia.
    induction IH as [|x items Hx _ IHitems]; cbn [deepest_item encode_items];
      [lia|]. rewrite length_app. lia.
  - change (encode_json (JObj fields))
      with (tag_obj :: encode_N (N.of_nat (List.length fields)) ++
            encode_fields fields).
    change (json_depth (JObj fields)) with (S (deepest_field fields)).
    cbn [List.length]. rewrite length_app. apply le_n_S.
    enough (deepest_field fields <= List.length (encode_fields fields))%nat
      by lia.
    induction IH as [|[k x] fields Hx _ IHfields];
      cbn [deepest_field encode_fields snd] in *; [lia|].
    rewrite !length_app. lia.
Qed.

Lemma decode_encode_event (e : EventPayload) (rest : list byte) :
  decode_event (encode_event e ++ rest) = Some (e, rest).
Proof.
  destruct e as [payload|message]; cbn [encode_event app decode_event].
  - cbn [Byte.eqb]. rewrite decode_encode_json; [reflexivity|].
    pose proof (json_depth_le_length payload). rewrite length_app. lia.
  - rewrite decode_encode_str. reflexivity.
Qed.

(** ** The channel: one encoding, one framing *)

Lemma loads_dumps (m : ChannelMessage) : loads (dumps m) = Some m.
Proof.
  destruct m as [correlation_id e]. unfold loads, dumps. cbn [fst snd].
  rewrite decode_encode_str.
  rewrite <- (app_nil_r (encode_event e)), decode_encode_event. reflexivity.
Qed.

Lemma unframe_frame (buf rest : list byte) :
  unframe (frame buf ++ rest) = Some (buf, rest).
Proof.
  unfold unframe, frame, header. rewrite <- app_assoc, decode_encode_N, Nat2N.id.
  destruct (take_exact buf rest) as [-> [-> ->]]. reflexivity.
Qed.

Lemma unframe_incomplete (buf pre suf : list byte) :
  frame buf = pre ++ suf -> suf <> [] -> unframe pre = None.
Proof.
  unfold frame, header. intros E Hsuf.
  apply app_eq_app in E as [l [[Eh Es]|[Ep Eb]]].
  - destruct (encode_N_shape (N.of_nat (List.length buf)))
      as [init [last [Eshape [Hinit Hlast]]]].
    rewrite Eshape in Eh.
    destruct l as [|x l] using rev_ind.
    + rewrite app_nil_r in Eh. subst pre. cbn [app] in Es. subst suf.
      unfold unframe. rewrite <- Eshape.
      rewrite <- (app_nil_r (encode_N _)), decode_encode_N, Nat2N.id.
      destruct buf; [contradiction|]. reflexivity.
    + rewrite app_assoc in Eh. apply app_inj_tail in Eh as [Einit _].
      unfold unframe. rewrite decode_N_incomplete; [reflexivity|].
      rewrite Einit, forallb_app in Hinit.
      apply andb_true_iff in Hinit. tauto.
  - subst pre. unfold unframe. rewrite decode_encode_N, Nat2N.id.
    rewrite Eb, length_app.
    destruct suf; [contradiction|]. cbn [List.length].
    destruct (Nat.ltb_spec (List.length l) (List.length l + S (List.length suf)));
      [reflexivity|lia].
Qed.

(** The suspension-based reader returns the payload once all of the frame has
    arrived, however the transport cuts the frame into chunks. *)
Lemma recv_bytes_frame (buf : list byte) (chunks : list (list byte))
  (buffer : list byte) :
  buffer ++ List.concat chunks = frame buf ->
  recv_bytes buffer chunks = Resumed (buf, []).
Proof.
  revert buffer. induction chunks as [|chunk later IH]; intros buffer E.
  - cbn in E. rewrite app_nil_r in E. subst buffer. cbn [recv_bytes].
    rewrite <- (app_nil_r (frame buf)), unframe_frame. reflexivity.
  - cbn [recv_bytes].
    destruct (List.concat (chunk :: later)) as [|x rest] eqn:Ec.
    + rewrite app_nil_r in E. subst buffer.
      rewrite <- (app_nil_r (frame buf)), unframe_frame. reflexivity.
    + rewrite (unframe_incomplete buf buffer (x :: rest)); [|auto|discriminate].
      apply IH. rewrite <- app_assoc. cbn [List.concat] in Ec.
      rewrite <- Ec in E. exact E.
Qed.

(** [test_async_connection_rt]: what the suspension-based end sends, the
    blocking end receives, and the other way round. *)
Lemma test_async_connection_rt :
  Connection_recv (List.concat (AsyncConnection_send item)) =
  Some (Some item, []) /\
  AsyncConnection_recv (Connection_send item) = Resumed (Some item, []).
Proof. split; reflexivity. Qed.

(** C7: a message sent by the blocking convention and received by the
    suspension-based one comes out as it went in, however the transport cuts
    the bytes into chunks, and so does a message sent by the suspension-based
    convention and received by the blocking one; the two conventions put the
    same bytes on the wire. *)
Theorem channel_round_trip (m : ChannelMessage) :
  (forall chunks,
     List.concat chunks = List.concat (Connection_send m) ->
     AsyncConnection_recv chunks = Resumed (Some m, [])) /\
  Connection_recv (List.concat (AsyncConnection_send m)) = Some (Some m, []) /\
  List.concat (Connection_send m) = List.concat (AsyncConnection_send m).
Proof.
  split; [|split].
  - intros chunks E. unfold AsyncConnection_recv, Connection_send in *.
    cbn [List.concat] in E. rewrite app_nil_r in E.
    rewrite (recv_bytes_frame (dumps m) chunks []) by exact E.
    rewrite loads_dumps. reflexivity.
  - unfold Connection_recv, AsyncConnection_send. cbn [List.concat].
    rewrite app_nil_r. change (header (dumps m) ++ dumps m) with (frame (dumps m)).
    rewrite <- (app_nil_r (frame (dumps m))), unframe_frame, loads_dumps.
    reflexivity.
  - cbn [Connection_send AsyncConnection_send List.concat].
    rewrite !app_nil_r. reflexivity.
Qed.

(** The frame of the test item, delivered in three pieces. *)
Lemma channel_round_trip_witness :
  AsyncConnection_recv
    [firstn 1 (frame (dumps item));
     firstn 6 (skipn 1 (frame (dumps item)));
     skipn 7 (frame (dumps item))] = Resumed (Some item, []).
Proof.
  apply (proj1 (channel_round_trip item)). reflexivity.
Defined.
